(** * DevTools front-end: issue aggregation, the issues pane and the
      visual-logging driver

    A shallow embedding of
    - [front_end/sdk/Issue.js] (classes [Issue] and [AggregatedIssue]),
    - the issues pane ([IssuesPaneImpl], its views and the [issueDetails]
      table),
    - [front_end/ui/visual_logging/LoggingDriver.ts].

    The first part of the file holds the definitions, the second part the
    theorems about them. *)

From Stdlib Require Import ZArith String List Lia.
From stdpp Require Import base option list gmap strings.

Set Default Proof Using "Type*".
Local Open Scope string_scope.
Local Open Scope list_scope.

(* ===================================================================== *)
(** * Part I: definitions *)
(* ===================================================================== *)

(** ** JavaScript notions the sources rely on *)
Module JS.

(** The errors the modelled code can raise. *)
Inductive JSError := TypeError.

(** Outcome of running a piece of code: it returns normally or throws. *)
Inductive Completion (A : Type) :=
| Normal (a : A)
| Throw (e : JSError).
Arguments Normal {A} a.
Arguments Throw {A} e.

Definition bind {A B} (c : Completion A) (k : A → Completion B) : Completion B :=
  match c with
  | Normal a => k a
  | Throw e => Throw e
  end.

Definition cmap {A B} (f : A → B) (c : Completion A) : Completion B :=
  bind c (λ a, Normal (f a)).

#[global] Instance completion_ret : MRet Completion := @Normal.
#[global] Instance completion_bind : MBind Completion := λ A B k c, bind c k.
#[global] Instance completion_fmap : FMap Completion := @cmap.

(** A variable of dynamic type that holds [null], [undefined] or an object. *)
Inductive Nullable (A : Type) :=
| Null
| Undefined
| Obj (a : A).
Arguments Null {A}.
Arguments Undefined {A}.
Arguments Obj {A} a.

(** [ToBoolean]: [null] and [undefined] are falsy, every object is truthy. *)
Definition truthy {A} (v : Nullable A) : bool :=
  match v with
  | Obj _ => true
  | Null | Undefined => false
  end.

(** Property access [v.f]: a [TypeError] on [null] and [undefined]. *)
Definition getField {A B} (v : Nullable A) (f : A → B) : Completion B :=
  match v with
  | Obj a => Normal (f a)
  | Null | Undefined => Throw TypeError
  end.

End JS.

(** ** The built-in [Map]: entries in insertion order, one per key *)
Module JSMap.
Section JSMap.
Context {K V : Type} `{EqDecision K}.

Definition t := list (K * V).

(** [new Map()] *)
Definition empty : t := [].

Definition has (k : K) (m : t) : bool := bool_decide (k ∈ m.*1).

Fixpoint get (k : K) (m : t) : option V :=
  match m with
  | [] => None
  | (k', v) :: m' => if decide (k = k') then Some v else get k m'
  end.

(** [m.set(k, v)]: an existing key keeps its position, a new one goes last. *)
Fixpoint set (k : K) (v : V) (m : t) : t :=
  match m with
  | [] => [(k, v)]
  | (k', v') :: m' =>
      if decide (k = k') then (k, v) :: m' else (k', v') :: set k v m'
  end.

Definition size (m : t) : nat := length m.
Definition keys (m : t) : list K := m.*1.
Definition values (m : t) : list V := m.*2.
Definition clear (m : t) : t := [].

End JSMap.
Arguments t : clear implicits.
End JSMap.

(** ** [front_end/sdk/Issue.js] *)

(** What the classes take from their surroundings. Cookies are objects: a
    value of type [Cookie] is the identity of one, [Heap] holds what the
    objects currently contain, and [JSON_stringify h c] is the text
    [JSON.stringify] produces for cookie [c] in heap [h]. *)
Class CookieHost := {
  Cookie : Type;
  Heap : Type;
  JSON_stringify : Heap → Cookie → string;
}.

Module Issue.
Section Issue.
Context `{CookieHost}.

(** An affected request as the class reads it: only [requestId] is looked
    at, [None] when the object has no such field. *)
Record Request := { requestId : option string }.

(** The [resources] payload of an issue; [None] for a field that is not
    there. *)
Record Resources := {
  cookies : option (list Cookie);
  requests : option (list Request);
}.

Record t := {
  _code : string;
  _resources : JS.Nullable Resources;
}.

(** [new Issue(code, resources)] *)
Definition new (code : string) (resources : JS.Nullable Resources) : t :=
  {| _code := code; _resources := resources |}.

Definition code (this : t) : string := _code this.

Definition resources (this : t) : JS.Nullable Resources := _resources this.

(** The [for (const request of ...)] loop of [isAssociatedWithRequestId]:
    [true] at the first request whose [requestId] is strictly equal to the
    argument, [false] when the loop runs to its end. *)
Fixpoint requestsLoop (rs : list Request) (rid : string) : bool :=
  match rs with
  | [] => false
  | request :: rest =>
      if bool_decide (requestId request = Some rid) then true
      else requestsLoop rest rid
  end.

Definition isAssociatedWithRequestId (this : t) (rid : string)
  : JS.Completion bool :=
  if negb (JS.truthy (_resources this)) then JS.Normal false
  else
    reqs ← JS.getField (_resources this) requests;
    match reqs with
    | Some rs => if requestsLoop rs rid then JS.Normal true else JS.Normal false
    | None => JS.Normal false
    end.

End Issue.
End Issue.

(** [IssuesModel.connectWithIssue(cookie, issue)] is defined in
    [IssuesModel.js], another file of the repository: it is taken as an
    operation on the heap. *)
Class IssuesModelApi `{CookieHost} := {
  connectWithIssue : Cookie → Issue.t → Heap → Heap;
}.

(** The assumption under which the aggregate is studied: linking a cookie
    to an issue leaves the JSON text of every cookie as it was. *)
Class ConnectKeepsJSON `{IssuesModelApi} : Prop :=
  connect_keeps_JSON :
    ∀ (c : Cookie) (i : Issue.t) (h : Heap) (c' : Cookie),
      JSON_stringify (connectWithIssue c i h) c' = JSON_stringify h c'.

Module AggregatedIssue.
Section AggregatedIssue.
Context `{IssuesModelApi}.

Record t := {
  _code : string;
  _resources : list (Issue.Resources);
  _cookies : JSMap.t string Cookie;
  _requests : JSMap.t string Issue.Request;
}.

(** [new AggregatedIssue(code)] *)
Definition new (code : string) : t :=
  {| _code := code;
     _resources := [];
     _cookies := JSMap.empty;
     _requests := JSMap.empty |}.

Definition code (this : t) : string := _code this.

(** [cookies()] hands out the map's values, in the map's order. *)
Definition cookies (this : t) : list Cookie := JSMap.values (_cookies this).

Definition numberOfCookies (this : t) : nat := JSMap.size (_cookies this).

Definition with_cookies (this : t) (m : JSMap.t string Cookie) : t :=
  {| _code := _code this;
     _resources := _resources this;
     _cookies := m;
     _requests := _requests this |}.

(** The body of [for (const cookie of resources.cookies)]. *)
Fixpoint cookiesLoop (issue : Issue.t) (cs : list Cookie)
    (m : JSMap.t string Cookie) (h : Heap) : JSMap.t string Cookie * Heap :=
  match cs with
  | [] => (m, h)
  | cookie :: rest =>
      let h1 := connectWithIssue cookie issue h in
      let key := JSON_stringify h1 cookie in
      let m1 := if negb (JSMap.has key m) then JSMap.set key cookie m else m in
      cookiesLoop issue rest m1 h1
  end.

Definition addInstance (this : t) (issue : Issue.t) (h : Heap)
  : JS.Completion (t * Heap) :=
  let resources := Issue.resources issue in
  if negb (JS.truthy resources) then JS.Normal (this, h)
  else
    cs ← JS.getField resources Issue.cookies;
    match cs with
    | Some cs =>
        let '(m, h') := cookiesLoop issue cs (_cookies this) h in
        JS.Normal (with_cookies this m, h')
    | None => JS.Normal (this, h)
    end.

(** A sequence of [addInstance] calls on one aggregate; a call that throws
    ends the sequence. *)
Fixpoint addInstances (this : t) (issues : list Issue.t) (h : Heap)
  : JS.Completion (t * Heap) :=
  match issues with
  | [] => JS.Normal (this, h)
  | issue :: rest =>
      '(this', h') ← addInstance this issue h;
      addInstances this' rest h'
  end.

(** *** What the aggregate is compared with *)

(** The cookies an issue brings: those of [resources.cookies], none when
    [resources] or the field is missing. *)
Definition cookiesOf (issue : Issue.t) : list Cookie :=
  match Issue.resources issue with
  | JS.Obj r => default [] (Issue.cookies r)
  | _ => []
  end.

(** All cookies of a sequence of issues, in the order they are met. *)
Definition allCookies (issues : list Issue.t) : list Cookie :=
  issues ≫= cookiesOf.

(** The map entries of a list of cookies: each under its JSON text. *)
Definition entriesOf (h : Heap) (cs : list Cookie) : JSMap.t string Cookie :=
  (λ c, (JSON_stringify h c, c)) <$> cs.

End AggregatedIssue.
End AggregatedIssue.

(** Of a list, the elements whose key no earlier element has: one per key,
    the first met, in the list's order. *)
Fixpoint firstSeenFrom {A K} `{EqDecision K} (key : A → K) (seen : list K)
    (l : list A) : list A :=
  match l with
  | [] => []
  | x :: l' =>
      if decide (key x ∈ seen) then firstSeenFrom key seen l'
      else x :: firstSeenFrom key (key x :: seen) l'
  end.

Definition firstSeen {A K} `{EqDecision K} (key : A → K) (l : list A) : list A :=
  firstSeenFrom key [] l.

(** ** [front_end/ui/visual_logging/LoggingDriver.ts] *)
Module LoggingDriver.

Definition PROCESS_DOM_INTERVAL : Z := 500.
Definition KEYBOARD_LOG_INTERVAL : Z := 3000.
Definition HOVER_LOG_INTERVAL : Z := 1000.
Definition DRAG_LOG_INTERVAL : Z := 1250.
Definition DRAG_REPORT_THRESHOLD : Z := 50.
Definition CLICK_LOG_INTERVAL : Z := 500.
Definition RESIZE_LOG_INTERVAL : Z := 1000.
Definition RESIZE_REPORT_THRESHOLD : Z := 50.

(** *** Objects of the page *)

(** DOM nodes and documents, by identity. *)
Definition Node := nat.
Definition Document := nat.

(** What can be logged: an element of the page, or an object registered
    through [NonDomState]. *)
Inductive Loggable :=
| DomElement (element : Node)
| NonDomObject (id : nat).

#[global] Instance Loggable_eq_dec : EqDecision Loggable.
Proof. solve_decision. Defined.

Definition Loggable_to_sum (l : Loggable) : nat + nat :=
  match l with
  | DomElement n => inl n
  | NonDomObject o => inr o
  end.

Definition Loggable_of_sum (x : nat + nat) : Loggable :=
  match x with
  | inl n => DomElement n
  | inr o => NonDomObject o
  end.

#[global] Instance Loggable_countable : Countable Loggable.
Proof.
  refine (inj_countable' Loggable_to_sum Loggable_of_sum _).
  by intros [].
Defined.

Definition isDomElement (l : Loggable) : bool :=
  match l with
  | DomElement _ => true
  | NonDomObject _ => false
  end.

Record DOMRect := {
  rect_x : Z;
  rect_y : Z;
  rect_width : Z;
  rect_height : Z;
}.

Inductive ReadyState := loading | interactive | complete.

(** Events as the handlers of this file see them: a [MouseEvent] (pointer
    and drag events are mouse events) with its screen position, or another
    kind of event. *)
Inductive Event :=
| MouseEvent (screenX screenY : Z)
| OtherEvent.

(** The functions of the file that are handed out as callbacks. *)
Inductive Fn :=
| fn_scheduleProcessing
| fn_process
| fn_cancelLogging
| fn_onDragStart
| fn_maybeCancelDrag.

#[global] Instance Fn_eq_dec : EqDecision Fn.
Proof. solve_decision. Defined.

(** What a throttler is asked to run. *)
Inductive Task :=
| ProcessForLogging   (* () => RenderCoordinator.instance().read('processForLogging', process) *)
| CancelLogging       (* cancelLogging *)
| DragLog (e : Event) (* the log that logDrag schedules *).

(** The value of a throttler variable: the shared [noOpThrottler], or a
    [Common.Throttler.Throttler] object. *)
Inductive ThrottlerHandle :=
| noOpThrottler
| ThrottlerObject (r : nat).

(** Modelled from the spec: [Common.Throttler.Throttler] is defined in
    [core/common], another part of the repository. A throttler keeps at
    most one piece of work between two firings: [schedule] replaces what is
    pending, and a firing runs what is pending, once. *)
Record Throttler := {
  interval : Z;
  pending : option Task;
}.

Record ObserveOptions := {
  attributes : bool;
  childList : bool;
  subtree : bool;
}.

(** A [MutationObserver]: its callback and what it observes. *)
Record MutationObserver := {
  callback : Fn;
  targets : list (Node * ObserveOptions);
}.

(** [LoggingConfig.js]: of a config, the driver reads the [track] flags. *)
Record Track := {
  click : bool;
  dblclick : bool;
  hover : bool;
  drag : bool;
  change : bool;
  keydown : bool;
  resize : bool;
}.

Record LoggingConfig := { track : option Track }.

(** [config.track?.flag] *)
Definition tracks (flag : Track → bool) (c : LoggingConfig) : bool :=
  match track c with
  | Some t => flag t
  | None => false
  end.

(** [LoggingState.js]: the state kept for a loggable. The parent's state is
    reached through the parent loggable. *)
Record LoggingState := {
  impressionLogged : bool;
  processed : bool;
  config : LoggingConfig;
  parent : option Loggable;
  size : option DOMRect;
  selectOpen : bool;
}.

(** [NonDomState.js]: a registered loggable. *)
Record Registration := {
  reg_loggable : Loggable;
  reg_config : LoggingConfig;
  reg_parent : option Loggable;
}.

(** [DomState.js]: what [getDomState] returns. *)
Record DomState := {
  loggables : list (Node * option Node);   (* {element, parent} *)
  shadowRoots : list Node;
}.

(** The handlers that [process] attaches to an element. *)
Inductive ElementHandler :=
| ClickLikeHandler (doubleClick : bool)
| LogHoverHandler
| HoverOutHandler       (* () => hoverLogThrottler.schedule(cancelLogging) *)
| DragStartHandler      (* onDragStart *)
| LogChangeHandler
| LogKeyDownHandler
| SelectOpenHandler     (* onSelectOpen *)
| SelectKeyDownHandler
| SelectKeyPressHandler
| SelectChangeHandler.

Inductive Attachment :=
| EventListener (type : string) (handler : ElementHandler)
| ResizeObserverOn
| IntersectionObserverOn.

(** A listener on a document: event type, callback, capture flag. *)
Record DocumentListener := {
  dl_document : Document;
  dl_type : string;
  dl_callback : Fn;
  dl_capture : bool;
}.

#[global] Instance DocumentListener_eq_dec : EqDecision DocumentListener.
Proof. solve_decision. Defined.

(** The page at the time of a call: what the driver reads from the DOM and
    from [DomState.js] and [LoggingConfig.js]. *)
Record Env := {
  document : Document;                        (* the global [document] *)
  hidden : bool;                              (* document.hidden *)
  body : Document → Node;
  readyState : Document → ReadyState;
  getDomState : list Document → DomState;
  visibleOverlap : Node → DOMRect → option DOMRect;
  innerWidth : Node → option Z;               (* ownerDocument.defaultView?.innerWidth *)
  innerHeight : Node → option Z;
  tagName : Node → string;
  getLoggingConfig : Node → LoggingConfig;
}.

(** *** State *)

(** The variables of the module. *)
Record Vars := {
  processingThrottler : ThrottlerHandle;
  keyboardLogThrottler : ThrottlerHandle;
  hoverLogThrottler : ThrottlerHandle;
  dragLogThrottler : ThrottlerHandle;
  clickLogThrottler : ThrottlerHandle;
  resizeLogThrottler : ThrottlerHandle;
  mutationObservers : gmap Node nat;          (* WeakMap<Node, MutationObserver> *)
  documents : list Document;
  logging : bool;
  dragStartX : Z;
  dragStartY : Z;
}.

(** The objects the module creates and the registrations it makes; an
    object is known by its position in its list. [scheduleCalls] records
    every call of a throttler's [schedule]. *)
Record Browser := {
  throttlers : list Throttler;
  scheduleCalls : list (ThrottlerHandle * Task);
  observers : list MutationObserver;
  documentListeners : list DocumentListener;
  attachments : list (Node * Attachment);
}.

(** The state of [LoggingState.js] and [NonDomState.js], and what was
    reported: the arguments of the calls of [logImpressions], the drags
    logged, the number of runs of [process] and of calls of
    [visualLoggingProcessingDone]. *)
Record Logs := {
  loggingStates : gmap Loggable LoggingState;
  registry : list Registration;
  impressions : list (list Loggable);
  drags : list Event;
  processRuns : nat;
  processingDone : nat;
}.

Record State := {
  vars : Vars;
  browser : Browser;
  logs : Logs;
}.

Definition initialVars : Vars :=
  {| processingThrottler := noOpThrottler;
     keyboardLogThrottler := noOpThrottler;
     hoverLogThrottler := noOpThrottler;
     dragLogThrottler := noOpThrottler;
     clickLogThrottler := noOpThrottler;
     resizeLogThrottler := noOpThrottler;
     mutationObservers := ∅;
     documents := [];
     logging := false;
     dragStartX := 0;
     dragStartY := 0 |}.

(** The module as loaded, on a page where nothing was registered yet. *)
Definition initial : State :=
  {| vars := initialVars;
     browser := {| throttlers := []; scheduleCalls := []; observers := [];
                   documentListeners := []; attachments := [] |};
     logs := {| loggingStates := ∅; registry := []; impressions := [];
                drags := []; processRuns := 0; processingDone := 0 |} |}.

(** *** Updates of the state *)

Definition upd_vars (f : Vars → Vars) (s : State) : State :=
  {| vars := f (vars s); browser := browser s; logs := logs s |}.

Definition upd_browser (f : Browser → Browser) (s : State) : State :=
  {| vars := vars s; browser := f (browser s); logs := logs s |}.

Definition upd_logs (f : Logs → Logs) (s : State) : State :=
  {| vars := vars s; browser := browser s; logs := f (logs s) |}.

Definition set_throttlerVars (p k h d c r : ThrottlerHandle) (v : Vars) : Vars :=
  {| processingThrottler := p; keyboardLogThrottler := k; hoverLogThrottler := h;
     dragLogThrottler := d; clickLogThrottler := c; resizeLogThrottler := r;
     mutationObservers := mutationObservers v; documents := documents v;
     logging := logging v; dragStartX := dragStartX v; dragStartY := dragStartY v |}.

Definition set_processingThrottler (p : ThrottlerHandle) (v : Vars) : Vars :=
  set_throttlerVars p (keyboardLogThrottler v) (hoverLogThrottler v)
    (dragLogThrottler v) (clickLogThrottler v) (resizeLogThrottler v) v.

Definition set_mutationObservers (m : gmap Node nat) (v : Vars) : Vars :=
  {| processingThrottler := processingThrottler v;
     keyboardLogThrottler := keyboardLogThrottler v;
     hoverLogThrottler := hoverLogThrottler v;
     dragLogThrottler := dragLogThrottler v;
     clickLogThrottler := clickLogThrottler v;
     resizeLogThrottler := resizeLogThrottler v;
     mutationObservers := m; documents := documents v;
     logging := logging v; dragStartX := dragStartX v; dragStartY := dragStartY v |}.

Definition set_documents (ds : list Document) (v : Vars) : Vars :=
  {| processingThrottler := processingThrottler v;
     keyboardLogThrottler := keyboardLogThrottler v;
     hoverLogThrottler := hoverLogThrottler v;
     dragLogThrottler := dragLogThrottler v;
     clickLogThrottler := clickLogThrottler v;
     resizeLogThrottler := resizeLogThrottler v;
     mutationObservers := mutationObservers v; documents := ds;
     logging := logging v; dragStartX := dragStartX v; dragStartY := dragStartY v |}.

Definition set_logging (b : bool) (v : Vars) : Vars :=
  {| processingThrottler := processingThrottler v;
     keyboardLogThrottler := keyboardLogThrottler v;
     hoverLogThrottler := hoverLogThrottler v;
     dragLogThrottler := dragLogThrottler v;
     clickLogThrottler := clickLogThrottler v;
     resizeLogThrottler := resizeLogThrottler v;
     mutationObservers := mutationObservers v; documents := documents v;
     logging := b; dragStartX := dragStartX v; dragStartY := dragStartY v |}.

Definition set_dragStart (x y : Z) (v : Vars) : Vars :=
  {| processingThrottler := processingThrottler v;
     keyboardLogThrottler := keyboardLogThrottler v;
     hoverLogThrottler := hoverLogThrottler v;
     dragLogThrottler := dragLogThrottler v;
     clickLogThrottler := clickLogThrottler v;
     resizeLogThrottler := resizeLogThrottler v;
     mutationObservers := mutationObservers v; documents := documents v;
     logging := logging v; dragStartX := x; dragStartY := y |}.

Definition set_throttlers (ts : list Throttler) (b : Browser) : Browser :=
  {| throttlers := ts; scheduleCalls := scheduleCalls b; observers := observers b;
     documentListeners := documentListeners b; attachments := attachments b |}.

Definition set_scheduleCalls (cs : list (ThrottlerHandle * Task)) (b : Browser) : Browser :=
  {| throttlers := throttlers b; scheduleCalls := cs; observers := observers b;
     documentListeners := documentListeners b; attachments := attachments b |}.

Definition set_observers (os : list MutationObserver) (b : Browser) : Browser :=
  {| throttlers := throttlers b; scheduleCalls := scheduleCalls b; observers := os;
     documentListeners := documentListeners b; attachments := attachments b |}.

Definition set_documentListeners (ls : list DocumentListener) (b : Browser) : Browser :=
  {| throttlers := throttlers b; scheduleCalls := scheduleCalls b;
     observers := observers b; documentListeners := ls; attachments := attachments b |}.

Definition set_attachments (xs : list (Node * Attachment)) (b : Browser) : Browser :=
  {| throttlers := throttlers b; scheduleCalls := scheduleCalls b;
     observers := observers b; documentListeners := documentListeners b;
     attachments := xs |}.

Definition set_loggingStates (m : gmap Loggable LoggingState) (l : Logs) : Logs :=
  {| loggingStates := m; registry := registry l; impressions := impressions l;
     drags := drags l; processRuns := processRuns l; processingDone := processingDone l |}.

Definition set_registry (r : list Registration) (l : Logs) : Logs :=
  {| loggingStates := loggingStates l; registry := r; impressions := impressions l;
     drags := drags l; processRuns := processRuns l; processingDone := processingDone l |}.

Definition set_impressions (i : list (list Loggable)) (l : Logs) : Logs :=
  {| loggingStates := loggingStates l; registry := registry l; impressions := i;
     drags := drags l; processRuns := processRuns l; processingDone := processingDone l |}.

Definition set_drags (d : list Event) (l : Logs) : Logs :=
  {| loggingStates := loggingStates l; registry := registry l;
     impressions := impressions l; drags := d; processRuns := processRuns l;
     processingDone := processingDone l |}.

Definition set_processRuns (n : nat) (l : Logs) : Logs :=
  {| loggingStates := loggingStates l; registry := registry l;
     impressions := impressions l; drags := drags l; processRuns := n;
     processingDone := processingDone l |}.

Definition set_processingDone (n : nat) (l : Logs) : Logs :=
  {| loggingStates := loggingStates l; registry := registry l;
     impressions := impressions l; drags := drags l; processRuns := processRuns l;
     processingDone := n |}.

(** *** Throttlers *)

(** [noOpThrottler.schedule] is [async () => {}]: nothing is kept. On a
    throttler object the work replaces what was pending. *)
Definition schedule (t : ThrottlerHandle) (task : Task) (s : State) : State :=
  let s := upd_browser (λ b, set_scheduleCalls (scheduleCalls b ++ [(t, task)]) b) s in
  match t with
  | noOpThrottler => s
  | ThrottlerObject r =>
      upd_browser (λ b,
        set_throttlers
          (alter (λ th, {| interval := interval th; pending := Some task |}) r
             (throttlers b)) b) s
  end.

(** [new Common.Throttler.Throttler(interval)] *)
Definition newThrottler (i : Z) (s : State) : ThrottlerHandle * State :=
  (ThrottlerObject (length (throttlers (browser s))),
   upd_browser (λ b,
     set_throttlers (throttlers b ++ [{| interval := i; pending := None |}]) b) s).

(** [given || new Common.Throttler.Throttler(interval)] *)
Definition orNewThrottler (given : option ThrottlerHandle) (i : Z) (s : State)
  : ThrottlerHandle * State :=
  match given with
  | Some t => (t, s)
  | None => newThrottler i s
  end.

(** *** Mutation observers *)

Definition observeOptions : ObserveOptions :=
  {| attributes := true; childList := true; subtree := true |}.

(** The body of the loop of [observeMutations]. *)
Definition observeRoot (s : State) (root : Node) : State :=
  match mutationObservers (vars s) !! root with
  | Some _ => s
  | None =>
      let observer := length (observers (browser s)) in
      let s := upd_browser (λ b,
                 set_observers
                   (observers b ++
                    [{| callback := fn_scheduleProcessing;
                        targets := [(root, observeOptions)] |}]) b) s in
      upd_vars (λ v, set_mutationObservers (<[root := observer]> (mutationObservers v)) v) s
  end.

Definition observeMutations (roots : list Node) (s : State) : State :=
  foldl observeRoot s roots.

(** [mutationObservers.get(node)?.disconnect(); mutationObservers.delete(node)] *)
Definition disconnectAndDelete (s : State) (node : Node) : State :=
  let s :=
    match mutationObservers (vars s) !! node with
    | Some o =>
        upd_browser (λ b,
          set_observers
            (alter (λ ob, {| callback := callback ob; targets := [] |}) o (observers b)) b) s
    | None => s
    end in
  upd_vars (λ v, set_mutationObservers (delete node (mutationObservers v)) v) s.

Definition isLogging (s : State) : bool := logging (vars s).

Definition scheduleProcessing (s : State) : State :=
  (* [if (!processingThrottler) return;]: the variable always holds an object *)
  schedule (processingThrottler (vars s)) ProcessForLogging s.

(** *** Document listeners *)

(** [addEventListener]: a listener that is already there is not added again. *)
Definition addDocumentListener (l : DocumentListener) (s : State) : State :=
  if bool_decide (l ∈ documentListeners (browser s)) then s
  else upd_browser (λ b, set_documentListeners (documentListeners b ++ [l]) b) s.

Definition removeDocumentListener (l : DocumentListener) (s : State) : State :=
  upd_browser (λ b,
    set_documentListeners (filter (λ l', l' ≠ l) (documentListeners b)) b) s.

Definition listener (d : Document) (type : string) (f : Fn) (capture : bool)
  : DocumentListener :=
  {| dl_document := d; dl_type := type; dl_callback := f; dl_capture := capture |}.

(** *** [LoggingState.js] and [NonDomState.js] *)

(** Modelled from the spec: [getLoggingState] is defined in
    [LoggingState.js], another file of the repository; it gives the state
    kept for a loggable, if there is one. *)
Definition getLoggingState (l : Loggable) (s : State) : option LoggingState :=
  loggingStates (logs s) !! l.

Definition setLoggingState (l : Loggable) (st : LoggingState) (s : State) : State :=
  upd_logs (λ lg, set_loggingStates (<[l := st]> (loggingStates lg)) lg) s.

(** Modelled from the spec: [getOrCreateLoggingState] is defined in
    [LoggingState.js], another file of the repository. The state of a
    loggable is created the first time it is asked for, with no impression
    logged and nothing processed, and is the same object from then on. *)
Definition getOrCreateLoggingState (l : Loggable) (c : LoggingConfig)
    (p : option Loggable) (s : State) : LoggingState * State :=
  match getLoggingState l s with
  | Some st => (st, s)
  | None =>
      let st := {| impressionLogged := false; processed := false; config := c;
                   parent := p; size := None; selectOpen := false |} in
      (st, setLoggingState l st s)
  end.

(** Modelled from the spec: [unregisterLoggable] and [unregisterAllLoggables]
    are defined in [NonDomState.js], another file of the repository; they
    take a loggable, or all of them, out of the registry that
    [getNonDomState] lists. *)
Definition unregisterLoggable (l : Loggable) (s : State) : State :=
  upd_logs (λ lg, set_registry (filter (λ r, reg_loggable r ≠ l) (registry lg)) lg) s.

Definition unregisterAllLoggables (s : State) : State :=
  upd_logs (set_registry []) s.

Definition getNonDomState (s : State) : list Registration := registry (logs s).

(** [loggingState.parent?.field] *)
Definition parentFlag (field : LoggingState → bool) (st : LoggingState) (s : State) : bool :=
  match parent st with
  | Some p =>
      match getLoggingState p s with
      | Some pst => field pst
      | None => false
      end
  | None => false
  end.

(** *** [process] *)

Definition viewportRectFor (env : Env) (element : Node) : DOMRect :=
  {| rect_x := 0; rect_y := 0;
     rect_width := default 0%Z (innerWidth env element);
     rect_height := default 0%Z (innerHeight env element) |}.

Definition with_impression (sz : option DOMRect) (st : LoggingState) : LoggingState :=
  {| impressionLogged := true; processed := processed st; config := config st;
     parent := parent st;
     size := match sz with Some r => Some r | None => size st end;
     selectOpen := selectOpen st |}.

Definition with_processed (st : LoggingState) : LoggingState :=
  {| impressionLogged := impressionLogged st; processed := true; config := config st;
     parent := parent st; size := size st; selectOpen := selectOpen st |}.

Definition with_selectOpen (st : LoggingState) : LoggingState :=
  {| impressionLogged := impressionLogged st; processed := processed st;
     config := config st; parent := parent st; size := size st; selectOpen := true |}.

(** What the [if (!loggingState.processed)] block attaches to an element. *)
Definition elementAttachments (tag : string) (c : LoggingConfig) : list Attachment :=
  (if tracks click c
   then [EventListener "click" (ClickLikeHandler false);
         EventListener "contextmenu" (ClickLikeHandler false)] else []) ++
  (if tracks dblclick c then [EventListener "dblclick" (ClickLikeHandler true)] else []) ++
  (if tracks hover c
   then [EventListener "mouseover" LogHoverHandler;
         EventListener "mouseout" HoverOutHandler] else []) ++
  (if tracks drag c then [EventListener "pointerdown" DragStartHandler] else []) ++
  (if tracks change c then [EventListener "change" LogChangeHandler] else []) ++
  (if tracks keydown c then [EventListener "keydown" LogKeyDownHandler] else []) ++
  (if tracks resize c then [ResizeObserverOn; IntersectionObserverOn] else []) ++
  (if bool_decide (tag = "SELECT")
   then [EventListener "click" SelectOpenHandler;
         EventListener "keydown" SelectKeyDownHandler;
         EventListener "keypress" SelectKeyPressHandler;
         EventListener "change" SelectChangeHandler] else []).

Definition attachHandlers (env : Env) (element : Node) (c : LoggingConfig) (s : State)
  : State :=
  let s := upd_browser (λ b,
             set_attachments
               (attachments b ++
                ((λ a, (element, a)) <$> elementAttachments (tagName env element) c)) b) s in
  if tracks drag c then
    addDocumentListener (listener (document env) "dragend" fn_maybeCancelDrag true)
      (addDocumentListener (listener (document env) "pointerup" fn_maybeCancelDrag true) s)
  else s.

(** One turn of [for (const {element, parent} of loggables)]; the second
    component is [visibleLoggables]. *)
Definition processElement (env : Env) (acc : State * list Loggable)
    (item : Node * option Node) : State * list Loggable :=
  let '(s, visibleLoggables) := acc in
  let '(element, parentElement) := item in
  let '(loggingState, s) :=
    getOrCreateLoggingState (DomElement element) (getLoggingConfig env element)
      (DomElement <$> parentElement) s in
  let '(loggingState, visibleLoggables) :=
    if negb (impressionLogged loggingState) then
      let overlap := visibleOverlap env element (viewportRectFor env element) in
      let visibleSelectOption :=
        bool_decide (tagName env element = "OPTION") &&
        parentFlag selectOpen loggingState s in
      if bool_decide (is_Some overlap) || visibleSelectOption then
        (with_impression overlap loggingState, visibleLoggables ++ [DomElement element])
      else (loggingState, visibleLoggables)
    else (loggingState, visibleLoggables) in
  let s := setLoggingState (DomElement element) loggingState s in
  let s :=
    if negb (processed loggingState) then
      setLoggingState (DomElement element) (with_processed loggingState)
        (attachHandlers env element (config loggingState) s)
    else s in
  (* processForDebugging(element): the debugging overlay keeps no state here *)
  (s, visibleLoggables).

(** One turn of [for (const {loggable, config, parent} of getNonDomState().loggables)]. *)
Definition processNonDom (acc : State * list Loggable) (r : Registration)
  : State * list Loggable :=
  let '(s, visibleLoggables) := acc in
  let '(loggingState, s) :=
    getOrCreateLoggingState (reg_loggable r) (reg_config r) (reg_parent r) s in
  let visible :=
    negb (bool_decide (is_Some (reg_parent r))) ||
    parentFlag impressionLogged loggingState s in
  if negb visible then (s, visibleLoggables)
  else
    let s := setLoggingState (reg_loggable r) (with_impression None loggingState) s in
    (unregisterLoggable (reg_loggable r) s, visibleLoggables ++ [reg_loggable r]).

(** [logImpressions(visibleLoggables)] *)
Definition logImpressions (ls : list Loggable) (s : State) : State :=
  upd_logs (λ lg, set_impressions (impressions lg ++ [ls]) lg) s.

Definition process (env : Env) (s : State) : State :=
  let s := upd_logs (λ lg, set_processRuns (S (processRuns lg)) lg) s in
  if hidden env then s
  else
    let dom := getDomState env (documents (vars s)) in
    let s := observeMutations (shadowRoots dom) s in
    let '(s, visibleLoggables) := foldl (processElement env) (s, []) (loggables dom) in
    let '(s, visibleLoggables) := foldl processNonDom (s, visibleLoggables) (getNonDomState s) in
    let s := logImpressions visibleLoggables s in
    upd_logs (λ lg, set_processingDone (S (processingDone lg)) lg) s.

(** [onSelectOpen] of the element [element]. *)
Definition onSelectOpen (element : Node) (s : State) : State :=
  match getLoggingState (DomElement element) s with
  | Some st =>
      if selectOpen st then s
      else scheduleProcessing (setLoggingState (DomElement element) (with_selectOpen st) s)
  | None => s
  end.

(** *** Starting and stopping *)

Record Options := {
  opt_processingThrottler : option ThrottlerHandle;
  opt_keyboardLogThrottler : option ThrottlerHandle;
  opt_hoverLogThrottler : option ThrottlerHandle;
  opt_dragLogThrottler : option ThrottlerHandle;
  opt_clickLogThrottler : option ThrottlerHandle;
  opt_resizeLogThrottler : option ThrottlerHandle;
}.

Definition addDocument (env : Env) (d : Document) (s : State) : State :=
  let s := upd_vars (λ v, set_documents (documents v ++ [d]) v) s in
  let s :=
    match readyState env d with
    | interactive | complete => process env s
    | loading => s
    end in
  let s := addDocumentListener (listener d "visibilitychange" fn_scheduleProcessing false) s in
  let s := addDocumentListener (listener d "scroll" fn_scheduleProcessing false) s in
  observeMutations [body env d] s.

Definition startLogging (options : option Options) (env : Env) (s : State) : State :=
  let s := upd_vars (set_logging true) s in
  let '(p, s) := orNewThrottler (options ≫= opt_processingThrottler) PROCESS_DOM_INTERVAL s in
  let s := upd_vars (set_processingThrottler p) s in
  let '(k, s) := orNewThrottler (options ≫= opt_keyboardLogThrottler) KEYBOARD_LOG_INTERVAL s in
  let '(h, s) := orNewThrottler (options ≫= opt_hoverLogThrottler) HOVER_LOG_INTERVAL s in
  let '(d, s) := orNewThrottler (options ≫= opt_dragLogThrottler) DRAG_LOG_INTERVAL s in
  let '(c, s) := orNewThrottler (options ≫= opt_clickLogThrottler) CLICK_LOG_INTERVAL s in
  let '(r, s) := orNewThrottler (options ≫= opt_resizeLogThrottler) RESIZE_LOG_INTERVAL s in
  let s := upd_vars (set_throttlerVars p k h d c r) s in
  (* processStartLoggingForDebugging() *)
  addDocument env (document env) s.

(** The body of [for (const document of documents)] in [stopLogging]. *)
Definition forgetDocument (env : Env) (s : State) (d : Document) : State :=
  let s := removeDocumentListener (listener d "visibilitychange" fn_scheduleProcessing false) s in
  let s := removeDocumentListener (listener d "scroll" fn_scheduleProcessing false) s in
  disconnectAndDelete s (body env d).

Definition stopLogging (env : Env) (s : State) : State :=
  let s := upd_vars (set_logging false) s in
  let s := unregisterAllLoggables s in
  let s := foldl (forgetDocument env) s (documents (vars s)) in
  let dom := getDomState env (documents (vars s)) in
  let s := foldl disconnectAndDelete s (shadowRoots dom) in
  let s := upd_vars (set_documents []) s in
  upd_vars (set_processingThrottler noOpThrottler) s.

(** *** Dragging *)

Definition cancelLogging (s : State) : State := s.

(** Modelled from the spec: [logDrag] is defined in [LoggingEvents.js],
    another file of the repository; the log of the drag is scheduled on the
    throttler it is given. *)
Definition logDrag (t : ThrottlerHandle) (event : Event) (s : State) : State :=
  schedule t (DragLog event) s.

Definition onDragStart (event : Event) (s : State) : State :=
  match event with
  | MouseEvent screenX screenY =>
      let s := upd_vars (set_dragStart screenX screenY) s in
      logDrag (dragLogThrottler (vars s)) event s
  | OtherEvent => s
  end.

Definition maybeCancelDrag (event : Event) (s : State) : State :=
  match event with
  | MouseEvent screenX screenY =>
      if bool_decide (DRAG_REPORT_THRESHOLD ≤ Z.abs (screenX - dragStartX (vars s)))%Z
         || bool_decide (DRAG_REPORT_THRESHOLD ≤ Z.abs (screenY - dragStartY (vars s)))%Z
      then s
      else schedule (dragLogThrottler (vars s)) CancelLogging s
  | OtherEvent => s
  end.

(** *** What the page does with the callbacks *)

(** Calling one of the functions of the file. *)
Definition call (env : Env) (f : Fn) (event : Event) (s : State) : State :=
  match f with
  | fn_scheduleProcessing => scheduleProcessing s
  | fn_process => process env s
  | fn_cancelLogging => cancelLogging s
  | fn_onDragStart => onDragStart event s
  | fn_maybeCancelDrag => maybeCancelDrag event s
  end.

(** Running the work a throttler kept. *)
Definition runTask (env : Env) (task : Task) (s : State) : State :=
  match task with
  | ProcessForLogging => process env s
  | CancelLogging => cancelLogging s
  | DragLog e => upd_logs (λ lg, set_drags (drags lg ++ [e]) lg) s
  end.

(** A throttler fires: what is pending is taken out and run. *)
Definition fire (env : Env) (r : nat) (s : State) : State :=
  match throttlers (browser s) !! r with
  | Some th =>
      match pending th with
      | Some task =>
          runTask env task
            (upd_browser (λ b,
               set_throttlers
                 (<[r := {| interval := interval th; pending := None |}]> (throttlers b)) b) s)
      | None => s
      end
  | None => s
  end.

(** The page reports mutations under [root]: every observer of [root] has
    its callback called. *)
Definition notifyObserver (env : Env) (root : Node) (s : State) (o : MutationObserver)
  : State :=
  if bool_decide (root ∈ (targets o).*1) then call env (callback o) OtherEvent s else s.

Definition mutation (env : Env) (root : Node) (s : State) : State :=
  foldl (notifyObserver env root) s (observers (browser s)).

(** What happens to the module: the page calls back, or one of the
    exported functions is called. *)
Inductive Action :=
| Mutation (root : Node)
| ThrottlerFires (r : nat)
| PointerDown (e : Event)                (* on an element that tracks drags *)
| PointerUpOrDragEnd (e : Event)
| SelectOpened (element : Node)
| StartLogging (options : option Options)
| AddDocument (d : Document)
| StopLogging
| ScheduleProcessing.

Definition step (s : State) (a : Env * Action) : State :=
  match a with
  | (env, Mutation root) => mutation env root s
  | (env, ThrottlerFires r) => fire env r s
  | (env, PointerDown e) => call env fn_onDragStart e s
  | (env, PointerUpOrDragEnd e) => call env fn_maybeCancelDrag e s
  | (env, SelectOpened element) => onSelectOpen element s
  | (env, StartLogging options) => startLogging options env s
  | (env, AddDocument d) => addDocument env d s
  | (env, StopLogging) => stopLogging env s
  | (env, ScheduleProcessing) => scheduleProcessing s
  end.

Definition run (s : State) (trace : list (Env * Action)) : State := foldl step s trace.

Definition isStartLogging (a : Env * Action) : bool :=
  match a with
  | (_, StartLogging _) => true
  | _ => false
  end.

End LoggingDriver.

(** ** Notions used in the statements about the driver *)
Module DriverNotions.
Import LoggingDriver.

(** Two values of the module's variables that differ at most in the map of
    mutation observers. *)
Definition sameButObservers (v v' : Vars) : Prop :=
  v' = set_mutationObservers (mutationObservers v') v.

(** Steps that leave the variables alone, the map of observers apart. *)
Definition keepsVars (s s' : State) : Prop := sameButObservers (vars s) (vars s').

(** Steps that leave the variables, the throttlers, the record of their
    calls, the observers and the count of runs of [process] as they are. *)
Definition quiet (s s' : State) : Prop :=
  vars s' = vars s ∧
  throttlers (browser s') = throttlers (browser s) ∧
  scheduleCalls (browser s') = scheduleCalls (browser s) ∧
  observers (browser s') = observers (browser s) ∧
  processRuns (logs s') = processRuns (logs s).

(** Every mutation observer there is calls [scheduleProcessing]. *)
Definition observersSchedule (s : State) : Prop :=
  Forall (λ o, callback o = fn_scheduleProcessing) (observers (browser s)).

(** The observers of a node: those that have it among their targets. *)
Definition observersOf (node : Node) (s : State) : list MutationObserver :=
  filter (λ o, node ∈ (targets o).*1) (observers (browser s)).

(** The observer that [observeMutations] creates for a root. *)
Definition newObserver (root : Node) : MutationObserver :=
  {| callback := fn_scheduleProcessing; targets := [(root, observeOptions)] |}.

(** Every observer there is was created by [observeMutations] for one
    root and is the one the map has for that root. *)
Definition observersRegistered (s : State) : Prop :=
  ∀ i o, observers (browser s) !! i = Some o →
    ∃ root, o = newObserver root ∧ mutationObservers (vars s) !! root = Some i.

(** The nodes that have an entry in the map of observers. *)
Definition observedNodes (s : State) : list Node :=
  (map_to_list (mutationObservers (vars s))).*1.

(** The work pending on the throttler a handle stands for. *)
Definition pendingOn (t : ThrottlerHandle) (s : State) : option Task :=
  match t with
  | noOpThrottler => None
  | ThrottlerObject r => throttlers (browser s) !! r ≫= pending
  end.

(** Every loggable handed to [logImpressions] so far, in order. *)
Definition logged (s : State) : list Loggable := concat (impressions (logs s)).

Definition flagged (l : Loggable) (s : State) : bool :=
  match getLoggingState l s with
  | Some st => impressionLogged st
  | None => false
  end.

Definition registered (s : State) : list Loggable := reg_loggable <$> registry (logs s).



(** Runs of [process], one per state of the page. *)
Definition processes (envs : list Env) (s : State) : State :=
  foldl (λ s env, process env s) s envs.

(** The state in which [getNonDomState] lists one more loggable: other
    code has registered it with [NonDomState] in the meantime. *)
Definition alsoRegistered (r : Registration) (s : State) : State :=
  upd_logs (λ lg, set_registry (registry lg ++ [r]) lg) s.

(** A registration that leaves the registry as [wellFormed] wants it: of
    an object that is not an element of the page, is not registered at
    the moment, and has not had its impression logged. *)
Definition admissible (r : Registration) (s : State) : Prop :=
  isDomElement (reg_loggable r) = false ∧
  (reg_loggable r ∉ registered s) ∧
  (reg_loggable r ∉ logged s).

(** What happens between the start and the end of a history: [process]
    runs, or other code registers a loggable. *)
Inductive Turn :=
| Runs (env : Env)
| Registers (r : Registration).

Definition turn (s : State) (t : Turn) : State :=
  match t with
  | Runs env => process env s
  | Registers r => alsoRegistered r s
  end.

Definition turns (ts : list Turn) (s : State) : State := foldl turn s ts.

(** Every registration of the history is admissible when it is made. *)
Fixpoint admissibleTurns (ts : list Turn) (s : State) : Prop :=
  match ts with
  | [] => True
  | t :: ts =>
      match t with
      | Runs _ => True
      | Registers r => admissible r s
      end ∧ admissibleTurns ts (turn s t)
  end.

(** An observer that still observes a node is the one the map of observers
    has for that node. *)
Definition connectedRegistered (s : State) : Prop :=
  ∀ i o node, observers (browser s) !! i = Some o → node ∈ (targets o).*1 →
    mutationObservers (vars s) !! node = Some i.

(** What the last call of [logImpressions] was given. *)
Definition lastBatch (s : State) : list Loggable :=
  default [] (last (impressions (logs s))).

(** The elements that [getDomState] lists for the documents of the module. *)
Definition listed (env : Env) (s : State) : list Node :=
  (loggables (getDomState env (documents (vars s)))).*1.

(** What is attached to an element: listeners and observers, in the order
    they were attached. *)
Definition attachedTo (element : Node) (s : State) : list Attachment :=
  (filter (λ a, a.1 = element) (attachments (browser s))).*2.

Definition isProcessed (l : Loggable) (s : State) : bool :=
  match getLoggingState l s with
  | Some st => processed st
  | None => false
  end.

Definition isOpen (l : Loggable) (s : State) : bool :=
  match getLoggingState l s with
  | Some st => selectOpen st
  | None => false
  end.

(** The config that the state of an element has, or gets when the state is
    created: the one [getLoggingConfig] gives at that time. *)
Definition configFor (env : Env) (element : Node) (s : State) : LoggingConfig :=
  match getLoggingState (DomElement element) s with
  | Some st => config st
  | None => getLoggingConfig env element
  end.

(** The listeners that [addDocument] adds for a document and that
    [stopLogging] removes. *)
Definition processingListeners (d : Document) : list DocumentListener :=
  [ listener d "visibilitychange" fn_scheduleProcessing false;
    listener d "scroll" fn_scheduleProcessing false ].

(** A throttler variable after [startLogging]: the throttler of the options
    when there is one, or else a throttler object that did not exist
    before, with the given interval and nothing pending. *)
Definition startedWith (given : option ThrottlerHandle) (i : Z) (t : ThrottlerHandle)
    (s s' : State) : Prop :=
  match given with
  | Some g => t = g
  | None =>
      ∃ r, t = ThrottlerObject r ∧
           (length (throttlers (browser s)) ≤ r)%nat ∧
           throttlers (browser s') !! r = Some {| interval := i; pending := None |}
  end.

(** The number of throttlers that the options leave out, of six. *)
Definition absent (given : option ThrottlerHandle) : nat :=
  match given with
  | Some _ => 0
  | None => 1
  end.

Definition absentOptions (options : option Options) : nat :=
  absent (options ≫= opt_processingThrottler) + absent (options ≫= opt_keyboardLogThrottler) +
  absent (options ≫= opt_hoverLogThrottler) + absent (options ≫= opt_dragLogThrottler) +
  absent (options ≫= opt_clickLogThrottler) + absent (options ≫= opt_resizeLogThrottler).

(** Steps that only add document listeners, and add none twice. *)
Definition listenersGrow (s s' : State) : Prop :=
  documentListeners (browser s) `prefix_of` documentListeners (browser s') ∧
  (NoDup (documentListeners (browser s)) → NoDup (documentListeners (browser s'))).

(** The state that [getOrCreateLoggingState] creates. *)
Definition createdState (c : LoggingConfig) (p : option Loggable) : LoggingState :=
  {| impressionLogged := false; processed := false; config := c; parent := p;
     size := None; selectOpen := false |}.

(** The state a loggable has, or the one it is given when it has none. *)
Definition stateOr (c : LoggingConfig) (p : option Loggable) (l : Loggable) (s : State)
  : LoggingState :=
  default (createdState c p) (getLoggingState l s).

(** The impression of a loggable was logged, with the given size. *)
Definition impressionWith (rect : DOMRect) (l : Loggable) (s : State) : Prop :=
  ∃ st, getLoggingState l s = Some st ∧ impressionLogged st = true ∧ size st = Some rect.

(** An entry of the map of observers names an observer that observes the
    node of the entry, and that node only. *)
Definition entriesConnected (s : State) : Prop :=
  ∀ root i, mutationObservers (vars s) !! root = Some i →
    ∃ o, observers (browser s) !! i = Some o ∧ targets o = [(root, observeOptions)].

End DriverNotions.
(** ** The issues pane: [IssuesPaneImpl] and [issueDetails] *)
Module IssuesPane.

(** [Priority = {High: Symbol('PriorityHigh')}] *)
Inductive Priority := High.

Record IssueDetails := {
  title : string;
  message : string;
  priority : Priority;
  link : string;
  linkTitle : string;
}.

Definition thirdPartyMessage : string :=
  "In a future version of chrome, third party cookies will only be sent when marked as SameSite=None and Secure to prevent them from being accessed in a man in the middle szenario.".

(** The table [issueDetails], an object literal: its own keys and their
    values, in the order of the source. *)
Definition issueDetails : list (string * IssueDetails) :=
  [ ("SameSiteCookies::SameSiteNoneWithoutSecure",
     {| title := "A Cookie has been set with SameSite=None but without Secure";
        message := "In a future version of chrome, third party cookies will only be sent when marked as SameSite=None and Secure to prevent them from being accessed in a man in the middle scenario.";
        priority := High;
        link := "https://web.dev/samesite-cookies-explained/";
        linkTitle := "SameSite cookies explained" |});
    ("SameSiteCookies::SameSiteNoneMissingForThirdParty",
     {| title := "A Cookie in a third party context has been set without SameSite=None";
        message := thirdPartyMessage;
        priority := High;
        link := "https://web.dev/samesite-cookies-explained/";
        linkTitle := "SameSite cookies explained" |});
    ("SameSiteCookieIssue",
     {| title := "A Cookie in a third party context has been set without SameSite=None";
        message := thirdPartyMessage;
        priority := High;
        link := "https://web.dev/samesite-cookies-explained/";
        linkTitle := "SameSite cookies explained" |}) ].

(** An object literal has [Object.prototype] for prototype: these are the
    property names it inherits. *)
Definition ObjectPrototypeNames : list string :=
  [ "constructor"; "hasOwnProperty"; "isPrototypeOf"; "propertyIsEnumerable";
    "toLocaleString"; "toString"; "valueOf"; "__proto__";
    "__defineGetter__"; "__defineSetter__"; "__lookupGetter__"; "__lookupSetter__" ].

(** What a property lookup on [issueDetails] finds: one of its own
    entries, or a member of the prototype. *)
Inductive Property :=
| OwnDetails (d : IssueDetails)
| PrototypeMember (name : string).

(** [issueDetails[code]]; [None] is [undefined]. *)
Definition lookupIssueDetails (code : string) : option Property :=
  match JSMap.get code issueDetails with
  | Some d => Some (OwnDetails d)
  | None =>
      if bool_decide (code ∈ ObjectPrototypeNames) then Some (PrototypeMember code)
      else None
  end.

(** [code in issueDetails]: the operator [in] looks at the object and at
    its prototype chain. *)
Definition inIssueDetails (code : string) : bool :=
  bool_decide (is_Some (lookupIssueDetails code)).

(** [Object.keys(issueDetails)] has [code]. *)
Definition isKeyOfIssueDetails (code : string) : bool :=
  bool_decide (code ∈ JSMap.keys issueDetails).

(** [details.field], [undefined] on a member of the prototype. *)
Definition detail {A} (field : IssueDetails → A) (p : Property) : option A :=
  match p with
  | OwnDetails d => Some (field d)
  | PrototypeMember _ => None
  end.

(** *** The rows of [AffectedCookiesView] *)

(** Text as JavaScript has it: a sequence of UTF-16 code units. *)
Definition Text := list N.

Definition FULL_STOP : N := 46.              (* '.' *)
Definition PUNCTUATION_SPACE : N := 8200.    (* '\u2008' *)

(** The fields of a cookie that a row shows. *)
Record AffectedCookie := {
  cookieName : Text;
  cookiePath : Text;
  cookieDomain : Text;
  cookieSiteForCookies : Text;
}.

(** The text of the second cell of the row that [appendAffectedCookie]
    makes: [(cookie.domain[0] !== '.' ? '\u2008' : '') + cookie.domain +
    cookie.path]. *)
Definition cookieInfo (cookie : AffectedCookie) : Text :=
  (if bool_decide (cookieDomain cookie !! 0 ≠ Some FULL_STOP)
   then [PUNCTUATION_SPACE] else []) ++
  cookieDomain cookie ++ cookiePath cookie.

(** A domain without the full stop it may start with. *)
Definition hostOf (domain : Text) : Text :=
  match domain with
  | c :: rest => if bool_decide (c = FULL_STOP) then rest else domain
  | [] => []
  end.

Inductive ConsoleMessage :=
| UnknownIssueCode (code : string)
| UnknownIssuePriority.

Section IssuesPane.
Context `{CookieHost}.

(** The SDK objects the pane reads: the aggregated issues, known by
    number, and what the issues model reports. *)
Record Sdk := {
  aggregatedIssue : nat → AggregatedIssue.t;
  numberOfAggregatedIssues : nat;
  aggregatedIssues : list nat;
}.

(** An [AggregatedIssueView] with its [AffectedCookiesView]: the issue it
    shows, the details found for its code, the header texts, the rows of
    the cookie table and the counter. *)
Record AggregatedIssueView := {
  _issue : nat;
  _details : Property;
  headerTitle : option string;
  headerPriority : option string;
  affectedCookies : list Cookie;
  _cookiesCount : nat;
  collapsed : bool;
  detached : bool;
}.

Record t := {
  _issueViews : JSMap.t string nat;        (* Map from code to view *)
  views : list AggregatedIssueView;         (* the view objects, by number *)
  shown : list nat;                         (* children of contentElement *)
  _toolbarIssuesCount : nat;
  console : list ConsoleMessage;
}.

Definition set_views (vs : list AggregatedIssueView) (p : t) : t :=
  {| _issueViews := _issueViews p; views := vs; shown := shown p;
     _toolbarIssuesCount := _toolbarIssuesCount p; console := console p |}.

Definition set_issueViews (m : JSMap.t string nat) (p : t) : t :=
  {| _issueViews := m; views := views p; shown := shown p;
     _toolbarIssuesCount := _toolbarIssuesCount p; console := console p |}.

Definition set_shown (l : list nat) (p : t) : t :=
  {| _issueViews := _issueViews p; views := views p; shown := l;
     _toolbarIssuesCount := _toolbarIssuesCount p; console := console p |}.

Definition set_toolbarIssuesCount (n : nat) (p : t) : t :=
  {| _issueViews := _issueViews p; views := views p; shown := shown p;
     _toolbarIssuesCount := n; console := console p |}.

Definition warn (m : ConsoleMessage) (p : t) : t :=
  {| _issueViews := _issueViews p; views := views p; shown := shown p;
     _toolbarIssuesCount := _toolbarIssuesCount p; console := console p ++ [m] |}.

(** [AffectedCookiesView.update]: the rows are rebuilt from the cookies of
    the view's issue and the counter is set to their number. *)
Definition updateView (sdk : Sdk) (v : AggregatedIssueView) : AggregatedIssueView :=
  {| _issue := _issue v; _details := _details v;
     headerTitle := headerTitle v; headerPriority := headerPriority v;
     affectedCookies := AggregatedIssue.cookies (aggregatedIssue sdk (_issue v));
     _cookiesCount := AggregatedIssue.numberOfCookies (aggregatedIssue sdk (_issue v));
     collapsed := collapsed v; detached := detached v |}.

(** [new AggregatedIssueView(parent, issue)]: the view, and whether
    [appendHeader] warned about the priority. Reading a field of
    [undefined] details throws. *)
Definition newView (sdk : Sdk) (issue : nat)
  : JS.Completion (AggregatedIssueView * list ConsoleMessage) :=
  match lookupIssueDetails (AggregatedIssue.code (aggregatedIssue sdk issue)) with
  | None => JS.Throw JS.TypeError
  | Some details =>
      let view :=
        {| _issue := issue; _details := details;
           headerTitle := detail title details;
           headerPriority :=
             match detail priority details with
             | Some High => Some "High Priority"
             | None => None
             end;
           affectedCookies := []; _cookiesCount := 0;
           collapsed := true; detached := false |} in
      JS.Normal
        (updateView sdk view,
         match detail priority details with
         | Some High => []
         | None => [UnknownIssuePriority]
         end)
  end.

Definition _updateCounts (sdk : Sdk) (p : t) : t :=
  set_toolbarIssuesCount (numberOfAggregatedIssues sdk) p.

Definition _updateAggregatedIssueView (sdk : Sdk) (issue : nat) (p : t)
  : JS.Completion t :=
  let code := AggregatedIssue.code (aggregatedIssue sdk issue) in
  if negb (inIssueDetails code) then JS.Normal (warn (UnknownIssueCode code) p)
  else
    p ← (if negb (JSMap.has code (_issueViews p)) then
           '(view, warnings) ← newView sdk issue;
           let ref := length (views p) in
           let p := set_views (views p ++ [view]) p in
           let p := foldl (λ p m, warn m p) p warnings in
           let p := set_issueViews (JSMap.set code ref (_issueViews p)) p in
           JS.Normal (set_shown (shown p ++ [ref]) p)
         else JS.Normal p);
    match JSMap.get code (_issueViews p) with
    | None => JS.Throw JS.TypeError
    | Some ref =>
        let p := set_views (alter (updateView sdk) ref (views p)) p in
        JS.Normal (_updateCounts sdk p)
    end.

Definition _aggregatedIssueUpdated (sdk : Sdk) (data : nat) (p : t) : JS.Completion t :=
  _updateAggregatedIssueView sdk data p.

Definition detachView (v : AggregatedIssueView) : AggregatedIssueView :=
  {| _issue := _issue v; _details := _details v;
     headerTitle := headerTitle v; headerPriority := headerPriority v;
     affectedCookies := affectedCookies v; _cookiesCount := _cookiesCount v;
     collapsed := collapsed v; detached := true |}.

Fixpoint updateAll (sdk : Sdk) (issues : list nat) (p : t) : JS.Completion t :=
  match issues with
  | [] => JS.Normal p
  | issue :: rest =>
      p ← _updateAggregatedIssueView sdk issue p;
      updateAll sdk rest p
  end.

Definition _fullUpdate (sdk : Sdk) (p : t) : JS.Completion t :=
  let p := set_views
             (foldl (λ vs ref, alter detachView ref vs) (views p)
                (JSMap.values (_issueViews p))) p in
  let p := set_shown (filter (λ ref, ref ∉ JSMap.values (_issueViews p)) (shown p)) p in
  let p := set_issueViews (JSMap.clear (_issueViews p)) p in
  p ← updateAll sdk (aggregatedIssues sdk) p;
  JS.Normal (_updateCounts sdk p).

(** [AggregatedIssueView.toggle(expand)]; [None] is a call without
    argument. The view is collapsed when its element has the class
    [collapsed]. *)
Definition toggle (expand : option bool) (v : AggregatedIssueView) : AggregatedIssueView :=
  {| _issue := _issue v; _details := _details v;
     headerTitle := headerTitle v; headerPriority := headerPriority v;
     affectedCookies := affectedCookies v; _cookiesCount := _cookiesCount v;
     collapsed :=
       match expand with
       | None => negb (collapsed v)       (* classList.toggle('collapsed') *)
       | Some e => negb e                  (* classList.toggle('collapsed', !expand) *)
       end;
     detached := detached v |}.

(** [AggregatedIssueView.reveal]; scrolling into view changes nothing that
    is kept here. *)
Definition reveal (v : AggregatedIssueView) : AggregatedIssueView := toggle (Some true) v.

(** [handleSelect(issueView)], called by the click on the header of a view. *)
Definition handleSelect (issueView : nat) (p : t) : t :=
  set_views (alter (toggle None) issueView (views p)) p.

Definition revealByCode (code : string) (p : t) : t :=
  match JSMap.get code (_issueViews p) with
  | Some issueView => set_views (alter reveal issueView (views p)) p
  | None => p
  end.

(** The pane after its constructor, before the issues of the model are
    shown. *)
Definition empty (sdk : Sdk) : t :=
  {| _issueViews := JSMap.empty; views := []; shown := [];
     _toolbarIssuesCount := numberOfAggregatedIssues sdk; console := [] |}.

(** [new IssuesPaneImpl()]. [model] is what the constructor finds for
    [this._model]: [null] when there is no main target or the target has no
    issues model. [_updateCounts] is called, and reads the model, before
    the guard [if (this._model)] of the loop over the issues. *)
Definition new (model : JS.Nullable Sdk) : JS.Completion t :=
  let p := {| _issueViews := JSMap.empty; views := []; shown := [];
              _toolbarIssuesCount := 0; console := [] |} in
  count ← JS.getField model numberOfAggregatedIssues;
  let p := set_toolbarIssuesCount count p in
  match model with
  | JS.Obj sdk => updateAll sdk (aggregatedIssues sdk) p
  | JS.Null | JS.Undefined => JS.Normal p
  end.

(** *** What the statements about the pane speak of *)

Definition codeOf (sdk : Sdk) (issue : nat) : string :=
  AggregatedIssue.code (aggregatedIssue sdk issue).

(** The codes the console was warned about, in order. *)
Definition unknownCodes (ms : list ConsoleMessage) : list string :=
  omap (λ m, match m with UnknownIssueCode code => Some code | _ => None end) ms.

(** The issues of a list that pass the guard [code in issueDetails], and
    those that fail it. *)
Definition accepted (sdk : Sdk) (issues : list nat) : list nat :=
  filter (λ i, inIssueDetails (codeOf sdk i) = true) issues.

Definition refused (sdk : Sdk) (issues : list nat) : list nat :=
  filter (λ i, inIssueDetails (codeOf sdk i) = false) issues.

End IssuesPane.
End IssuesPane.

(** ** Concrete pages and objects, for the examples *)
Module Examples.
Import LoggingDriver.

(** A page with a visible element 2, a hidden element 3 inside it, and a
    shadow root 4; elements track drags. *)
Definition page : Env :=
  {| document := 0;
     hidden := false;
     body := λ _, 1;
     readyState := λ _, complete;
     getDomState := λ _, {| loggables := [(2, None); (3, Some 2)]; shadowRoots := [4] |};
     visibleOverlap := λ n _,
       if Nat.eqb n 2
       then Some {| rect_x := 0; rect_y := 0; rect_width := 10; rect_height := 10 |}
       else None;
     innerWidth := λ _, Some 800%Z;
     innerHeight := λ _, Some 600%Z;
     tagName := λ _, "DIV";
     getLoggingConfig := λ _,
       {| track := Some {| click := true; dblclick := false; hover := false;
                           drag := true; change := false; keydown := false;
                           resize := false |} |} |}.

(** The same page once element 3 has come into view. *)
Definition pageScrolled : Env :=
  {| document := document page;
     hidden := hidden page;
     body := body page;
     readyState := readyState page;
     getDomState := getDomState page;
     visibleOverlap := λ _ _,
       Some {| rect_x := 0; rect_y := 0; rect_width := 10; rect_height := 10 |};
     innerWidth := innerWidth page;
     innerHeight := innerHeight page;
     tagName := tagName page;
     getLoggingConfig := getLoggingConfig page |}.

(** A state in which two objects are registered with [NonDomState], the
    second one as a child of element 3. *)
Definition withRegistry : State :=
  upd_logs (set_registry
    [ {| reg_loggable := NonDomObject 0; reg_config := {| track := None |};
         reg_parent := None |};
      {| reg_loggable := NonDomObject 1; reg_config := {| track := None |};
         reg_parent := Some (DomElement 3) |} ]) initial.



(** *** Cookies *)

(** The fields of a cookie that end up in its JSON text. *)
Record CookieFields := {
  name : string;
  path : string;
  domain : string;
  siteForCookies : string;
}.

Definition quote : string := String (Ascii.ascii_of_nat 34) EmptyString.

Definition jsonField (k v : string) : string :=
  String.append quote (String.append k (String.append quote
    (String.append ":" (String.append quote (String.append v quote))))).

Definition jsonOfCookie (f : CookieFields) : string :=
  String.append "{" (String.append (jsonField "name" (name f))
    (String.append "," (String.append (jsonField "path" (path f))
      (String.append "," (String.append (jsonField "domain" (domain f))
        (String.append "," (String.append (jsonField "siteForCookies" (siteForCookies f))
          "}"))))))).

(** A heap of cookie objects, known by number: the fields of each, and the
    codes of the issues it has been linked to. *)
Definition CookieHeap := nat → CookieFields * list string.

Definition cookieHost : CookieHost :=
  {| Cookie := nat;
     Heap := CookieHeap;
     JSON_stringify := λ h c, jsonOfCookie (h c).1 |}.

Definition issuesModel : @IssuesModelApi cookieHost :=
  {| connectWithIssue := λ (c : @Cookie cookieHost) (i : @Issue.t cookieHost)
                           (h : @Heap cookieHost),
       (λ c', if Nat.eqb c' c then ((h c').1, Issue.code i :: (h c').2) else h c')
       : @Heap cookieHost |}.

Definition sessionCookie : CookieFields :=
  {| name := "sid"; path := "/"; domain := ".example.org";
     siteForCookies := "https://example.org" |}.

Definition trackingCookie : CookieFields :=
  {| name := "t"; path := "/"; domain := "ads.example.com";
     siteForCookies := "https://example.org" |}.

(** Cookies 0 and 2 are two objects with the same fields. *)
Definition cookieHeap : CookieHeap :=
  λ c, match c with
       | 1 => (trackingCookie, [])
       | _ => (sessionCookie, [])
       end.

Definition issueWith (cs : list (@Cookie cookieHost)) : @Issue.t cookieHost :=
  @Issue.new cookieHost "SameSiteCookieIssue"
    (JS.Obj (@Issue.Build_Resources cookieHost (Some cs) None)).

Definition issuesSeen : list (@Issue.t cookieHost) :=
  [ issueWith [0; 1];
    @Issue.new cookieHost "SameSiteCookieIssue" JS.Null;
    issueWith [2; 1; 0] ].

(** *** The issues pane *)

(** A model with two aggregated issues: issue 0 has a code of the table,
    issue 1 a code that is not in it. *)
Definition issuesSdk : @IssuesPane.Sdk cookieHost :=
  {| IssuesPane.aggregatedIssue := λ i,
       match i with
       | 0 => AggregatedIssue.new "SameSiteCookieIssue"
       | _ => AggregatedIssue.new "MixedContentIssue"
       end;
     IssuesPane.numberOfAggregatedIssues := 2;
     IssuesPane.aggregatedIssues := [0; 1] |}.

(** The pane as its constructor leaves it for that model. *)
Definition issuesPane : @IssuesPane.t cookieHost :=
  match IssuesPane.new (JS.Obj issuesSdk) with
  | JS.Normal p => p
  | JS.Throw _ => IssuesPane.empty issuesSdk
  end.

(** The aggregate of the example issues, and a model that reports it as
    its one aggregated issue. *)
Definition aggregateSeen : @AggregatedIssue.t cookieHost :=
  match @AggregatedIssue.addInstances cookieHost issuesModel
          (AggregatedIssue.new "SameSiteCookieIssue") issuesSeen cookieHeap with
  | JS.Normal (a, _) => a
  | JS.Throw _ => AggregatedIssue.new "SameSiteCookieIssue"
  end.

Definition sdkSeen : @IssuesPane.Sdk cookieHost :=
  {| IssuesPane.aggregatedIssue := λ _, aggregateSeen;
     IssuesPane.numberOfAggregatedIssues := 1;
     IssuesPane.aggregatedIssues := [0] |}.

End Examples.

(* ===================================================================== *)
(** * Part II: theorems *)
(* ===================================================================== *)

(** ** Facts about [Map] *)
Section JSMapFacts.
Context {K V : Type} `{EqDecision K}.
Implicit Types (m : JSMap.t K V) (k : K) (v : V).

Lemma JSMap_has_true k m : JSMap.has k m = true ↔ k ∈ JSMap.keys m.
Proof. unfold JSMap.has, JSMap.keys. apply bool_decide_eq_true. Qed.

Lemma JSMap_has_false k m : JSMap.has k m = false ↔ k ∉ JSMap.keys m.
Proof. unfold JSMap.has, JSMap.keys. apply bool_decide_eq_false. Qed.

Lemma JSMap_set_fresh k v m :
  k ∉ JSMap.keys m → JSMap.set k v m = m ++ [(k, v)].
Proof.
  unfold JSMap.keys. induction m as [|[k' v'] m IH]; simpl; [done|].
  intros Hk. apply not_elem_of_cons in Hk as [Hne Hk].
  rewrite decide_False by done. by rewrite IH.
Qed.

Lemma JSMap_keys_app m1 m2 : JSMap.keys (m1 ++ m2) = JSMap.keys m1 ++ JSMap.keys m2.
Proof. unfold JSMap.keys. apply fmap_app. Qed.

Lemma JSMap_get_Some k v m :
  NoDup (JSMap.keys m) → JSMap.get k m = Some v ↔ (k, v) ∈ m.
Proof.
  unfold JSMap.keys. induction m as [|[k' v'] m IH]; simpl.
  - intros _. split; [done|]. by intros ?%elem_of_nil.
  - intros [Hk' Hnd]%NoDup_cons. case_decide as Hd.
    + subst k'. split.
      * intros [= ->]. left.
      * intros [Heq|Hin]%elem_of_cons; [by inversion Heq|].
        exfalso. apply Hk'. apply list_elem_of_fmap. by exists (k, v).
    + rewrite IH by done. split; [by right|].
      intros [Heq|Hin]%elem_of_cons; [inversion Heq; congruence|done].
Qed.

Lemma JSMap_get_None k m : JSMap.get k m = None ↔ k ∉ JSMap.keys m.
Proof.
  unfold JSMap.keys. induction m as [|[k' v'] m IH]; simpl.
  - split; [intros _; apply not_elem_of_nil|done].
  - case_decide as Hd.
    + subst. split; [done|]. intros Hn. exfalso. apply Hn. left.
    + rewrite IH. rewrite not_elem_of_cons. tauto.
Qed.

End JSMapFacts.

(** ** Facts about [firstSeen] *)
Section FirstSeenFacts.
Context {A K : Type} `{EqDecision K} (key : A → K).
Implicit Types (l : list A) (seen : list K).

Lemma firstSeenFrom_ext seen1 seen2 l :
  (∀ k, k ∈ seen1 ↔ k ∈ seen2) →
  firstSeenFrom key seen1 l = firstSeenFrom key seen2 l.
Proof.
  revert seen1 seen2. induction l as [|x l IH]; intros s1 s2 Hs; simpl; [done|].
  destruct (decide (key x ∈ s1)) as [Hin|Hin].
  - rewrite decide_True by (by apply Hs). by apply IH.
  - rewrite decide_False by (by rewrite <- Hs). f_equal. apply IH.
    intros k. rewrite !elem_of_cons. by rewrite Hs.
Qed.

Lemma firstSeenFrom_app seen l1 l2 :
  firstSeenFrom key seen (l1 ++ l2) =
  firstSeenFrom key seen l1 ++
  firstSeenFrom key (seen ++ (key <$> firstSeenFrom key seen l1)) l2.
Proof.
  revert seen. induction l1 as [|x l1 IH]; intros seen; simpl.
  - by rewrite app_nil_r.
  - destruct (decide (key x ∈ seen)) as [Hin|Hin]; [apply IH|].
    simpl. f_equal. rewrite IH. f_equal. apply firstSeenFrom_ext.
    intros k. rewrite !elem_of_app, !elem_of_cons, ?elem_of_app. tauto.
Qed.

Lemma firstSeenFrom_elem_of seen l x :
  x ∈ firstSeenFrom key seen l ↔
  ∃ i, l !! i = Some x ∧ (key x ∉ seen) ∧
       ∀ j y, j < i → l !! j = Some y → key y ≠ key x.
Proof.
  revert seen. induction l as [|a l IH]; intros seen; simpl.
  - split; [by intros ?%elem_of_nil|]. by intros (i & Hi & _).
  - destruct (decide (key a ∈ seen)) as [Hin|Hin].
    + rewrite IH. split.
      * intros (i & Hi & Hs & Hfirst). exists (S i). split_and!; [done..|].
        intros [|j] y Hj Hy; simpl in *.
        -- inversion Hy; subst. congruence.
        -- apply (Hfirst j); [lia|done].
      * intros ([|i] & Hi & Hs & Hfirst); simpl in *.
        -- inversion Hi; subst. done.
        -- exists i. split_and!; [done..|].
           intros j y Hj Hy. apply (Hfirst (S j)); [lia|done].
    + rewrite elem_of_cons, IH. split.
      * intros [->|(i & Hi & Hs & Hfirst)].
        -- exists 0. split_and!; [done..|]. intros j y Hj; lia.
        -- exists (S i). apply not_elem_of_cons in Hs as [Hne Hs].
           split_and!; [done..|].
           intros [|j] y Hj Hy; simpl in *.
           ++ inversion Hy; subst. congruence.
           ++ apply (Hfirst j); [lia|done].
      * intros ([|i] & Hi & Hs & Hfirst); simpl in *.
        -- left. by inversion Hi.
        -- right. exists i. split_and!; [done| |].
           ++ apply not_elem_of_cons. split; [|done].
              intros Heq. by apply (Hfirst 0 a); [lia| |].
           ++ intros j y Hj Hy. apply (Hfirst (S j)); [lia|done].
Qed.

Lemma firstSeenFrom_keys_NoDup seen l :
  NoDup (key <$> firstSeenFrom key seen l) ∧
  ∀ k, k ∈ key <$> firstSeenFrom key seen l → k ∉ seen.
Proof.
  revert seen. induction l as [|a l IH]; intros seen; simpl.
  - split; [constructor|]. by intros k ?%elem_of_nil.
  - destruct (decide (key a ∈ seen)) as [Hin|Hin]; [apply IH|].
    destruct (IH (key a :: seen)) as [Hnd Hfresh]. simpl. split.
    + constructor; [|done]. intros Hk. apply Hfresh in Hk. apply Hk. left.
    + intros k [->|Hk]%elem_of_cons; [done|].
      apply Hfresh in Hk. by apply not_elem_of_cons in Hk as [_ ?].
Qed.

Lemma firstSeenFrom_keys seen l k :
  k ∈ key <$> firstSeenFrom key seen l ↔ k ∈ key <$> l ∧ k ∉ seen.
Proof.
  revert seen. induction l as [|a l IH]; intros seen; simpl.
  - split; [by intros ?%elem_of_nil|]. by intros [?%elem_of_nil _].
  - destruct (decide (key a ∈ seen)) as [Hin|Hin].
    + rewrite IH, elem_of_cons. intuition congruence.
    + rewrite fmap_cons, !elem_of_cons, IH, not_elem_of_cons.
      destruct (decide (k = key a)); intuition congruence.
Qed.

Lemma firstSeenFrom_sublist seen l : firstSeenFrom key seen l `sublist_of` l.
Proof.
  revert seen. induction l as [|a l IH]; intros seen; simpl; [done|].
  case_decide; [by apply sublist_cons|by apply sublist_skip].
Qed.

Lemma firstSeen_length l :
  length (firstSeen key l) = length (remove_dups (key <$> l)).
Proof.
  rewrite <- (length_fmap key). apply Permutation_length.
  apply NoDup_Permutation.
  - apply firstSeenFrom_keys_NoDup.
  - apply NoDup_remove_dups.
  - intros k. unfold firstSeen. rewrite firstSeenFrom_keys, elem_of_remove_dups.
    split; [by intros [? _]|]. intros ?. split; [done|apply not_elem_of_nil].
Qed.

End FirstSeenFacts.

Lemma firstSeenFrom_key_ext {A K} `{EqDecision K} (key1 key2 : A → K) seen l :
  (∀ x, key1 x = key2 x) →
  firstSeenFrom key1 seen l = firstSeenFrom key2 seen l.
Proof.
  intros Hkey. revert seen. induction l as [|x l IH]; intros seen; simpl; [done|].
  rewrite Hkey. case_decide; [apply IH|]. f_equal. apply IH.
Qed.

(** ** [Issue.js]: the aggregate of issues *)
Section AggregatedIssueFacts.
Context `{ConnectKeepsJSON}.
Implicit Types (a : AggregatedIssue.t) (h : Heap) (issue : Issue.t).

Lemma entriesOf_key_ext h1 h2 (cs : list Cookie) :
  (∀ c, JSON_stringify h1 c = JSON_stringify h2 c) →
  AggregatedIssue.entriesOf h1 cs = AggregatedIssue.entriesOf h2 cs.
Proof.
  intros Hh. unfold AggregatedIssue.entriesOf. apply list_fmap_ext.
  intros _ c _. by rewrite Hh.
Qed.

Lemma entriesOf_app h (cs1 cs2 : list Cookie) :
  AggregatedIssue.entriesOf h (cs1 ++ cs2) =
  AggregatedIssue.entriesOf h cs1 ++ AggregatedIssue.entriesOf h cs2.
Proof. unfold AggregatedIssue.entriesOf. apply fmap_app. Qed.

Lemma keys_entriesOf h (cs : list Cookie) :
  JSMap.keys (AggregatedIssue.entriesOf h cs) = JSON_stringify h <$> cs.
Proof.
  unfold JSMap.keys, AggregatedIssue.entriesOf.
  rewrite <- list_fmap_compose. done.
Qed.

Lemma values_entriesOf h (cs : list Cookie) :
  JSMap.values (AggregatedIssue.entriesOf h cs) = cs.
Proof.
  unfold JSMap.values, AggregatedIssue.entriesOf.
  rewrite <- list_fmap_compose. apply list_fmap_id.
Qed.

Lemma cookiesLoop_spec issue cs (m : JSMap.t string Cookie) h :
  ∃ h', AggregatedIssue.cookiesLoop issue cs m h =
          (m ++ AggregatedIssue.entriesOf h
                  (firstSeenFrom (JSON_stringify h) (JSMap.keys m) cs), h') ∧
        ∀ c, JSON_stringify h' c = JSON_stringify h c.
Proof.
  revert m h. induction cs as [|c cs IH]; intros m h; simpl.
  - exists h. by rewrite app_nil_r.
  - set (h1 := connectWithIssue c issue h).
    assert (Hh1 : ∀ c', JSON_stringify h1 c' = JSON_stringify h c')
      by (intros c'; apply connect_keeps_JSON).
    rewrite (Hh1 c).
    destruct (JSMap.has (JSON_stringify h c) m) eqn:Hhas; simpl.
    + apply JSMap_has_true in Hhas. rewrite decide_True by done.
      destruct (IH m h1) as (h' & -> & Hh').
      exists h'. split; [|intros c'; by rewrite Hh', Hh1].
      f_equal. f_equal.
      rewrite (firstSeenFrom_key_ext _ _ _ _ Hh1).
      by apply entriesOf_key_ext.
    + apply JSMap_has_false in Hhas. rewrite decide_False by done.
      rewrite (JSMap_set_fresh _ _ _ Hhas).
      destruct (IH (m ++ [(JSON_stringify h c, c)]) h1) as (h' & -> & Hh').
      exists h'. split; [|intros c'; by rewrite Hh', Hh1].
      rewrite <- app_assoc. f_equal. f_equal. simpl. f_equal.
      rewrite (firstSeenFrom_key_ext _ _ _ _ Hh1).
      rewrite (entriesOf_key_ext _ _ _ Hh1). f_equal.
      apply firstSeenFrom_ext. intros k. unfold JSMap.keys.
      rewrite fmap_app, elem_of_app, elem_of_cons. simpl.
      rewrite list_elem_of_singleton. tauto.
Qed.

Lemma with_cookies_id a : AggregatedIssue.with_cookies a (AggregatedIssue._cookies a) = a.
Proof. by destruct a. Qed.

Lemma addInstance_spec a issue h :
  ∃ h', AggregatedIssue.addInstance a issue h =
          JS.Normal
            (AggregatedIssue.with_cookies a
               (AggregatedIssue._cookies a ++
                AggregatedIssue.entriesOf h
                  (firstSeenFrom (JSON_stringify h)
                     (JSMap.keys (AggregatedIssue._cookies a))
                     (AggregatedIssue.cookiesOf issue))), h') ∧
        ∀ c, JSON_stringify h' c = JSON_stringify h c.
Proof.
  unfold AggregatedIssue.addInstance, AggregatedIssue.cookiesOf.
  destruct (Issue.resources issue) as [| |r]; simpl;
    try (exists h; by rewrite app_nil_r, with_cookies_id).
  destruct (Issue.cookies r) as [cs|]; simpl;
    [|exists h; by rewrite app_nil_r, with_cookies_id].
  destruct (cookiesLoop_spec issue cs (AggregatedIssue._cookies a) h)
    as (h' & -> & Hh').
  by exists h'.
Qed.

Lemma addInstances_spec a issues h :
  ∃ h', AggregatedIssue.addInstances a issues h =
          JS.Normal
            (AggregatedIssue.with_cookies a
               (AggregatedIssue._cookies a ++
                AggregatedIssue.entriesOf h
                  (firstSeenFrom (JSON_stringify h)
                     (JSMap.keys (AggregatedIssue._cookies a))
                     (AggregatedIssue.allCookies issues))), h') ∧
        ∀ c, JSON_stringify h' c = JSON_stringify h c.
Proof.
  revert a h. induction issues as [|issue issues IH]; intros a h; simpl.
  - exists h. by rewrite app_nil_r, with_cookies_id.
  - destruct (addInstance_spec a issue h) as (h1 & -> & Hh1). simpl.
    destruct (IH (AggregatedIssue.with_cookies a
                    (AggregatedIssue._cookies a ++
                     AggregatedIssue.entriesOf h
                       (firstSeenFrom (JSON_stringify h)
                          (JSMap.keys (AggregatedIssue._cookies a))
                          (AggregatedIssue.cookiesOf issue)))) h1)
      as (h' & -> & Hh').
    exists h'. split; [|intros c; by rewrite Hh', Hh1].
    f_equal. f_equal. unfold AggregatedIssue.with_cookies; simpl. f_equal.
    rewrite <- app_assoc. f_equal.
    unfold AggregatedIssue.allCookies. simpl.
    change (mbind AggregatedIssue.cookiesOf issues)
      with (AggregatedIssue.allCookies issues).
    rewrite firstSeenFrom_app.
    rewrite (firstSeenFrom_key_ext _ _ _ _ Hh1).
    rewrite (entriesOf_key_ext _ _ _ Hh1).
    rewrite entriesOf_app. f_equal. f_equal.
    by rewrite JSMap_keys_app, keys_entriesOf.
Qed.

(** C1. Whatever the code of the aggregate and whatever issues are added to
    it, one after the other, every call returns, and afterwards the cookie
    map has one entry per distinct JSON text among the cookies of the added
    issues' [resources.cookies]: [numberOfCookies()] is the number of
    distinct texts and [cookies()] lists, in the order they were first met,
    the first cookie met with each text. *)
Theorem addInstance_deduplicates_cookies (code : string) (issues : list Issue.t) h :
  ∃ a h',
    AggregatedIssue.addInstances (AggregatedIssue.new code) issues h = JS.Normal (a, h') ∧
    let found := AggregatedIssue.allCookies issues in
    let key := JSON_stringify h in
    AggregatedIssue._cookies a = AggregatedIssue.entriesOf h (firstSeen key found) ∧
    NoDup (JSMap.keys (AggregatedIssue._cookies a)) ∧
    (∀ k, k ∈ JSMap.keys (AggregatedIssue._cookies a) ↔ ∃ c, c ∈ found ∧ key c = k) ∧
    AggregatedIssue.numberOfCookies a = length (remove_dups (key <$> found)) ∧
    AggregatedIssue.cookies a = firstSeen key found ∧
    AggregatedIssue.cookies a `sublist_of` found ∧
    (∀ c, c ∈ AggregatedIssue.cookies a ↔
          ∃ i, found !! i = Some c ∧
               ∀ j c', j < i → found !! j = Some c' → key c' ≠ key c) ∧
    (∀ c, JSON_stringify h' c = JSON_stringify h c).
Proof.
  destruct (addInstances_spec (AggregatedIssue.new code) issues h) as (h' & Hrun & Hh').
  eexists _, h'. split; [exact Hrun|]. simpl.
  unfold AggregatedIssue.cookies, AggregatedIssue.numberOfCookies, JSMap.size. simpl.
  fold (firstSeen (JSON_stringify h) (AggregatedIssue.allCookies issues)).
  rewrite keys_entriesOf, values_entriesOf.
  split_and!; try done.
  - apply firstSeenFrom_keys_NoDup.
  - intros k. unfold firstSeen. rewrite firstSeenFrom_keys, list_elem_of_fmap.
    split.
    + intros [(c & -> & Hc) _]. by exists c.
    + intros (c & Hc & <-). split; [by exists c|apply not_elem_of_nil].
  - unfold AggregatedIssue.entriesOf. rewrite length_fmap. apply firstSeen_length.
  - apply firstSeenFrom_sublist.
  - intros c. unfold firstSeen. rewrite firstSeenFrom_elem_of.
    split; intros (i & Hi & Hrest); exists i; split; try done.
    + by destruct Hrest.
    + split; [apply not_elem_of_nil|done].
Qed.

End AggregatedIssueFacts.

Lemma example_connect_keeps_JSON :
  @ConnectKeepsJSON Examples.cookieHost Examples.issuesModel.
Proof.
  intros c i h c'. simpl. by destruct (Nat.eqb c' c).
Qed.

(** Two issues bring the cookies 0, 1 and 2, 1, 0, and one issue has no
    resources: the aggregate keeps cookies 0 and 1. *)
Example aggregate_of_example_issues :
  AggregatedIssue.cookies ∘ fst <$>
    @AggregatedIssue.addInstances _ Examples.issuesModel
      (AggregatedIssue.new "SameSiteCookieIssue") Examples.issuesSeen Examples.cookieHeap
  = JS.Normal [0; 1].
Proof. by vm_compute. Qed.

(** C1 on the example: the assumption holds for the example heap, and the
    aggregate ends with the cookies 0 and 1. *)
Lemma addInstance_deduplicates_cookies_witness :
  ∃ a h',
    @AggregatedIssue.addInstances _ Examples.issuesModel
      (AggregatedIssue.new "SameSiteCookieIssue") Examples.issuesSeen Examples.cookieHeap
    = JS.Normal (a, h') ∧
    AggregatedIssue.cookies a = [0; 1] ∧
    AggregatedIssue.numberOfCookies a = 2.
Proof.
  destruct (@addInstance_deduplicates_cookies _ _ example_connect_keeps_JSON
              "SameSiteCookieIssue" Examples.issuesSeen Examples.cookieHeap)
    as (a & h' & Hrun & _ & _ & _ & Hn & Hc & _).
  exists a, h'. split_and!; [exact Hrun|by rewrite Hc|by rewrite Hn].
Defined.

Section IssueFacts.
Context `{IssuesModelApi}.
Implicit Types (a : AggregatedIssue.t) (h : Heap) (issue : Issue.t).

Lemma addInstance_code a issue h :
  AggregatedIssue.code ∘ fst <$> AggregatedIssue.addInstance a issue h
  = JS.Normal (AggregatedIssue.code a).
Proof.
  unfold AggregatedIssue.addInstance.
  destruct (Issue.resources issue) as [| |r]; simpl; try done.
  destruct (Issue.cookies r) as [cs|]; simpl; [|done].
  by destruct (AggregatedIssue.cookiesLoop issue cs (AggregatedIssue._cookies a) h).
Qed.

(** C7. An issue whose [resources()] is [null] or [undefined] leaves the
    aggregate as it is (its cookie map included) and the call returns; and
    after any sequence of [addInstance] calls [code()] is still the code the
    constructor was given. *)
Theorem addInstance_without_resources_and_code :
  (∀ a (c : string) h,
     AggregatedIssue.addInstance a (Issue.new c JS.Null) h = JS.Normal (a, h) ∧
     AggregatedIssue.addInstance a (Issue.new c JS.Undefined) h = JS.Normal (a, h)) ∧
  (∀ (c : string) (issues : list Issue.t) h,
     AggregatedIssue.code (AggregatedIssue.new c) = c ∧
     AggregatedIssue.code ∘ fst <$>
       AggregatedIssue.addInstances (AggregatedIssue.new c) issues h
     = JS.Normal c).
Proof.
  split; [done|]. intros c issues h. split; [done|].
  change c with (AggregatedIssue.code (AggregatedIssue.new c)) at 2.
  generalize (AggregatedIssue.new c). revert h.
  induction issues as [|issue issues IH]; intros h a; simpl; [done|].
  pose proof (addInstance_code a issue h) as Hc.
  destruct (AggregatedIssue.addInstance a issue h) as [[a' h']|e]; simpl in *;
    [|discriminate].
  injection Hc as <-. apply IH.
Qed.

Lemma requestsLoop_true (rs : list Issue.Request) (rid : string) :
  Issue.requestsLoop rs rid = true ↔
  ∃ request, request ∈ rs ∧ Issue.requestId request = Some rid.
Proof.
  induction rs as [|r rs IH]; simpl.
  - split; [done|]. by intros (? & ?%elem_of_nil & _).
  - case_bool_decide as Hr.
    + split; [|done]. intros _. exists r. split; [left|done].
    + rewrite IH. split.
      * intros (q & Hq & Hid). exists q. split; [by right|done].
      * intros (q & [->|Hq]%elem_of_cons & Hid); [done|by exists q].
Qed.

(** C10. [isAssociatedWithRequestId] always returns, and returns [true]
    exactly when [resources] is an object, it has a [requests] collection and
    one of the requests in it has a [requestId] equal to the argument; with
    [resources] [null] or [undefined], or without a [requests] field, it
    returns [false]. *)
Theorem isAssociatedWithRequestId_iff (issue : Issue.t) (rid : string) :
  (∃ b, Issue.isAssociatedWithRequestId issue rid = JS.Normal b ∧
        (b = true ↔
         ∃ r rs request,
           Issue.resources issue = JS.Obj r ∧
           Issue.requests r = Some rs ∧
           request ∈ rs ∧ Issue.requestId request = Some rid)) ∧
  (∀ c, Issue.isAssociatedWithRequestId (Issue.new c JS.Null) rid = JS.Normal false) ∧
  (∀ c, Issue.isAssociatedWithRequestId (Issue.new c JS.Undefined) rid = JS.Normal false) ∧
  (∀ c cs, Issue.isAssociatedWithRequestId
             (Issue.new c (JS.Obj {| Issue.cookies := cs; Issue.requests := None |})) rid
           = JS.Normal false).
Proof.
  split_and!; try done.
  unfold Issue.isAssociatedWithRequestId, Issue.resources.
  destruct (Issue._resources issue) as [| |r]; simpl.
  - exists false. split; [done|]. split; [done|]. by intros (? & ? & ? & ? & _).
  - exists false. split; [done|]. split; [done|]. by intros (? & ? & ? & ? & _).
  - destruct (Issue.requests r) as [rs|] eqn:Hreq; simpl.
    + destruct (Issue.requestsLoop rs rid) eqn:Hloop.
      * exists true. split; [done|]. split; [|done]. intros _.
        apply requestsLoop_true in Hloop as (q & Hq & Hid). by exists r, rs, q.
      * exists false. split; [done|]. split; [done|].
        intros (r' & rs' & q & [= <-] & Hrs & Hq & Hid).
        rewrite Hreq in Hrs. injection Hrs as <-.
        assert (Issue.requestsLoop rs rid = true) as Ht
          by (apply requestsLoop_true; by exists q).
        congruence.
    + exists false. split; [done|]. split; [done|].
      intros (r' & rs' & q & [= <-] & Hrs & _). congruence.
Qed.

End IssueFacts.

(** ** [Issue.js]: how calls of [addInstance] compose *)
Section AggregatedIssueGrowth.
Context `{IssuesModelApi}.
Implicit Types (a : AggregatedIssue.t) (h : Heap) (issue : Issue.t)
  (m : JSMap.t string Cookie).

(** The loop over the cookies only appends to the map: each entry it adds
    is a cookie of the list, under a key the map did not have. *)
Lemma cookiesLoop_appends issue (cs : list Cookie) m h :
  ∃ added h',
    AggregatedIssue.cookiesLoop issue cs m h = (m ++ added, h') ∧
    JSMap.values added `sublist_of` cs ∧
    (NoDup (JSMap.keys m) → NoDup (JSMap.keys (m ++ added))).
Proof.
  revert m h. induction cs as [|c cs IH]; intros m h; simpl.
  - exists [], h. rewrite app_nil_r. by split_and!.
  - set (h1 := connectWithIssue c issue h).
    destruct (JSMap.has (JSON_stringify h1 c) m) eqn:Hhas; simpl.
    + destruct (IH m h1) as (added & h' & -> & Hsub & Hnd).
      exists added, h'. split_and!; [done| |done]. by apply sublist_cons.
    + apply JSMap_has_false in Hhas. rewrite (JSMap_set_fresh _ _ _ Hhas).
      destruct (IH (m ++ [(JSON_stringify h1 c, c)]) h1) as (added & h' & -> & Hsub & Hnd).
      exists ((JSON_stringify h1 c, c) :: added), h'. split_and!.
      * by rewrite <- app_assoc.
      * unfold JSMap.values in *. simpl. by apply sublist_skip.
      * intros Hm. rewrite (assoc_L (++) m [_] added : m ++ _ :: added = _).
        apply Hnd. rewrite JSMap_keys_app. simpl.
        apply NoDup_app. split_and!; [done| |apply NoDup_singleton].
        by intros k Hk ->%list_elem_of_singleton.
Qed.

Lemma addInstance_appends a issue h :
  ∃ added h',
    AggregatedIssue.addInstance a issue h =
      JS.Normal (AggregatedIssue.with_cookies a (AggregatedIssue._cookies a ++ added), h') ∧
    JSMap.values added `sublist_of` AggregatedIssue.cookiesOf issue ∧
    (NoDup (JSMap.keys (AggregatedIssue._cookies a)) →
     NoDup (JSMap.keys (AggregatedIssue._cookies a ++ added))).
Proof.
  unfold AggregatedIssue.addInstance, AggregatedIssue.cookiesOf.
  assert (Hsame : ∃ added h',
    JS.Normal (a, h) =
      JS.Normal (AggregatedIssue.with_cookies a (AggregatedIssue._cookies a ++ added), h') ∧
    JSMap.values added `sublist_of` [] ∧
    (NoDup (JSMap.keys (AggregatedIssue._cookies a)) →
     NoDup (JSMap.keys (AggregatedIssue._cookies a ++ added)))).
  { exists [], h. rewrite app_nil_r. split_and!; [|done..]. by destruct a. }
  destruct (Issue.resources issue) as [| |r]; simpl; [done..|].
  destruct (Issue.cookies r) as [cs|]; simpl.
  - destruct (cookiesLoop_appends issue cs (AggregatedIssue._cookies a) h)
      as (added & h' & -> & Hsub & Hnd).
    by exists added, h'.
  - destruct Hsame as (added & h' & ? & Hsub & ?). exists added, h'.
    split_and!; [done| |done]. apply sublist_nil_r in Hsub. rewrite Hsub. constructor.
Qed.

(** Whatever [connectWithIssue] and [JSON.stringify] do, calls of
    [addInstance] return and only add to the aggregate: the entries of the
    cookie map stay where they are, with the cookie they had, new ones come
    after them, at most one per cookie of the added issues and each of
    them one of those cookies; keys that were distinct stay distinct; the
    code and the other fields are not touched. *)
Theorem addInstance_only_appends a (issues : list Issue.t) h :
  ∃ a' h',
    AggregatedIssue.addInstances a issues h = JS.Normal (a', h') ∧
    AggregatedIssue._cookies a `prefix_of` AggregatedIssue._cookies a' ∧
    AggregatedIssue.cookies a `prefix_of` AggregatedIssue.cookies a' ∧
    (AggregatedIssue.numberOfCookies a ≤ AggregatedIssue.numberOfCookies a'
     ≤ AggregatedIssue.numberOfCookies a + length (AggregatedIssue.allCookies issues))%nat ∧
    (∀ c, c ∈ AggregatedIssue.cookies a' →
          c ∈ AggregatedIssue.cookies a ∨ c ∈ AggregatedIssue.allCookies issues) ∧
    (NoDup (JSMap.keys (AggregatedIssue._cookies a)) →
     NoDup (JSMap.keys (AggregatedIssue._cookies a'))) ∧
    AggregatedIssue._code a' = AggregatedIssue._code a ∧
    AggregatedIssue._resources a' = AggregatedIssue._resources a ∧
    AggregatedIssue._requests a' = AggregatedIssue._requests a.
Proof.
  assert (Hgen : ∃ added h',
    AggregatedIssue.addInstances a issues h =
      JS.Normal (AggregatedIssue.with_cookies a (AggregatedIssue._cookies a ++ added), h') ∧
    JSMap.values added `sublist_of` AggregatedIssue.allCookies issues ∧
    (NoDup (JSMap.keys (AggregatedIssue._cookies a)) →
     NoDup (JSMap.keys (AggregatedIssue._cookies a ++ added)))).
  { revert a h. induction issues as [|issue issues IH]; intros a h; simpl.
    - exists [], h. rewrite app_nil_r. split_and!; [|done..]. by destruct a.
    - destruct (addInstance_appends a issue h) as (add1 & h1 & -> & Hsub1 & Hnd1). simpl.
      destruct (IH (AggregatedIssue.with_cookies a (AggregatedIssue._cookies a ++ add1)) h1)
        as (add2 & h2 & -> & Hsub2 & Hnd2). simpl in *.
      exists (add1 ++ add2), h2. split_and!.
      + unfold AggregatedIssue.with_cookies. simpl. by rewrite <- app_assoc.
      + unfold JSMap.values in *. rewrite fmap_app. by apply sublist_app.
      + intros Hm. rewrite app_assoc. by apply Hnd2, Hnd1. }
  destruct Hgen as (added & h' & Hrun & Hsub & Hnd).
  eexists _, h'. split; [exact Hrun|].
  unfold AggregatedIssue.cookies, AggregatedIssue.numberOfCookies, JSMap.size,
    JSMap.values in *. simpl.
  split_and!; try done.
  - by apply prefix_app_r.
  - rewrite fmap_app. by apply prefix_app_r.
  - rewrite length_app. lia.
  - rewrite length_app. apply sublist_length in Hsub. rewrite length_fmap in Hsub. lia.
  - intros c. rewrite fmap_app, elem_of_app. intros [Hc|Hc]; [by left|right].
    by eapply elem_of_sublist.
Qed.

End AggregatedIssueGrowth.

Section AggregatedIssueOrder.
Context `{ConnectKeepsJSON}.
Implicit Types (a : AggregatedIssue.t) (h : Heap) (issue : Issue.t).

Lemma firstSeenFrom_all_seen {A K} `{EqDecision K} (key : A → K) (seen : list K)
    (l : list A) :
  (∀ x, x ∈ l → key x ∈ seen) → firstSeenFrom key seen l = [].
Proof.
  induction l as [|x l IH]; intros Hall; simpl; [done|].
  rewrite decide_True by (apply Hall; left). apply IH. intros y Hy. apply Hall. by right.
Qed.

(** An issue whose cookies all have their JSON text among the keys of the
    map leaves the aggregate as it is. *)
Lemma addInstance_known a issue h :
  (∀ c, c ∈ AggregatedIssue.cookiesOf issue →
        JSON_stringify h c ∈ JSMap.keys (AggregatedIssue._cookies a)) →
  ∃ h', AggregatedIssue.addInstance a issue h = JS.Normal (a, h') ∧
        ∀ c, JSON_stringify h' c = JSON_stringify h c.
Proof.
  intros Hknown. destruct (addInstance_spec a issue h) as (h' & -> & Hh').
  exists h'. split; [|done].
  rewrite firstSeenFrom_all_seen by done.
  unfold AggregatedIssue.entriesOf. simpl. by rewrite app_nil_r, with_cookies_id.
Qed.

(** An issue added a second time, at once or after other issues, adds
    nothing: the aggregate after the second call is the aggregate before
    it. The same holds for any issue whose cookies all have their JSON text
    in the map already. *)
Theorem addInstance_again_adds_nothing a issue (others : list Issue.t) h :
  ∃ a1 h1 h2,
    AggregatedIssue.addInstances a (issue :: others) h = JS.Normal (a1, h1) ∧
    AggregatedIssue.addInstance a1 issue h1 = JS.Normal (a1, h2) ∧
    ∀ issue',
      (∀ c, c ∈ AggregatedIssue.cookiesOf issue' →
            JSON_stringify h c ∈ JSMap.keys (AggregatedIssue._cookies a1)) →
      ∃ h3, AggregatedIssue.addInstance a1 issue' h1 = JS.Normal (a1, h3).
Proof.
  destruct (addInstances_spec a (issue :: others) h) as (h1 & Hrun & Hh1).
  set (a1 := AggregatedIssue.with_cookies a _) in Hrun.
  assert (Hany : ∀ issue',
    (∀ c, c ∈ AggregatedIssue.cookiesOf issue' →
          JSON_stringify h c ∈ JSMap.keys (AggregatedIssue._cookies a1)) →
    ∃ h3, AggregatedIssue.addInstance a1 issue' h1 = JS.Normal (a1, h3)).
  { intros issue' Hknown.
    destruct (addInstance_known a1 issue' h1) as (h3 & Hrun3 & _); [|by exists h3].
    intros c Hc. rewrite Hh1. by apply Hknown. }
  destruct (Hany issue) as (h2 & Hrun2).
  { intros c Hc. unfold a1. simpl. rewrite JSMap_keys_app, keys_entriesOf, elem_of_app.
    destruct (decide (JSON_stringify h c ∈ JSMap.keys (AggregatedIssue._cookies a)))
      as [Hin|Hin]; [by left|right].
    apply firstSeenFrom_keys. split; [|done].
    apply list_elem_of_fmap. exists c. split; [done|].
    unfold AggregatedIssue.allCookies. simpl. apply elem_of_app. by left. }
  by exists a1, h1, h2.
Qed.

(** The cookies that a new aggregate ends with do not depend, as a set of
    JSON texts, on the order in which the issues were added: two orders
    give the same number of cookies and the same keys, up to their order.
    (Which cookie object stands for a text, and the order of [cookies()],
    do depend on it.) *)
Theorem addInstance_order_of_issues (code : string) (issues issues' : list Issue.t) h :
  issues ≡ₚ issues' →
  ∃ a a' h1 h1',
    AggregatedIssue.addInstances (AggregatedIssue.new code) issues h = JS.Normal (a, h1) ∧
    AggregatedIssue.addInstances (AggregatedIssue.new code) issues' h = JS.Normal (a', h1') ∧
    AggregatedIssue.numberOfCookies a = AggregatedIssue.numberOfCookies a' ∧
    JSMap.keys (AggregatedIssue._cookies a) ≡ₚ JSMap.keys (AggregatedIssue._cookies a') ∧
    (JSON_stringify h <$> AggregatedIssue.cookies a) ≡ₚ
    (JSON_stringify h <$> AggregatedIssue.cookies a').
Proof.
  intros Hperm.
  destruct (addInstances_spec (AggregatedIssue.new code) issues h) as (h1 & Hrun & _).
  destruct (addInstances_spec (AggregatedIssue.new code) issues' h) as (h1' & Hrun' & _).
  eexists _, _, h1, h1'. split; [exact Hrun|]. split; [exact Hrun'|].
  unfold AggregatedIssue.numberOfCookies, AggregatedIssue.cookies, JSMap.size. simpl.
  rewrite !keys_entriesOf, !values_entriesOf.
  assert (Hkeys :
    JSON_stringify h <$> firstSeenFrom (JSON_stringify h) [] (AggregatedIssue.allCookies issues)
    ≡ₚ JSON_stringify h <$>
         firstSeenFrom (JSON_stringify h) [] (AggregatedIssue.allCookies issues')).
  { apply NoDup_Permutation; [apply firstSeenFrom_keys_NoDup..|].
    intros k. rewrite !firstSeenFrom_keys.
    assert (AggregatedIssue.allCookies issues ≡ₚ AggregatedIssue.allCookies issues') as Hfound
      by (unfold AggregatedIssue.allCookies; by rewrite Hperm).
    by rewrite Hfound. }
  split_and!; [|done..].
  unfold AggregatedIssue.entriesOf. rewrite !length_fmap.
  rewrite <- (length_fmap (JSON_stringify h)
    (firstSeenFrom (JSON_stringify h) [] (AggregatedIssue.allCookies issues))).
  rewrite <- (length_fmap (JSON_stringify h)
    (firstSeenFrom (JSON_stringify h) [] (AggregatedIssue.allCookies issues'))).
  by apply Permutation_length.
Qed.

End AggregatedIssueOrder.

(** On the example heap: the issue with the cookies 0 and 1, added after
    itself and another issue, adds nothing. *)
Lemma addInstance_again_adds_nothing_witness :
  ∃ a1 h1 h2,
    @AggregatedIssue.addInstances _ Examples.issuesModel
      (AggregatedIssue.new "SameSiteCookieIssue")
      (Examples.issueWith [0; 1] :: [Examples.issueWith [2; 1; 0]]) Examples.cookieHeap
    = JS.Normal (a1, h1) ∧
    @AggregatedIssue.addInstance _ Examples.issuesModel a1 (Examples.issueWith [0; 1]) h1
    = JS.Normal (a1, h2) ∧
    AggregatedIssue.cookies a1 = [0; 1].
Proof.
  destruct (@addInstance_again_adds_nothing _ _ example_connect_keeps_JSON
              (AggregatedIssue.new "SameSiteCookieIssue") (Examples.issueWith [0; 1])
              [Examples.issueWith [2; 1; 0]] Examples.cookieHeap)
    as (a1 & h1 & h2 & Hrun & Hagain & _).
  exists a1, h1, h2. split_and!; [exact Hrun|exact Hagain|].
  vm_compute in Hrun. by injection Hrun as <- _.
Defined.

(** On the example heap: the issues with the cookies 0, 1 and 2, 1, 0, in
    the two orders. Both aggregates have two cookies with the same two
    texts; the first lists the cookies 0 and 1, the second 2 and 1. *)
Lemma addInstance_order_of_issues_witness :
  [Examples.issueWith [0; 1]; Examples.issueWith [2; 1; 0]]
    ≡ₚ [Examples.issueWith [2; 1; 0]; Examples.issueWith [0; 1]] ∧
  ∃ a a' h1 h1',
    @AggregatedIssue.addInstances _ Examples.issuesModel
      (AggregatedIssue.new "SameSiteCookieIssue")
      [Examples.issueWith [0; 1]; Examples.issueWith [2; 1; 0]] Examples.cookieHeap
    = JS.Normal (a, h1) ∧
    @AggregatedIssue.addInstances _ Examples.issuesModel
      (AggregatedIssue.new "SameSiteCookieIssue")
      [Examples.issueWith [2; 1; 0]; Examples.issueWith [0; 1]] Examples.cookieHeap
    = JS.Normal (a', h1') ∧
    AggregatedIssue.numberOfCookies a = AggregatedIssue.numberOfCookies a' ∧
    AggregatedIssue.cookies a = [0; 1] ∧
    AggregatedIssue.cookies a' = [2; 1].
Proof.
  assert (Hperm : [Examples.issueWith [0; 1]; Examples.issueWith [2; 1; 0]]
            ≡ₚ [Examples.issueWith [2; 1; 0]; Examples.issueWith [0; 1]])
    by apply perm_swap.
  split; [exact Hperm|].
  destruct (@addInstance_order_of_issues _ _ example_connect_keeps_JSON
              "SameSiteCookieIssue" _ _ Examples.cookieHeap Hperm)
    as (a & a' & h1 & h1' & Hrun & Hrun' & Hn & _).
  exists a, a', h1, h1'. split_and!; [exact Hrun|exact Hrun'|exact Hn|..].
  - vm_compute in Hrun. by injection Hrun as <- _.
  - vm_compute in Hrun'. by injection Hrun' as <- _.
Defined.

(** ** The issues pane *)
Section IssuesPaneFacts.
Context `{CookieHost}.
Import IssuesPane.
Implicit Types (sdk : Sdk) (p : IssuesPane.t) (issue : nat).

Lemma JSMap_has_get {K V} `{EqDecision K} (k : K) (m : JSMap.t K V) :
  JSMap.has k m = true ↔ is_Some (JSMap.get k m).
Proof.
  rewrite JSMap_has_true. rewrite <- not_eq_None_Some, JSMap_get_None.
  split; [by intros ? ?|]. intros Hn. by destruct (decide (k ∈ JSMap.keys m)).
Qed.

Lemma JSMap_get_set_fresh {K V} `{EqDecision K} (k : K) (v : V) (m : JSMap.t K V) :
  JSMap.get k m = None → JSMap.get k (JSMap.set k v m) = Some v.
Proof.
  induction m as [|[k' v'] m IH]; simpl.
  - by rewrite decide_True.
  - destruct (decide (k = k')) as [->|Hne]; [done|]. simpl.
    rewrite decide_False by done. apply IH.
Qed.

Lemma updateView_idemp sdk v : updateView sdk (updateView sdk v) = updateView sdk v.
Proof. done. Qed.

Lemma newView_updated sdk issue view warnings :
  newView sdk issue = JS.Normal (view, warnings) → updateView sdk view = view.
Proof.
  unfold newView. destruct (lookupIssueDetails _); [|done].
  intros [= <- _]. done.
Qed.

Lemma foldl_warn_fields (ws : list ConsoleMessage) p :
  let p' := foldl (λ p m, warn m p) p ws in
  _issueViews p' = _issueViews p ∧ views p' = views p ∧ shown p' = shown p ∧
  _toolbarIssuesCount p' = _toolbarIssuesCount p ∧ console p' = console p ++ ws.
Proof.
  cbv zeta. revert p. induction ws as [|w ws IH]; intros p; simpl.
  - by rewrite app_nil_r.
  - destruct (IH (warn w p)) as (-> & -> & -> & -> & ->). simpl.
    by rewrite <- app_assoc.
Qed.

(** What [_updateAggregatedIssueView] does, case by case: a code for which
    [code in issueDetails] is false only gets a warning; a code that has a
    view gets that view updated where it is, and no view is created; a
    code that has none gets one new view, registered under the code and
    shown. The keys of the map stay distinct. *)
Theorem updateAggregatedIssueView_cases sdk issue p :
  let code := AggregatedIssue.code (aggregatedIssue sdk issue) in
  (inIssueDetails code = false →
   _updateAggregatedIssueView sdk issue p = JS.Normal (warn (UnknownIssueCode code) p)) ∧
  (inIssueDetails code = true →
   match JSMap.get code (_issueViews p) with
   | Some ref =>
       _updateAggregatedIssueView sdk issue p =
       JS.Normal (_updateCounts sdk (set_views (alter (updateView sdk) ref (views p)) p))
   | None =>
       ∃ view warnings p',
         newView sdk issue = JS.Normal (view, warnings) ∧
         _updateAggregatedIssueView sdk issue p = JS.Normal p' ∧
         _issueViews p' = _issueViews p ++ [(code, length (views p))] ∧
         views p' = views p ++ [view] ∧
         shown p' = shown p ++ [length (views p)] ∧
         console p' = console p ++ warnings ∧
         _toolbarIssuesCount p' = numberOfAggregatedIssues sdk
   end) ∧
  (NoDup (JSMap.keys (_issueViews p)) →
   ∀ p', _updateAggregatedIssueView sdk issue p = JS.Normal p' →
         NoDup (JSMap.keys (_issueViews p'))).
Proof.
  cbv zeta. set (code := AggregatedIssue.code (aggregatedIssue sdk issue)).
  assert (Hknown : inIssueDetails code = true →
    match JSMap.get code (_issueViews p) with
    | Some ref =>
        _updateAggregatedIssueView sdk issue p =
        JS.Normal (_updateCounts sdk (set_views (alter (updateView sdk) ref (views p)) p))
    | None =>
        ∃ view warnings p',
          newView sdk issue = JS.Normal (view, warnings) ∧
          _updateAggregatedIssueView sdk issue p = JS.Normal p' ∧
          _issueViews p' = _issueViews p ++ [(code, length (views p))] ∧
          views p' = views p ++ [view] ∧
          shown p' = shown p ++ [length (views p)] ∧
          console p' = console p ++ warnings ∧
          _toolbarIssuesCount p' = numberOfAggregatedIssues sdk
    end).
  { intros Hin. unfold _updateAggregatedIssueView. fold code. rewrite Hin. simpl.
    destruct (JSMap.get code (_issueViews p)) as [ref|] eqn:Hget.
    - assert (JSMap.has code (_issueViews p) = true) as ->
        by (apply JSMap_has_get; by rewrite Hget).
      simpl. by rewrite Hget.
    - assert (JSMap.has code (_issueViews p) = false) as Hhas.
      { apply not_true_is_false. rewrite JSMap_has_get, Hget. by intros [? ?]. }
      rewrite Hhas. simpl.
      unfold inIssueDetails in Hin. apply bool_decide_eq_true in Hin as [details Hd].
      assert (Hnew : ∃ view warnings, newView sdk issue = JS.Normal (view, warnings)).
      { unfold newView. fold code. rewrite Hd. eauto. }
      destruct Hnew as (view & warnings & Hnew). rewrite Hnew. simpl.
      pose proof (foldl_warn_fields warnings (set_views (views p ++ [view]) p)) as Hw.
      cbv zeta in Hw.
      set (q := foldl (λ p m, warn m p) (set_views (views p ++ [view]) p) warnings) in *.
      clearbody q. destruct q as [qm qv qs qc qw]. simpl in Hw |- *.
      destruct Hw as (-> & -> & -> & -> & ->).
      rewrite JSMap_get_set_fresh by done.
      exists view, warnings. eexists. split_and!; [done|done|..]; simpl; try done.
      + apply JSMap_set_fresh. by apply JSMap_get_None.
      + rewrite (alter_app_r_alt _ _ _ (length (views p))) by lia.
        rewrite Nat.sub_diag. simpl. by rewrite (newView_updated _ _ _ _ Hnew). }
  split_and!; [|done|].
  - intros Hin. unfold _updateAggregatedIssueView. fold code. by rewrite Hin.
  - intros Hnd p'.
    destruct (inIssueDetails code) eqn:Hin.
    + specialize (Hknown eq_refl).
      destruct (JSMap.get code (_issueViews p)) as [ref|] eqn:Hget.
      * rewrite Hknown. by intros [= <-].
      * destruct Hknown as (view & warnings & p0 & _ & -> & Hm & _).
        intros [= <-]. rewrite Hm, JSMap_keys_app. simpl.
        apply NoDup_app. split_and!; [done| |apply NoDup_singleton].
        intros k Hk ->%list_elem_of_singleton. by apply JSMap_get_None in Hget.
    + unfold _updateAggregatedIssueView. fold code. rewrite Hin. simpl.
      by intros [= <-].
Qed.

(** C4, at a code that is no key of [issueDetails] and still passes the
    guard: for an aggregated issue with code [toString], which every
    object literal inherits, [_updateAggregatedIssueView] does not return
    at the guard; a view is created, registered and shown, with nothing
    but a warning about its priority in the header, and the count is set. *)
Theorem updateAggregatedIssueView_inherited_name (numberOfIssues : nat) :
  let sdk := {| aggregatedIssue := λ _, AggregatedIssue.new "toString";
                numberOfAggregatedIssues := numberOfIssues;
                aggregatedIssues := [0] |} in
  isKeyOfIssueDetails "toString" = false ∧
  inIssueDetails "toString" = true ∧
  ∃ p', _updateAggregatedIssueView sdk 0 (empty sdk) = JS.Normal p' ∧
        _issueViews p' = [("toString", 0)] ∧
        length (views p') = 1 ∧
        shown p' = [0] ∧
        console p' = [UnknownIssuePriority] ∧
        _toolbarIssuesCount p' = numberOfIssues.
Proof.
  cbv zeta. split_and!; [done..|]. eexists. split; [reflexivity|]. done.
Qed.

(** The three codes of the table are found by the guard, and any other
    code than these and the names of [Object.prototype] is refused. *)
Lemma inIssueDetails_iff (code : string) :
  inIssueDetails code = true ↔
  code ∈ JSMap.keys issueDetails ∨ code ∈ ObjectPrototypeNames.
Proof.
  unfold inIssueDetails, lookupIssueDetails. rewrite bool_decide_eq_true.
  destruct (JSMap.get code issueDetails) as [d|] eqn:Hget.
  - split; [|by eauto]. intros _. left.
    destruct (decide (code ∈ JSMap.keys issueDetails)) as [|Hn]; [done|].
    apply JSMap_get_None in Hn. congruence.
  - apply JSMap_get_None in Hget. case_bool_decide.
    + split; [by right|by eauto].
    + split; [by intros [? ?]|]. by intros [?|?].
Qed.

End IssuesPaneFacts.

(** ** The issues pane: building the views, expanding and collapsing *)
Section IssuesPaneViews.
Context `{CookieHost}.
Import IssuesPane.
Implicit Types (sdk : Sdk) (p : IssuesPane.t) (issue : nat) (v : AggregatedIssueView).

Lemma JSMap_get_values {K V} `{EqDecision K} (k : K) (x : V) (m : JSMap.t K V) :
  JSMap.get k m = Some x → x ∈ JSMap.values m.
Proof.
  unfold JSMap.values. induction m as [|[k' x'] m IH]; simpl; [done|].
  case_decide; [intros [= ->]; left|intros ?; right; by apply IH].
Qed.

Lemma JSMap_values_app {K V} (m1 m2 : JSMap.t K V) :
  JSMap.values (m1 ++ m2) = JSMap.values m1 ++ JSMap.values m2.
Proof. unfold JSMap.values. apply fmap_app. Qed.

(** What [new AggregatedIssueView] gives for an issue whose code passes
    the guard. *)
Lemma newView_spec sdk issue :
  inIssueDetails (codeOf sdk issue) = true →
  ∃ view warnings,
    newView sdk issue = JS.Normal (view, warnings) ∧
    _issue view = issue ∧ collapsed view = true ∧ detached view = false ∧
    updateView sdk view = view ∧ unknownCodes warnings = [].
Proof.
  unfold inIssueDetails, newView, codeOf. intros [details Hd]%bool_decide_eq_true.
  rewrite Hd. eexists _, _. split; [done|]. simpl.
  split_and!; try done. by destruct (detail priority details) as [[]|].
Qed.

(** One call of [_updateAggregatedIssueView], as an equation. *)
Lemma updateAggregatedIssueView_step sdk issue p :
  if inIssueDetails (codeOf sdk issue) then
    match JSMap.get (codeOf sdk issue) (_issueViews p) with
    | Some ref =>
        _updateAggregatedIssueView sdk issue p =
        JS.Normal (_updateCounts sdk (set_views (alter (updateView sdk) ref (views p)) p))
    | None =>
        ∃ view warnings,
          newView sdk issue = JS.Normal (view, warnings) ∧
          _updateAggregatedIssueView sdk issue p =
          JS.Normal {| _issueViews := _issueViews p ++ [(codeOf sdk issue, length (views p))];
                       views := views p ++ [view];
                       shown := shown p ++ [length (views p)];
                       _toolbarIssuesCount := numberOfAggregatedIssues sdk;
                       console := console p ++ warnings |}
    end
  else
    _updateAggregatedIssueView sdk issue p =
    JS.Normal (warn (UnknownIssueCode (codeOf sdk issue)) p).
Proof.
  unfold _updateAggregatedIssueView. fold (codeOf sdk issue).
  destruct (inIssueDetails (codeOf sdk issue)) eqn:Hin; simpl; [|done].
  destruct (JSMap.get (codeOf sdk issue) (_issueViews p)) as [ref|] eqn:Hget.
  - assert (JSMap.has (codeOf sdk issue) (_issueViews p) = true) as ->
      by (apply JSMap_has_get; by rewrite Hget).
    simpl. by rewrite Hget.
  - assert (JSMap.has (codeOf sdk issue) (_issueViews p) = false) as ->.
    { apply not_true_is_false. rewrite JSMap_has_get, Hget. by intros [? ?]. }
    destruct (newView_spec sdk issue Hin) as (view & warnings & Hnew & _ & _ & _ & Hup & _).
    exists view, warnings. split; [done|]. rewrite Hnew. simpl.
    pose proof (foldl_warn_fields warnings (set_views (views p ++ [view]) p)) as Hw.
    cbv zeta in Hw.
    set (q := foldl (λ p m, warn m p) (set_views (views p ++ [view]) p) warnings) in *.
    clearbody q. destruct q as [qm qv qs qc qw]. simpl in Hw |- *.
    destruct Hw as (-> & -> & -> & -> & ->).
    rewrite JSMap_get_set_fresh by done. simpl.
    rewrite (JSMap_set_fresh _ _ _ (proj1 (JSMap_get_None _ _) Hget)).
    unfold _updateCounts, set_toolbarIssuesCount, set_views. simpl. do 2 f_equal.
    rewrite (alter_app_r_alt _ _ _ (length (views p))) by lia.
    rewrite Nat.sub_diag. simpl. by rewrite Hup.
Qed.

Lemma unknownCodes_app (ms1 ms2 : list ConsoleMessage) :
  unknownCodes (ms1 ++ ms2) = unknownCodes ms1 ++ unknownCodes ms2.
Proof. unfold unknownCodes. apply omap_app. Qed.

(** The loop over the issues of the model. The issues whose code passes
    the guard and has no view yet, each code at its first issue, get the
    views that are created; views that the map does not name stay as they
    are. *)
Lemma updateAll_spec sdk (issues : list nat) p :
  ∃ p', updateAll sdk issues p = JS.Normal p' ∧
    let fresh := firstSeenFrom (codeOf sdk) (JSMap.keys (_issueViews p))
                   (accepted sdk issues) in
    let n := length (views p) in
    _issueViews p' = _issueViews p ++ imap (λ k i, (codeOf sdk i, n + k)) fresh ∧
    length (views p') = n + length fresh ∧
    shown p' = shown p ++ seq n (length fresh) ∧
    (∀ k i, fresh !! k = Some i →
       ∃ v, views p' !! (n + k) = Some v ∧ _issue v = i ∧
            collapsed v = true ∧ detached v = false ∧ updateView sdk v = v) ∧
    (∀ r v, views p !! r = Some v →
       ∃ v', views p' !! r = Some v' ∧ (v' = v ∨ v' = updateView sdk v)) ∧
    (∀ r, r ∉ JSMap.values (_issueViews p) → (r < n)%nat → views p' !! r = views p !! r) ∧
    _toolbarIssuesCount p' =
      (if bool_decide (accepted sdk issues = []) then _toolbarIssuesCount p
       else numberOfAggregatedIssues sdk) ∧
    unknownCodes (console p') =
      unknownCodes (console p) ++ (codeOf sdk <$> refused sdk issues).
Proof.
  cbv zeta. revert p. induction issues as [|issue issues IH]; intros p.
  - exists p. unfold accepted, refused. simpl. rewrite !app_nil_r, Nat.add_0_r.
    split_and!; try done.
    intros r v ?. exists v. by split; [|left].
  - simpl. pose proof (updateAggregatedIssueView_step sdk issue p) as Hstep.
    unfold accepted, refused. rewrite !filter_cons.
    destruct (inIssueDetails (codeOf sdk issue)) eqn:Hin.
    + rewrite decide_True by done. rewrite decide_False by done.
      fold (accepted sdk issues) (refused sdk issues).
      rewrite bool_decide_eq_false_2 by done.
      destruct (JSMap.get (codeOf sdk issue) (_issueViews p)) as [ref|] eqn:Hget.
      * (* the code has a view: it is updated where it is *)
        rewrite Hstep. simpl.
        destruct (IH (_updateCounts sdk (set_views (alter (updateView sdk) ref (views p)) p)))
          as (p' & -> & Hm & Hlen & Hsh & Hnew & Hold & Hkeep & Hcnt & Hcon).
        simpl in *. rewrite length_alter in *.
        assert (Hknown : codeOf sdk issue ∈ JSMap.keys (_issueViews p)).
        { destruct (decide (codeOf sdk issue ∈ JSMap.keys (_issueViews p))) as [|Hn]; [done|].
          apply JSMap_get_None in Hn. congruence. }
        rewrite decide_True by done.
        exists p'. split_and!; try done.
        -- intros r v Hv.
           destruct (decide (r = ref)) as [->|Hne].
           ++ destruct (Hold ref (updateView sdk v)) as (v' & Hv' & Hcase).
              { rewrite list_lookup_alter, decide_True by done. by rewrite Hv. }
              exists v'. split; [done|]. destruct Hcase as [->| ->]; by right.
           ++ apply Hold. by rewrite list_lookup_alter_ne.
        -- intros r Hr Hlt. rewrite Hkeep by done.
           rewrite list_lookup_alter_ne; [done|].
           intros <-. apply Hr. by eapply JSMap_get_values.
        -- by case_bool_decide.
      * (* the code has no view: one is created *)
        destruct Hstep as (view & warnings & Hnewv & ->). simpl.
        destruct (newView_spec sdk issue Hin)
          as (view' & warnings' & Hnewv' & Hi & Hc & Hd & Hu & Hw).
        rewrite Hnewv in Hnewv'. injection Hnewv' as <- <-.
        set (p1 := {| _issueViews := _ |}).
        destruct (IH p1) as (p' & -> & Hm & Hlen & Hsh & Hnew & Hold & Hkeep & Hcnt & Hcon).
        simpl in *. rewrite length_app in *. simpl in *.
        assert (Hfresh : codeOf sdk issue ∉ JSMap.keys (_issueViews p))
          by (by apply JSMap_get_None).
        rewrite decide_False by done.
        assert (Hseen : firstSeenFrom (codeOf sdk) (JSMap.keys (_issueViews p ++
                          [(codeOf sdk issue, length (views p))])) (accepted sdk issues) =
                        firstSeenFrom (codeOf sdk)
                          (codeOf sdk issue :: JSMap.keys (_issueViews p)) (accepted sdk issues)).
        { apply firstSeenFrom_ext. intros k. unfold JSMap.keys.
          rewrite fmap_app, elem_of_app, elem_of_cons. simpl.
          rewrite list_elem_of_singleton. tauto. }
        rewrite Hseen in *.
        set (fresh := firstSeenFrom (codeOf sdk)
                        (codeOf sdk issue :: JSMap.keys (_issueViews p))
                        (accepted sdk issues)) in *.
        exists p'. split_and!; try done.
        -- rewrite Hm, <- app_assoc. f_equal. simpl. f_equal; [by rewrite Nat.add_0_r|].
           apply imap_ext. intros k i _. simpl. f_equal. lia.
        -- simpl. lia.
        -- rewrite Hsh, <- app_assoc. simpl. do 3 f_equal. lia.
        -- intros [|k] i Hk; simpl in Hk.
           ++ injection Hk as <-. rewrite Nat.add_0_r.
              destruct (Hold (length (views p)) view) as (v' & Hv' & Hcase).
              { rewrite lookup_app_r by lia. by rewrite Nat.sub_diag. }
              exists v'. split; [done|].
              destruct Hcase as [->| ->]; [done|]. by rewrite Hu.
           ++ destruct (Hnew k i Hk) as (v & Hv & ?). exists v. split; [|done].
              rewrite <- Hv. f_equal. lia.
        -- intros r v Hv. apply Hold. by apply lookup_app_l_Some.
        -- intros r Hr Hlt. rewrite Hkeep; [|rewrite JSMap_values_app, elem_of_app|lia].
           ++ apply lookup_app_l; lia.
           ++ simpl. rewrite list_elem_of_singleton. intros [?|?]; [done|lia].
        -- by case_bool_decide.
        -- by rewrite Hcon, unknownCodes_app, Hw, app_nil_r.
    + rewrite decide_False by done. rewrite decide_True by done.
      fold (accepted sdk issues) (refused sdk issues).
      rewrite Hstep. simpl.
      destruct (IH (warn (UnknownIssueCode (codeOf sdk issue)) p))
        as (p' & -> & Hm & Hlen & Hsh & Hnew & Hold & Hkeep & Hcnt & Hcon).
      simpl in *. exists p'. split_and!; try done.
      rewrite Hcon, unknownCodes_app. simpl. by rewrite <- app_assoc.
Qed.

Lemma foldl_detach_lookup (refs : list nat) (vs : list AggregatedIssueView) (r : nat) v :
  vs !! r = Some v →
  foldl (λ vs ref, alter detachView ref vs) vs refs !! r =
  Some (if bool_decide (r ∈ refs) then detachView v else v).
Proof.
  revert vs v. induction refs as [|ref refs IH]; intros vs v Hv; simpl; [done|].
  destruct (decide (r = ref)) as [->|Hne].
  - rewrite (IH _ (detachView v)) by (by rewrite list_lookup_alter, decide_True, Hv).
    rewrite (bool_decide_eq_true_2 (ref ∈ ref :: refs)) by left. by case_bool_decide.
  - rewrite (IH _ v) by (by rewrite list_lookup_alter_ne).
    apply f_equal. rewrite (bool_decide_ext (r ∈ ref :: refs) (r ∈ refs)); [done|].
    rewrite elem_of_cons. tauto.
Qed.

Lemma foldl_detach_length (refs : list nat) (vs : list AggregatedIssueView) :
  length (foldl (λ vs ref, alter detachView ref vs) vs refs) = length vs.
Proof.
  revert vs. induction refs as [|ref refs IH]; intros vs; simpl; [done|].
  by rewrite IH, length_alter.
Qed.

Lemma imap_keys_values {A} (f : A → string) (n : nat) (l : list A) :
  JSMap.keys (imap (λ k i, (f i, n + k)) l) = f <$> l ∧
  JSMap.values (imap (λ k i, (f i, n + k)) l) = seq n (length l).
Proof.
  unfold JSMap.keys, JSMap.values. revert n.
  induction l as [|x l IH]; intros n; simpl; [done|].
  rewrite Nat.add_0_r.
  destruct (IH (S n)) as [Hk Hv].
  rewrite (imap_ext _ (λ k i, (f i, S n + k)))
    by (intros; unfold compose; f_equal; lia).
  split; f_equal; [apply Hk|apply Hv].
Qed.

(** [_fullUpdate] returns, and rebuilds the pane from the issues of the
    model. Afterwards the map has one view per code that passes the guard,
    in the order in which the codes are first met; all of these views are
    new, shown after what is left of the views shown before, collapsed and
    not detached; the view of a code shows the first issue with that code,
    with the cookies and the count that issue has now. The views the map
    named before are detached and no longer shown, the others stay as
    they are. The count is the number the
    model reports, and the console is warned once for each issue whose code
    fails the guard. *)
Theorem fullUpdate_rebuilds_the_views sdk p :
  ∃ p', _fullUpdate sdk p = JS.Normal p' ∧
    let fresh := firstSeen (codeOf sdk) (accepted sdk (aggregatedIssues sdk)) in
    let n := length (views p) in
    JSMap.keys (_issueViews p') = codeOf sdk <$> fresh ∧
    NoDup (JSMap.keys (_issueViews p')) ∧
    (∀ code, code ∈ JSMap.keys (_issueViews p') ↔
       inIssueDetails code = true ∧ code ∈ codeOf sdk <$> aggregatedIssues sdk) ∧
    JSMap.values (_issueViews p') = seq n (length fresh) ∧
    shown p' =
      filter (λ ref, ref ∉ JSMap.values (_issueViews p)) (shown p) ++ seq n (length fresh) ∧
    length (views p') = n + length fresh ∧
    (∀ k i, fresh !! k = Some i →
       ∃ v, views p' !! (n + k) = Some v ∧ _issue v = i ∧
            affectedCookies v = AggregatedIssue.cookies (aggregatedIssue sdk i) ∧
            _cookiesCount v = AggregatedIssue.numberOfCookies (aggregatedIssue sdk i) ∧
            collapsed v = true ∧ detached v = false) ∧
    (∀ r v, views p !! r = Some v →
       views p' !! r =
       Some (if bool_decide (r ∈ JSMap.values (_issueViews p)) then detachView v else v)) ∧
    _toolbarIssuesCount p' = numberOfAggregatedIssues sdk ∧
    unknownCodes (console p') =
      unknownCodes (console p) ++ (codeOf sdk <$> refused sdk (aggregatedIssues sdk)).
Proof.
  unfold _fullUpdate.
  set (p0 := set_issueViews _ _).
  destruct (updateAll_spec sdk (aggregatedIssues sdk) p0)
    as (p' & Hrun & Hm & Hlen & Hsh & Hnew & _ & Hkeep & _ & Hcon).
  rewrite Hrun. simpl. eexists. split; [done|]. cbv zeta. simpl in *.
  rewrite foldl_detach_length in *.
  fold (firstSeen (codeOf sdk) (accepted sdk (aggregatedIssues sdk))) in *.
  set (fresh := firstSeen (codeOf sdk) (accepted sdk (aggregatedIssues sdk))) in *.
  destruct (imap_keys_values (codeOf sdk) (length (views p)) fresh) as [Hk Hv].
  rewrite Hm, Hk, Hv.
  split_and!; try done.
  - apply firstSeenFrom_keys_NoDup.
  - intros code. unfold fresh, firstSeen. rewrite firstSeenFrom_keys.
    unfold accepted. rewrite !list_elem_of_fmap. split.
    + intros [(i & -> & [Hin Hi]%list_elem_of_filter) _]. split; [done|by exists i].
    + intros [Hin (i & -> & Hi)]. split; [|apply not_elem_of_nil].
      exists i. split; [done|]. by apply list_elem_of_filter.
  - intros k i Hk'. destruct (Hnew k i Hk') as (v & Hv' & Hi & Hc & Hd & Hu).
    exists v. split_and!; try done; rewrite <- Hu; simpl; by rewrite Hi.
  - intros r v Hr. rewrite Hkeep.
    + by apply foldl_detach_lookup.
    + apply not_elem_of_nil.
    + by apply lookup_lt_Some in Hr.
Qed.

(** The constructor throws a [TypeError] when there is no issues model: the
    count is read from the model before the guard [if (this._model)]. With
    a model it returns and has built the views as a full update does,
    starting from no view at all. *)
Theorem new_pane_needs_a_model :
  new JS.Null = JS.Throw JS.TypeError ∧
  new JS.Undefined = JS.Throw JS.TypeError ∧
  ∀ sdk, ∃ p,
    new (JS.Obj sdk) = JS.Normal p ∧
    let fresh := firstSeen (codeOf sdk) (accepted sdk (aggregatedIssues sdk)) in
    JSMap.keys (_issueViews p) = codeOf sdk <$> fresh ∧
    JSMap.values (_issueViews p) = seq 0 (length fresh) ∧
    shown p = seq 0 (length fresh) ∧
    length (views p) = length fresh ∧
    (∀ k i, fresh !! k = Some i →
       ∃ v, views p !! k = Some v ∧ _issue v = i ∧ collapsed v = true ∧
            affectedCookies v = AggregatedIssue.cookies (aggregatedIssue sdk i)) ∧
    _toolbarIssuesCount p = numberOfAggregatedIssues sdk ∧
    unknownCodes (console p) = codeOf sdk <$> refused sdk (aggregatedIssues sdk).
Proof.
  split_and!; [done..|]. intros sdk. unfold new. simpl.
  set (p0 := set_toolbarIssuesCount _ _).
  destruct (updateAll_spec sdk (aggregatedIssues sdk) p0)
    as (p & Hrun & Hm & Hlen & Hsh & Hnew & _ & _ & Hcnt & Hcon).
  exists p. split; [done|]. cbv zeta.
  change (length (views p0)) with 0 in *.
  change (JSMap.keys (_issueViews p0)) with (@nil string) in *.
  change (_issueViews p0) with (@nil (string * nat)) in *.
  change (shown p0) with (@nil nat) in *.
  change (console p0) with (@nil ConsoleMessage) in *.
  fold (firstSeen (codeOf sdk) (accepted sdk (aggregatedIssues sdk))) in *.
  set (fresh := firstSeen (codeOf sdk) (accepted sdk (aggregatedIssues sdk))) in *.
  destruct (imap_keys_values (codeOf sdk) 0 fresh) as [Hk Hv].
  rewrite app_nil_l in Hm. simpl in Hsh, Hcon, Hlen.
  rewrite Hm, Hk, Hv. split_and!; try done.
  - intros k i Hk'. destruct (Hnew k i Hk') as (v & Hv' & Hi & Hc & _ & Hu).
    exists v. split_and!; try done. rewrite <- Hu. simpl. by rewrite Hi.
  - rewrite Hcnt. by case_bool_decide.
Qed.

Lemma toggle_twice v : toggle None (toggle None v) = v.
Proof. destruct v. unfold toggle. simpl. by rewrite negb_involutive. Qed.

Lemma reveal_twice v : reveal (reveal v) = reveal v.
Proof. done. Qed.

Lemma set_views_same p : set_views (views p) p = p.
Proof. by destruct p. Qed.

(** Expanding and collapsing. [revealByCode] with a code that has no view
    changes nothing and does not throw; with a code that has one, that
    view ends expanded, whatever it was, and no other view changes; a
    second call changes nothing more. A click on the header of a view
    flips that view between collapsed and expanded, and two clicks leave
    the pane as it was. None of the two touches the map, the list of the
    views shown, the count or the console. *)
Theorem revealByCode_and_handleSelect (code : string) (ref : nat) p :
  (JSMap.get code (_issueViews p) = None → revealByCode code p = p) ∧
  (∀ issueView v,
     JSMap.get code (_issueViews p) = Some issueView → views p !! issueView = Some v →
     views (revealByCode code p) !! issueView = Some (reveal v) ∧
     collapsed (reveal v) = false ∧
     ∀ r, r ≠ issueView → views (revealByCode code p) !! r = views p !! r) ∧
  revealByCode code (revealByCode code p) = revealByCode code p ∧
  (∀ v, views p !! ref = Some v →
     views (handleSelect ref p) !! ref = Some (toggle None v) ∧
     collapsed (toggle None v) = negb (collapsed v) ∧
     ∀ r, r ≠ ref → views (handleSelect ref p) !! r = views p !! r) ∧
  handleSelect ref (handleSelect ref p) = p ∧
  (∀ p', p' = revealByCode code p ∨ p' = handleSelect ref p →
     _issueViews p' = _issueViews p ∧ shown p' = shown p ∧
     _toolbarIssuesCount p' = _toolbarIssuesCount p ∧ console p' = console p ∧
     length (views p') = length (views p)).
Proof.
  unfold revealByCode, handleSelect. split_and!.
  - by intros ->.
  - intros issueView v -> Hv. simpl. split_and!; [|done|].
    + by rewrite list_lookup_alter, decide_True, Hv.
    + intros r Hr. by rewrite list_lookup_alter_ne.
  - destruct (JSMap.get code (_issueViews p)) as [issueView|] eqn:Hget; simpl.
    + rewrite Hget. unfold set_views. simpl. f_equal.
      rewrite list_alter_alter_eq. apply list_alter_ext; [|done]. by intros v _.
    + by rewrite Hget.
  - intros v Hv. simpl. split_and!; [|done|].
    + by rewrite list_lookup_alter, decide_True, Hv.
    + intros r Hr. by rewrite list_lookup_alter_ne.
  - unfold set_views at 1. simpl. rewrite list_alter_alter_eq.
    rewrite list_alter_id by (intros v; apply toggle_twice). by destruct p.
  - intros p' [-> | ->]; [destruct (JSMap.get code (_issueViews p))|]; simpl;
      by rewrite ?length_alter.
Qed.

(** An event about one issue leaves the view of a code collapsed or
    expanded as it was, showing the issue it showed. The views are only
    made anew by a full update: after it the view is no longer shown, and
    every view the map names is collapsed. *)
Theorem views_stay_expanded_until_full_update sdk p (code : string) (r : nat) v :
  JSMap.get code (_issueViews p) = Some r →
  views p !! r = Some v →
  (∀ sdk' issue, ∃ p' v',
     _aggregatedIssueUpdated sdk' issue p = JS.Normal p' ∧
     views p' !! r = Some v' ∧
     collapsed v' = collapsed v ∧ detached v' = detached v ∧ _issue v' = _issue v) ∧
  ∃ p', _fullUpdate sdk p = JS.Normal p' ∧
        (r ∉ shown p') ∧
        Forall (λ r', ∃ v', views p' !! r' = Some v' ∧ collapsed v' = true)
          (JSMap.values (_issueViews p')).
Proof.
  intros Hget Hv. split.
  - intros sdk' issue. unfold _aggregatedIssueUpdated.
    destruct (updateAll_spec sdk' [issue] p) as (p' & Hrun & _ & _ & _ & _ & Hold & _).
    simpl in Hrun.
    destruct (_updateAggregatedIssueView sdk' issue p) as [p''|e]; [|done].
    simpl in Hrun. injection Hrun as ->.
    destruct (Hold r v Hv) as (v' & Hv' & Hcase).
    exists p', v'. by destruct Hcase as [->| ->].
  - unfold _fullUpdate. set (p0 := set_issueViews _ _).
    destruct (updateAll_spec sdk (aggregatedIssues sdk) p0)
      as (p' & Hrun & Hm & _ & Hsh & Hnew & _).
    rewrite Hrun. simpl. eexists. split; [done|]. simpl in *.
    rewrite foldl_detach_length in *. rewrite Hsh.
    split.
    + rewrite elem_of_app, list_elem_of_filter, elem_of_seq.
      apply lookup_lt_Some in Hv. apply JSMap_get_values in Hget.
      intros [[? _]|?]; [done|lia].
    + destruct (imap_keys_values (codeOf sdk) (length (views p))
                  (firstSeenFrom (codeOf sdk) [] (accepted sdk (aggregatedIssues sdk))))
        as [_ Hvals].
      rewrite Hm, Hvals.
      apply Forall_forall. intros r' [Hge Hlt]%elem_of_seq.
      set (fresh := firstSeenFrom _ _ _) in *.
      destruct (lookup_lt_is_Some_2 fresh (r' - length (views p))) as [i Hi]; [lia|].
      destruct (Hnew _ i Hi) as (v' & Hv' & _ & Hc & _).
      exists v'. split; [|done]. rewrite <- Hv'. f_equal. lia.
Qed.

End IssuesPaneViews.

(** On the example pane, whose one view was expanded: an event about the
    issue keeps it expanded, and a full update shows a new, collapsed
    view in its place. *)
Lemma views_stay_expanded_until_full_update_witness :
  let p := IssuesPane.revealByCode "SameSiteCookieIssue" Examples.issuesPane in
  (∃ v, IssuesPane.views p !! 0 = Some v ∧ IssuesPane.collapsed v = false) ∧
  (∃ p' v', IssuesPane._aggregatedIssueUpdated Examples.issuesSdk 0 p = JS.Normal p' ∧
            IssuesPane.views p' !! 0 = Some v' ∧ IssuesPane.collapsed v' = false) ∧
  (∃ p', IssuesPane._fullUpdate Examples.issuesSdk p = JS.Normal p' ∧
         IssuesPane.shown p' = [1]).
Proof.
  cbv zeta.
  set (p := IssuesPane.revealByCode "SameSiteCookieIssue" Examples.issuesPane).
  assert (Hv : ∃ v, IssuesPane.views p !! 0 = Some v ∧ IssuesPane.collapsed v = false)
    by (by eexists).
  split; [exact Hv|]. destruct Hv as (v & Hv & Hc).
  destruct (views_stay_expanded_until_full_update Examples.issuesSdk p
              "SameSiteCookieIssue" 0 v eq_refl Hv)
    as (Hkeep & p3 & Hfull & _).
  split.
  - destruct (Hkeep Examples.issuesSdk 0) as (p' & v' & Hrun & Hv' & Hc' & _).
    exists p', v'. by rewrite Hc' in *.
  - exists p3. split; [exact Hfull|]. vm_compute in Hfull. by injection Hfull as <-.
Defined.


(** ** The aggregate and the pane together *)
Section IssuesPaneShowsAggregate.
Context `{ConnectKeepsJSON}.
Import IssuesPane.
Implicit Types (sdk : Sdk) (p : IssuesPane.t).

(** From the issues to the rows of the pane. When the aggregated issue of
    an event was built from a list of issues by [addInstance], its code
    passes the guard and has no view yet, the event creates the view, and
    the view lists one row per distinct JSON text among the cookies of
    these issues, the first cookie met with each text, in the order they
    were met; the counter is the number of rows. *)
Theorem new_view_shows_distinct_cookies (code : string) (issues : list Issue.t)
    (h h' : Heap) sdk (issue : nat) p :
  inIssueDetails code = true →
  JSMap.get code (_issueViews p) = None →
  AggregatedIssue.addInstances (AggregatedIssue.new code) issues h =
    JS.Normal (aggregatedIssue sdk issue, h') →
  ∃ p' v,
    _aggregatedIssueUpdated sdk issue p = JS.Normal p' ∧
    JSMap.get code (_issueViews p') = Some (length (views p)) ∧
    views p' !! length (views p) = Some v ∧
    affectedCookies v = firstSeen (JSON_stringify h) (AggregatedIssue.allCookies issues) ∧
    _cookiesCount v = length (affectedCookies v) ∧
    _cookiesCount v =
      length (remove_dups (JSON_stringify h <$> AggregatedIssue.allCookies issues)) ∧
    NoDup (JSON_stringify h <$> affectedCookies v) ∧
    collapsed v = true.
Proof.
  intros Hin Hget Hrun.
  destruct (addInstances_spec (AggregatedIssue.new code) issues h) as (h1 & Hspec & _).
  rewrite Hspec in Hrun. injection Hrun as Ha _.
  assert (Hcode : codeOf sdk issue = code) by (unfold codeOf; by rewrite <- Ha).
  pose proof (updateAggregatedIssueView_step sdk issue p) as Hstep.
  rewrite Hcode, Hin, Hget in Hstep.
  destruct Hstep as (view & warnings & Hnew & Hupd).
  destruct (newView_spec sdk issue) as (view' & warnings' & Hnew' & Hi & Hc & _ & Hu & _);
    [by rewrite Hcode|].
  rewrite Hnew in Hnew'. injection Hnew' as <- <-.
  unfold _aggregatedIssueUpdated. rewrite Hupd. eexists _, view. split; [done|]. simpl.
  assert (Hrows : affectedCookies view =
                  firstSeen (JSON_stringify h) (AggregatedIssue.allCookies issues)).
  { rewrite <- Hu. simpl. rewrite Hi, <- Ha.
    unfold AggregatedIssue.cookies. simpl. by rewrite values_entriesOf. }
  assert (Hcount : _cookiesCount view = length (affectedCookies view)).
  { rewrite <- Hu. simpl. rewrite Hi.
    unfold AggregatedIssue.numberOfCookies, AggregatedIssue.cookies, JSMap.size, JSMap.values.
    by rewrite length_fmap. }
  split_and!; try done.
  - rewrite <- (JSMap_set_fresh code (length (views p)) (_issueViews p))
      by (by apply JSMap_get_None).
    by apply JSMap_get_set_fresh.
  - rewrite lookup_app_r by lia. by rewrite Nat.sub_diag.
  - rewrite Hcount, Hrows. apply firstSeen_length.
  - rewrite Hrows. apply firstSeenFrom_keys_NoDup.
Qed.

End IssuesPaneShowsAggregate.

(** On the example heap: the aggregate of the example issues, shown by a
    pane that had no view. The view lists the cookies 0 and 1. *)
Lemma new_view_shows_distinct_cookies_witness :
  IssuesPane.inIssueDetails "SameSiteCookieIssue" = true ∧
  ∃ p' v,
    IssuesPane._aggregatedIssueUpdated Examples.sdkSeen 0 (IssuesPane.empty Examples.sdkSeen)
    = JS.Normal p' ∧
    IssuesPane.views p' !! 0 = Some v ∧
    IssuesPane.affectedCookies v = [0; 1] ∧
    IssuesPane._cookiesCount v = 2.
Proof.
  split; [done|].
  assert (Hrun : ∃ h',
    @AggregatedIssue.addInstances _ Examples.issuesModel
      (AggregatedIssue.new "SameSiteCookieIssue") Examples.issuesSeen Examples.cookieHeap
    = JS.Normal (IssuesPane.aggregatedIssue Examples.sdkSeen 0, h')).
  { eexists. vm_compute. reflexivity. }
  destruct Hrun as (h' & Hrun).
  destruct (@new_view_shows_distinct_cookies _ _ example_connect_keeps_JSON
              "SameSiteCookieIssue" Examples.issuesSeen Examples.cookieHeap h'
              Examples.sdkSeen 0 (IssuesPane.empty Examples.sdkSeen) eq_refl eq_refl Hrun)
    as (p' & v & Hupd & _ & Hv & Hrows & Hcount & _).
  exists p', v. split_and!; [exact Hupd|exact Hv|by rewrite Hrows|by rewrite Hcount, Hrows].
Defined.

(** ** The rows of the affected cookies *)
Section AffectedCookieRows.
Import IssuesPane.

(** The second cell of a row is aligned: its text is one character, the
    full stop that the domain starts with or else a punctuation space,
    followed by the domain without that full stop and by the path. So the
    host names of all rows start in the same column, also for a cookie
    whose domain is empty. *)
Theorem cookieInfo_is_aligned (cookie : AffectedCookie) :
  let info := cookieInfo cookie in
  tail info = hostOf (cookieDomain cookie) ++ cookiePath cookie ∧
  (head info = Some FULL_STOP ∨ head info = Some PUNCTUATION_SPACE) ∧
  (head info = Some FULL_STOP ↔ head (cookieDomain cookie) = Some FULL_STOP) ∧
  length info = S (length (hostOf (cookieDomain cookie)) + length (cookiePath cookie)) ∧
  ∃ column, info = column :: hostOf (cookieDomain cookie) ++ cookiePath cookie.
Proof.
  cbv zeta. unfold cookieInfo, hostOf.
  destruct (cookieDomain cookie) as [|c rest]; simpl.
  - split_and!; [done|by right| |done|by eexists].
    split; [|done]. by intros [=].
  - destruct (decide (c = FULL_STOP)) as [->|Hne].
    + rewrite bool_decide_eq_false_2 by (by intros Hn; apply Hn).
      rewrite bool_decide_eq_true_2 by done. simpl.
      split_and!; [done|by left|done|by rewrite length_app|by eexists].
    + rewrite bool_decide_eq_true_2 by congruence.
      rewrite bool_decide_eq_false_2 by done. simpl.
      split_and!; [done|by right| |by rewrite length_app|by eexists].
      split; intros [=]. done.
Qed.

End AffectedCookieRows.

(** ** The header of a view *)
Section IssueViewHeader.
Context `{CookieHost}.
Import IssuesPane.

Lemma JSMap_get_elem_of {K V} `{EqDecision K} (k : K) (x : V) (m : JSMap.t K V) :
  JSMap.get k m = Some x → (k, x) ∈ m.
Proof.
  induction m as [|[k' x'] m IH]; simpl; [done|].
  case_decide; [intros [= ->]; subst; left|intros ?; right; by apply IH].
Qed.

(** The header of a new view, for a code that passes the guard. For a
    code of the table the header has the title of its entry and the text
    of the high priority, and nothing is written to the console. For a
    code that passes the guard without being in the table, which is then
    a name that [issueDetails] inherits, the details are not an entry of
    the table: the header has no title and no priority text, and the
    console is warned about the priority. *)
Theorem appendHeader_warns_for_inherited_names (sdk : Sdk) (issue : nat) :
  inIssueDetails (codeOf sdk issue) = true →
  ∃ view warnings,
    newView sdk issue = JS.Normal (view, warnings) ∧
    (isKeyOfIssueDetails (codeOf sdk issue) = true →
     warnings = [] ∧ headerPriority view = Some "High Priority" ∧
     ∃ d, (codeOf sdk issue, d) ∈ issueDetails ∧
          _details view = OwnDetails d ∧ headerTitle view = Some (title d)) ∧
    (isKeyOfIssueDetails (codeOf sdk issue) = false →
     warnings = [UnknownIssuePriority] ∧
     headerPriority view = None ∧ headerTitle view = None ∧
     _details view = PrototypeMember (codeOf sdk issue) ∧
     codeOf sdk issue ∈ ObjectPrototypeNames).
Proof.
  unfold inIssueDetails, isKeyOfIssueDetails, newView, lookupIssueDetails.
  fold (codeOf sdk issue). intros Hin%bool_decide_eq_true.
  destruct (JSMap.get (codeOf sdk issue) issueDetails) as [d|] eqn:Hget.
  - eexists _, _. split; [done|]. simpl. split.
    + intros _. destruct (priority d). split_and!; [done..|].
      exists d. split_and!; [|done..]. by apply JSMap_get_elem_of.
    + intros Hkey%bool_decide_eq_false. exfalso. apply Hkey.
      destruct (decide (codeOf sdk issue ∈ JSMap.keys issueDetails)) as [|Hn]; [done|].
      apply JSMap_get_None in Hn. congruence.
  - case_bool_decide as Hproto; [|by destruct Hin].
    eexists _, _. split; [done|]. simpl. split.
    + intros Hkey%bool_decide_eq_true. apply JSMap_get_None in Hget. done.
    + intros _. by split_and!.
Qed.

End IssueViewHeader.

(** For the two kinds of code: a code of the table, and the inherited
    name [valueOf]. *)
Lemma appendHeader_warns_for_inherited_names_witness :
  let sdk := {| IssuesPane.aggregatedIssue := λ i : nat,
                  match i with
                  | 0 => @AggregatedIssue.new Examples.cookieHost "SameSiteCookieIssue"
                  | _ => @AggregatedIssue.new Examples.cookieHost "valueOf"
                  end;
                IssuesPane.numberOfAggregatedIssues := 2;
                IssuesPane.aggregatedIssues := [0; 1] |} in
  IssuesPane.inIssueDetails (IssuesPane.codeOf sdk 0) = true ∧
  IssuesPane.inIssueDetails (IssuesPane.codeOf sdk 1) = true ∧
  (∃ view, IssuesPane.newView sdk 0 = JS.Normal (view, [])) ∧
  (∃ view, IssuesPane.newView sdk 1 = JS.Normal (view, [IssuesPane.UnknownIssuePriority])).
Proof.
  cbv zeta.
  set (sdk := {| IssuesPane.aggregatedIssue := _ |}).
  split_and!; [done..| |].
  - destruct (appendHeader_warns_for_inherited_names sdk 0 eq_refl)
      as (view & warnings & Hnew & Hown & _).
    destruct (Hown eq_refl) as (-> & _). by exists view.
  - destruct (appendHeader_warns_for_inherited_names sdk 1 eq_refl)
      as (view & warnings & Hnew & _ & Hinherited).
    destruct (Hinherited eq_refl) as (-> & _). by exists view.
Defined.

(** ** [LoggingDriver.ts] *)
Section FoldFacts.
Context {A B : Type}.

Lemma foldl_invariant (P : A → Prop) (f : A → B → A) (l : list B) (a : A) :
  P a → (∀ a b, P a → P (f a b)) → P (foldl f a l).
Proof. intros Ha Hf. revert a Ha. induction l; simpl; auto. Qed.

Lemma foldl_related (R : A → A → Prop) `{!Reflexive R, !Transitive R}
    (f : A → B → A) (l : list B) (a : A) :
  (∀ a b, R a (f a b)) → R a (foldl f a l).
Proof.
  intros Hf. revert a. induction l as [|b l IH]; intros a; simpl; [done|].
  etrans; [apply Hf|apply IH].
Qed.

End FoldFacts.

Section DriverFrame.
Import LoggingDriver DriverNotions.
Implicit Types (s : State) (env : Env).

#[global] Instance sameButObservers_refl : Reflexive sameButObservers.
Proof. intros []. reflexivity. Qed.

#[global] Instance sameButObservers_trans : Transitive sameButObservers.
Proof.
  intros [] [] []. unfold sameButObservers, set_mutationObservers. simpl.
  intros [= -> -> -> -> -> -> -> -> -> ->] [= -> -> -> -> -> -> -> -> -> ->]. reflexivity.
Qed.

#[global] Instance keepsVars_refl : Reflexive keepsVars.
Proof. intros s. unfold keepsVars. reflexivity. Qed.

#[global] Instance keepsVars_trans : Transitive keepsVars.
Proof. intros s1 s2 s3. unfold keepsVars. apply sameButObservers_trans. Qed.

Lemma keepsVars_upd_browser f s : keepsVars s (upd_browser f s).
Proof. unfold keepsVars. simpl. reflexivity. Qed.

Lemma keepsVars_upd_logs f s : keepsVars s (upd_logs f s).
Proof. unfold keepsVars. simpl. reflexivity. Qed.

Lemma keepsVars_set_observers m s :
  keepsVars s (upd_vars (set_mutationObservers m) s).
Proof. unfold keepsVars, sameButObservers. by destruct s as [[] ? ?]. Qed.

Lemma keepsVars_observeRoot s root : keepsVars s (observeRoot s root).
Proof.
  unfold observeRoot. case_match; [reflexivity|].
  etrans; [apply keepsVars_upd_browser|].
  apply (keepsVars_set_observers _ (upd_browser _ s)).
Qed.

Lemma keepsVars_observeMutations roots s : keepsVars s (observeMutations roots s).
Proof. apply (foldl_related keepsVars), keepsVars_observeRoot. Qed.

#[global] Instance quiet_refl : Reflexive quiet.
Proof. intros s. by repeat split. Qed.

#[global] Instance quiet_trans : Transitive quiet.
Proof.
  intros s1 s2 s3 (? & ? & ? & ? & ?) (? & ? & ? & ? & ?).
  repeat split; congruence.
Qed.

Lemma quiet_setLoggingState l st s : quiet s (setLoggingState l st s).
Proof. by repeat split. Qed.

Lemma quiet_getOrCreateLoggingState l c p s :
  quiet s (getOrCreateLoggingState l c p s).2.
Proof. unfold getOrCreateLoggingState. case_match; simpl; by repeat split. Qed.

Lemma quiet_unregisterLoggable l s : quiet s (unregisterLoggable l s).
Proof. by repeat split. Qed.

Lemma quiet_addDocumentListener l s : quiet s (addDocumentListener l s).
Proof. unfold addDocumentListener. case_match; by repeat split. Qed.

Lemma quiet_removeDocumentListener l s : quiet s (removeDocumentListener l s).
Proof. by repeat split. Qed.

Lemma quiet_attachHandlers env element c s : quiet s (attachHandlers env element c s).
Proof.
  unfold attachHandlers. case_match.
  - etrans; [|apply quiet_addDocumentListener].
    etrans; [|apply quiet_addDocumentListener]. by repeat split.
  - by repeat split.
Qed.

Lemma quiet_logImpressions ls s : quiet s (logImpressions ls s).
Proof. by repeat split. Qed.

Lemma quiet_processElement env acc item : quiet acc.1 (processElement env acc item).1.
Proof.
  destruct acc as [s vis], item as [element parentElement].
  unfold processElement.
  pose proof (quiet_getOrCreateLoggingState (DomElement element)
    (getLoggingConfig env element) (DomElement <$> parentElement) s) as Hq.
  destruct (getOrCreateLoggingState _ _ _ s) as [st s1]. simpl in Hq.
  repeat case_match; simplify_eq; simpl;
    repeat (etrans; [|first [apply quiet_setLoggingState|apply quiet_attachHandlers]]);
    done.
Qed.

Lemma quiet_processNonDom acc r : quiet acc.1 (processNonDom acc r).1.
Proof.
  destruct acc as [s vis]. unfold processNonDom.
  pose proof (quiet_getOrCreateLoggingState (reg_loggable r) (reg_config r)
    (reg_parent r) s) as Hq.
  destruct (getOrCreateLoggingState _ _ _ s) as [st s1]. simpl in Hq.
  case_match; simpl; [done|].
  etrans; [|apply quiet_unregisterLoggable].
  etrans; [|apply quiet_setLoggingState]. done.
Qed.

Lemma quiet_foldl_pair {B C} (f : State * C → B → State * C) (l : list B) acc :
  (∀ acc b, quiet acc.1 (f acc b).1) → quiet acc.1 (foldl f acc l).1.
Proof.
  intros Hf. revert acc. induction l as [|b l IH]; intros acc; simpl.
  - reflexivity.
  - etrans; [apply (Hf acc b)|apply IH].
Qed.

Lemma quiet_keepsVars s s' : quiet s s' → keepsVars s s'.
Proof.
  intros (Hv & _). unfold keepsVars. rewrite Hv. reflexivity.
Qed.

(** What [observeMutations] leaves alone. *)
Lemma observeRoot_frame s root :
  let s' := observeRoot s root in
  throttlers (browser s') = throttlers (browser s) ∧
  scheduleCalls (browser s') = scheduleCalls (browser s) ∧
  documentListeners (browser s') = documentListeners (browser s) ∧
  attachments (browser s') = attachments (browser s) ∧
  logs s' = logs s.
Proof. unfold observeRoot. case_match; by repeat split. Qed.

Lemma observeMutations_frame roots s :
  let s' := observeMutations roots s in
  throttlers (browser s') = throttlers (browser s) ∧
  scheduleCalls (browser s') = scheduleCalls (browser s) ∧
  documentListeners (browser s') = documentListeners (browser s) ∧
  attachments (browser s') = attachments (browser s) ∧
  logs s' = logs s.
Proof.
  unfold observeMutations. revert s.
  induction roots as [|root roots IH]; intros s; simpl; [done|].
  destruct (IH (observeRoot s root)) as (-> & -> & -> & -> & ->).
  apply observeRoot_frame.
Qed.

Lemma observeRoot_observersSchedule s root :
  observersSchedule s → observersSchedule (observeRoot s root).
Proof.
  unfold observersSchedule, observeRoot. intros Hs. case_match; [done|]. simpl.
  apply Forall_app. split; [done|]. by apply Forall_singleton.
Qed.

Lemma observeMutations_observersSchedule roots s :
  observersSchedule s → observersSchedule (observeMutations roots s).
Proof.
  intros Hs. apply (foldl_invariant observersSchedule); [done|].
  intros ???. by apply observeRoot_observersSchedule.
Qed.

Lemma quiet_observersSchedule s s' :
  quiet s s' → observersSchedule s → observersSchedule s'.
Proof. intros (_ & _ & _ & Ho & _). unfold observersSchedule. by rewrite Ho. Qed.

(** What a run of [process] leaves alone, and what it counts. *)
Lemma process_frame env s :
  let s' := process env s in
  keepsVars s s' ∧
  throttlers (browser s') = throttlers (browser s) ∧
  scheduleCalls (browser s') = scheduleCalls (browser s) ∧
  processRuns (logs s') = S (processRuns (logs s)) ∧
  (observersSchedule s → observersSchedule s').
Proof.
  cbv zeta. unfold process.
  set (s0 := upd_logs _ s).
  destruct (hidden env); [split_and!; [apply keepsVars_upd_logs|done..]|].
  set (dom := getDomState env (documents (vars s0))).
  set (s1 := observeMutations (shadowRoots dom) s0).
  pose proof (quiet_foldl_pair (processElement env) (loggables dom) (s1, [])
    (quiet_processElement env)) as Hq2.
  destruct (foldl (processElement env) (s1, []) (loggables dom)) as [s2 vis2].
  pose proof (quiet_foldl_pair processNonDom (getNonDomState s2) (s2, vis2)
    quiet_processNonDom) as Hq3.
  destruct (foldl processNonDom (s2, vis2) (getNonDomState s2)) as [s3 vis3].
  simpl in Hq2, Hq3.
  assert (Hq : quiet s1 (upd_logs (λ lg, set_processingDone (S (processingDone lg)) lg)
                           (logImpressions vis3 s3))).
  { etrans; [exact Hq2|]. etrans; [exact Hq3|]. by repeat split; apply Hq3. }
  destruct (observeMutations_frame (shadowRoots dom) s0) as (Ht & Hc & _ & _ & Hl).
  fold s1 in Ht, Hc, Hl.
  pose proof Hq as (Hv' & Ht' & Hc' & Ho' & Hr').
  split_and!.
  - etrans; [|apply (quiet_keepsVars _ _ Hq)].
    etrans; [|apply keepsVars_observeMutations]. apply keepsVars_upd_logs.
  - by rewrite Ht', Ht.
  - by rewrite Hc', Hc.
  - by rewrite Hr', Hl.
  - intros Hs. apply (quiet_observersSchedule _ _ Hq).
    by apply observeMutations_observersSchedule.
Qed.

Lemma keepsVars_fields s s' :
  keepsVars s s' →
  logging (vars s') = logging (vars s) ∧
  documents (vars s') = documents (vars s) ∧
  processingThrottler (vars s') = processingThrottler (vars s) ∧
  dragLogThrottler (vars s') = dragLogThrottler (vars s) ∧
  dragStartX (vars s') = dragStartX (vars s) ∧
  dragStartY (vars s') = dragStartY (vars s).
Proof. unfold keepsVars, sameButObservers. intros ->. by repeat split. Qed.

Lemma schedule_frame t task s :
  let s' := schedule t task s in
  vars s' = vars s ∧ logs s' = logs s ∧
  observers (browser s') = observers (browser s) ∧
  documentListeners (browser s') = documentListeners (browser s) ∧
  attachments (browser s') = attachments (browser s) ∧
  scheduleCalls (browser s') = scheduleCalls (browser s) ++ [(t, task)].
Proof. unfold schedule. destruct t; by repeat split. Qed.

Lemma orNewThrottler_frame given i s :
  let s' := (orNewThrottler given i s).2 in
  vars s' = vars s ∧ logs s' = logs s ∧
  observers (browser s') = observers (browser s) ∧
  scheduleCalls (browser s') = scheduleCalls (browser s) ∧
  throttlers (browser s) `prefix_of` throttlers (browser s').
Proof.
  unfold orNewThrottler, newThrottler.
  destruct given; simpl; split_and!; try done. by apply prefix_app_r.
Qed.

Lemma keepsVars_addDocumentListener l s : keepsVars s (addDocumentListener l s).
Proof. apply quiet_keepsVars, quiet_addDocumentListener. Qed.

Lemma addDocument_logging env d s :
  logging (vars (addDocument env d s)) = logging (vars s).
Proof.
  unfold addDocument.
  set (s1 := upd_vars _ s).
  set (s2 := match readyState env d with loading => s1 | _ => process env s1 end).
  assert (Hs2 : keepsVars s1 s2).
  { unfold s2. destruct (process_frame env s1) as (Hp & _).
    destruct (readyState env d); [reflexivity|done..]. }
  assert (Hk : keepsVars s1
    (observeMutations [body env d]
       (addDocumentListener (listener d "scroll" fn_scheduleProcessing false)
          (addDocumentListener (listener d "visibilitychange" fn_scheduleProcessing false) s2)))).
  { etrans; [exact Hs2|]. etrans; [|apply keepsVars_observeMutations].
    etrans; [|apply keepsVars_addDocumentListener]. apply keepsVars_addDocumentListener. }
  apply keepsVars_fields in Hk as (-> & _). done.
Qed.

Lemma disconnectAndDelete_frame s node :
  let s' := disconnectAndDelete s node in
  keepsVars s s' ∧ logs s' = logs s ∧
  throttlers (browser s') = throttlers (browser s) ∧
  scheduleCalls (browser s') = scheduleCalls (browser s) ∧
  (observersSchedule s → observersSchedule s').
Proof.
  cbv zeta. unfold disconnectAndDelete.
  destruct (mutationObservers (vars s) !! node) as [o|]; simpl.
  - split_and!; try done.
    unfold observersSchedule. simpl. intros Hs.
    apply Forall_alter; [done|]. by intros ob _ Hob.
  - split_and!; try done.
Qed.

Lemma forgetDocument_frame env s d :
  let s' := forgetDocument env s d in
  keepsVars s s' ∧ logs s' = logs s ∧
  throttlers (browser s') = throttlers (browser s) ∧
  scheduleCalls (browser s') = scheduleCalls (browser s) ∧
  (observersSchedule s → observersSchedule s').
Proof.
  cbv zeta. unfold forgetDocument.
  set (s1 := removeDocumentListener _ (removeDocumentListener _ s)).
  destruct (disconnectAndDelete_frame s1 (body env d)) as (Hk & Hl & Ht & Hc & Ho).
  split_and!; try done.
Qed.

End DriverFrame.

Section DriverLifecycle.
Import LoggingDriver DriverNotions.
Implicit Types (s : State) (env : Env).

Lemma startLogging_logging options env s :
  isLogging (startLogging options env s) = true.
Proof.
  unfold isLogging, startLogging.
  set (s0 := upd_vars (set_logging true) s).
  pose proof (orNewThrottler_frame (options ≫= opt_processingThrottler)
    PROCESS_DOM_INTERVAL s0) as (Hv1 & _).
  destruct (orNewThrottler _ PROCESS_DOM_INTERVAL s0) as [p s1]. simpl in Hv1.
  set (s1' := upd_vars (set_processingThrottler p) s1).
  pose proof (orNewThrottler_frame (options ≫= opt_keyboardLogThrottler)
    KEYBOARD_LOG_INTERVAL s1') as (Hv2 & _).
  destruct (orNewThrottler _ KEYBOARD_LOG_INTERVAL s1') as [k s2]. simpl in Hv2.
  pose proof (orNewThrottler_frame (options ≫= opt_hoverLogThrottler)
    HOVER_LOG_INTERVAL s2) as (Hv3 & _).
  destruct (orNewThrottler _ HOVER_LOG_INTERVAL s2) as [h s3]. simpl in Hv3.
  pose proof (orNewThrottler_frame (options ≫= opt_dragLogThrottler)
    DRAG_LOG_INTERVAL s3) as (Hv4 & _).
  destruct (orNewThrottler _ DRAG_LOG_INTERVAL s3) as [d s4]. simpl in Hv4.
  pose proof (orNewThrottler_frame (options ≫= opt_clickLogThrottler)
    CLICK_LOG_INTERVAL s4) as (Hv5 & _).
  destruct (orNewThrottler _ CLICK_LOG_INTERVAL s4) as [c s5]. simpl in Hv5.
  pose proof (orNewThrottler_frame (options ≫= opt_resizeLogThrottler)
    RESIZE_LOG_INTERVAL s5) as (Hv6 & _).
  destruct (orNewThrottler _ RESIZE_LOG_INTERVAL s5) as [r s6]. simpl in Hv6.
  rewrite addDocument_logging. simpl.
  rewrite Hv6, Hv5, Hv4, Hv3, Hv2. simpl. by rewrite Hv1.
Qed.

Lemma stopLogging_vars env s :
  let s' := stopLogging env s in
  logging (vars s') = false ∧ documents (vars s') = [] ∧
  processingThrottler (vars s') = noOpThrottler.
Proof.
  cbv zeta. unfold stopLogging.
  set (s1 := unregisterAllLoggables (upd_vars (set_logging false) s)).
  set (s2 := foldl (forgetDocument env) s1 (documents (vars s1))).
  set (s3 := foldl disconnectAndDelete s2 _).
  assert (H12 : keepsVars s1 s2).
  { apply (foldl_related keepsVars). intros a d. apply forgetDocument_frame. }
  assert (H23 : keepsVars s2 s3).
  { apply (foldl_related keepsVars). intros a d. apply disconnectAndDelete_frame. }
  assert (H13 : keepsVars s1 s3) by (by etrans).
  apply keepsVars_fields in H13 as (Hl & _).
  split_and!; [|done..]. simpl. by rewrite Hl.
Qed.

Lemma scheduleProcessing_noOp s :
  processingThrottler (vars s) = noOpThrottler →
  scheduleProcessing s =
  upd_browser (λ b,
    set_scheduleCalls (scheduleCalls b ++ [(noOpThrottler, ProcessForLogging)]) b) s.
Proof. unfold scheduleProcessing. by intros ->. Qed.

Lemma iter_scheduleProcessing_noOp n s :
  processingThrottler (vars s) = noOpThrottler →
  let s' := Nat.iter n scheduleProcessing s in
  vars s' = vars s ∧ logs s' = logs s ∧
  throttlers (browser s') = throttlers (browser s) ∧
  observers (browser s') = observers (browser s) ∧
  scheduleCalls (browser s') =
    scheduleCalls (browser s) ++ replicate n (noOpThrottler, ProcessForLogging).
Proof.
  intros Hno. cbv zeta. induction n as [|n IH]; simpl.
  - by rewrite app_nil_r.
  - destruct IH as (Hv & Hl & Ht & Ho & Hc).
    rewrite scheduleProcessing_noOp by (by rewrite Hv). simpl.
    split_and!; try done.
    rewrite Hc, <- app_assoc. f_equal.
    change (?x :: replicate n ?x) with (replicate (S n) x).
    by rewrite replicate_S_end.
Qed.

End DriverLifecycle.

Section DriverDrag.
Import LoggingDriver DriverNotions.
Implicit Types (s : State) (env : Env).
Local Open Scope Z_scope.

Lemma maybeCancelDrag_cases s (x y : Z) :
  (Z.abs (x - dragStartX (vars s)) < 50 ∧ Z.abs (y - dragStartY (vars s)) < 50 →
   maybeCancelDrag (MouseEvent x y) s =
   schedule (dragLogThrottler (vars s)) CancelLogging s) ∧
  (50 ≤ Z.abs (x - dragStartX (vars s)) ∨ 50 ≤ Z.abs (y - dragStartY (vars s)) →
   maybeCancelDrag (MouseEvent x y) s = s).
Proof.
  unfold maybeCancelDrag, DRAG_REPORT_THRESHOLD.
  destruct (bool_decide (50 ≤ Z.abs (x - dragStartX (vars s)))) eqn:Hx;
    [apply bool_decide_eq_true in Hx|apply bool_decide_eq_false in Hx];
  (destruct (bool_decide (50 ≤ Z.abs (y - dragStartY (vars s)))) eqn:Hy;
    [apply bool_decide_eq_true in Hy|apply bool_decide_eq_false in Hy]); simpl;
  split; try done; lia.
Qed.

Lemma pendingOn_schedule (r : nat) task s :
  (r < length (throttlers (browser s)))%nat →
  pendingOn (ThrottlerObject r) (schedule (ThrottlerObject r) task s) = Some task.
Proof.
  intros Hlen. simpl. rewrite list_lookup_alter, decide_True by done.
  by destruct (lookup_lt_is_Some_2 (throttlers (browser s)) r Hlen) as [th ->].
Qed.

(** C6. For a mouse event with screen position [(x, y)], [maybeCancelDrag]
    calls [dragLogThrottler.schedule(cancelLogging)] exactly when the
    pointer is less than [DRAG_REPORT_THRESHOLD] = 50 away from where the
    drag started, on the x axis and on the y axis; the cancellation then
    replaces what was pending on that throttler. When it is 50 or more
    away on one of the axes, the state, and with it the pending log of the
    drag, stays as it is. *)
Theorem maybeCancelDrag_threshold s (x y : Z) :
  let moved_x := Z.abs (x - dragStartX (vars s)) in
  let moved_y := Z.abs (y - dragStartY (vars s)) in
  let s' := maybeCancelDrag (MouseEvent x y) s in
  DRAG_REPORT_THRESHOLD = 50 ∧
  (scheduleCalls (browser s') =
     scheduleCalls (browser s) ++ [(dragLogThrottler (vars s), CancelLogging)]
   ↔ moved_x < 50 ∧ moved_y < 50) ∧
  (moved_x < 50 ∧ moved_y < 50 →
   s' = schedule (dragLogThrottler (vars s)) CancelLogging s ∧
   ∀ r, dragLogThrottler (vars s) = ThrottlerObject r →
        (r < length (throttlers (browser s)))%nat →
        pendingOn (dragLogThrottler (vars s)) s' = Some CancelLogging) ∧
  (50 ≤ moved_x ∨ 50 ≤ moved_y →
   s' = s ∧ pendingOn (dragLogThrottler (vars s)) s' = pendingOn (dragLogThrottler (vars s)) s).
Proof.
  cbv zeta. destruct (maybeCancelDrag_cases s x y) as [Hnear Hfar].
  split_and!; [done| | |].
  - split.
    + intros Hcalls.
      destruct (decide (Z.abs (x - dragStartX (vars s)) < 50 ∧
                        Z.abs (y - dragStartY (vars s)) < 50)) as [|Hn]; [done|].
      rewrite Hfar in Hcalls by lia.
      apply (f_equal length) in Hcalls. rewrite length_app in Hcalls.
      simpl in Hcalls. lia.
    + intros Hlt. rewrite (Hnear Hlt).
      by destruct (schedule_frame (dragLogThrottler (vars s)) CancelLogging s)
        as (_ & _ & _ & _ & _ & ->).
  - intros Hlt. rewrite (Hnear Hlt). split; [done|].
    intros r Hr Hlen. rewrite Hr. by apply pendingOn_schedule.
  - intros Hge. by rewrite (Hfar Hge).
Qed.

(** A drag that is started and then ended. *)
Lemma maybeCancelDrag_after_onDragStart s (x0 y0 x y : Z) (r : nat) :
  dragLogThrottler (vars s) = ThrottlerObject r →
  (r < length (throttlers (browser s)))%nat →
  let s' := maybeCancelDrag (MouseEvent x y) (onDragStart (MouseEvent x0 y0) s) in
  pendingOn (ThrottlerObject r) s' =
    if bool_decide (Z.abs (x - x0) < 50 ∧ Z.abs (y - y0) < 50)
    then Some CancelLogging
    else Some (DragLog (MouseEvent x0 y0)).
Proof.
  intros Hr Hlen. cbv zeta.
  set (s1 := onDragStart (MouseEvent x0 y0) s).
  assert (Hs1 : dragStartX (vars s1) = x0 ∧ dragStartY (vars s1) = y0 ∧
                dragLogThrottler (vars s1) = ThrottlerObject r ∧
                pendingOn (ThrottlerObject r) s1 = Some (DragLog (MouseEvent x0 y0)) ∧
                (r < length (throttlers (browser s1)))%nat).
  { unfold s1, onDragStart, logDrag. simpl. rewrite Hr. simpl.
    rewrite list_lookup_alter, length_alter.
    destruct (lookup_lt_is_Some_2 (throttlers (browser s)) r Hlen) as [th ->].
    by rewrite decide_True. }
  destruct Hs1 as (Hx0 & Hy0 & Hd & Hp & Hlen1).
  destruct (maybeCancelDrag_cases s1 x y) as [Hnear Hfar].
  rewrite Hx0, Hy0 in Hnear, Hfar. rewrite Hd in Hnear.
  case_bool_decide as Hdec.
  - rewrite (Hnear Hdec). by apply pendingOn_schedule.
  - rewrite Hfar by lia. done.
Qed.

End DriverDrag.

Section DriverObservers.
Import LoggingDriver DriverNotions.
Implicit Types (s : State) (env : Env) (root node : Node).

Lemma elem_of_observedNodes node s :
  node ∈ observedNodes s ↔ is_Some (mutationObservers (vars s) !! node).
Proof.
  unfold observedNodes. rewrite list_elem_of_fmap. split.
  - intros ([n o] & -> & Hin). apply elem_of_map_to_list in Hin. by exists o.
  - intros [o Ho]. exists (node, o). split; [done|]. by apply elem_of_map_to_list.
Qed.

Lemma observeRoot_observed s root :
  is_Some (mutationObservers (vars s) !! root) → observeRoot s root = s.
Proof. intros [o Ho]. unfold observeRoot. by rewrite Ho. Qed.

Lemma observeRoot_new s root :
  mutationObservers (vars s) !! root = None →
  let s' := observeRoot s root in
  observers (browser s') = observers (browser s) ++ [newObserver root] ∧
  mutationObservers (vars s') =
    <[root := length (observers (browser s))]> (mutationObservers (vars s)).
Proof. intros Hn. unfold observeRoot. by rewrite Hn. Qed.

Lemma observeMutations_spec roots s (seen : list Node) :
  (∀ node, node ∈ seen ↔ is_Some (mutationObservers (vars s) !! node)) →
  let created := firstSeenFrom id seen roots in
  let s' := observeMutations roots s in
  observers (browser s') = observers (browser s) ++ (newObserver <$> created) ∧
  (∀ i root, created !! i = Some root →
     mutationObservers (vars s') !! root = Some (length (observers (browser s)) + i)) ∧
  (∀ root, root ∉ created →
     mutationObservers (vars s') !! root = mutationObservers (vars s) !! root).
Proof.
  cbv zeta. unfold observeMutations.
  revert s seen. induction roots as [|root roots IH]; intros s seen Hseen; simpl.
  - rewrite app_nil_r. split_and!; [done| |done]. by intros i root ?.
  - unfold id at 1 3. destruct (decide (root ∈ seen)) as [Hin|Hin].
    + rewrite observeRoot_observed by (by apply Hseen). by apply IH.
    + assert (Hnone : mutationObservers (vars s) !! root = None).
      { apply eq_None_not_Some. by rewrite <- Hseen. }
      destruct (observeRoot_new s root Hnone) as (Hobs & Hmap).
      destruct (IH (observeRoot s root) (root :: seen)) as (Ho & Hnew & Hold).
      { intros node. rewrite Hmap, elem_of_cons, Hseen.
        destruct (decide (node = root)) as [->|Hne].
        - rewrite lookup_insert_eq. split; [by eauto|by left].
        - rewrite lookup_insert_ne by done. intuition congruence. }
      assert (Hfresh : root ∉ firstSeenFrom id (root :: seen) roots).
      { intros Hr.
        assert (root ∈ id <$> firstSeenFrom id (root :: seen) roots) as Hr'
          by (by rewrite list_fmap_id).
        apply firstSeenFrom_keys in Hr' as [_ Hr']. apply Hr'. left. }
      split_and!.
      * rewrite Ho, Hobs, <- app_assoc. done.
      * intros [|i] r Hi; simpl in Hi.
        -- injection Hi as <-. rewrite Hold by done.
           rewrite Hmap, lookup_insert_eq. f_equal. lia.
        -- rewrite (Hnew i r Hi), Hobs, length_app. simpl. f_equal. lia.
      * intros r Hr. apply not_elem_of_cons in Hr as [Hne Hr].
        rewrite Hold by done. rewrite Hmap. by rewrite lookup_insert_ne.
Qed.

Lemma observeMutations_all_observed roots s :
  (∀ root, root ∈ roots → is_Some (mutationObservers (vars s) !! root)) →
  observeMutations roots s = s.
Proof.
  unfold observeMutations. induction roots as [|root roots IH]; intros Hall; simpl.
  - done.
  - rewrite observeRoot_observed by (apply Hall; left).
    apply IH. intros r Hr. apply Hall. by right.
Qed.

Lemma filter_length_le_1 {A} (P : A → Prop) `{∀ x, Decision (P x)} (l : list A) :
  (∀ i j x y, l !! i = Some x → l !! j = Some y → P x → P y → i = j) →
  (length (filter P l) ≤ 1)%nat.
Proof.
  induction l as [|a l IH]; intros Huniq; simpl; [lia|].
  rewrite filter_cons. destruct (decide (P a)) as [Ha|Ha].
  - destruct (filter P l) as [|b l'] eqn:Hf; simpl; [lia|].
    assert (b ∈ filter P l) as Hb by (rewrite Hf; left).
    apply list_elem_of_filter in Hb as [HPb Hb].
    apply list_elem_of_lookup in Hb as [j Hj].
    specialize (Huniq 0 (S j) a b eq_refl Hj Ha HPb). lia.
  - apply IH. intros i j x y Hi Hj Hx Hy.
    specialize (Huniq (S i) (S j) x y Hi Hj Hx Hy). lia.
Qed.

Lemma observersRegistered_initial : observersRegistered initial.
Proof. intros i o Hi. simpl in Hi. by rewrite lookup_nil in Hi. Qed.

Lemma observersRegistered_observeMutations roots s :
  observersRegistered s → observersRegistered (observeMutations roots s).
Proof.
  intros HJ.
  destruct (observeMutations_spec roots s (observedNodes s)
              (λ node, elem_of_observedNodes node s)) as (Hobs & Hnew & Hold).
  intros i o Hi. rewrite Hobs in Hi.
  apply lookup_app_Some in Hi as [Hi|[Hlen Hi]].
  - destruct (HJ i o Hi) as (root & -> & Hroot). exists root. split; [done|].
    destruct (decide (root ∈ firstSeenFrom id (observedNodes s) roots)) as [Hin|Hin].
    + assert (root ∈ id <$> firstSeenFrom id (observedNodes s) roots) as Hin'
        by (by rewrite list_fmap_id).
      apply firstSeenFrom_keys in Hin' as [_ Hn]. exfalso. apply Hn.
      apply elem_of_observedNodes. by exists i.
    + by rewrite Hold.
  - rewrite list_lookup_fmap in Hi.
    destruct (firstSeenFrom id (observedNodes s) roots !! (i - length (observers (browser s))))
      as [root|] eqn:Hroot; [|done].
    simpl in Hi. injection Hi as <-. exists root. split; [done|].
    rewrite (Hnew _ _ Hroot). f_equal. lia.
Qed.

Lemma observersRegistered_at_most_one node s :
  observersRegistered s → (length (observersOf node s) ≤ 1)%nat.
Proof.
  intros HJ. unfold observersOf. apply filter_length_le_1.
  intros i j x y Hi Hj Hx Hy.
  destruct (HJ i x Hi) as (rx & -> & Hrx), (HJ j y Hj) as (ry & -> & Hry).
  simpl in Hx, Hy. apply list_elem_of_singleton in Hx, Hy. subst. congruence.
Qed.

Lemma disconnectAndDelete_map s node :
  mutationObservers (vars (disconnectAndDelete s node)) =
  delete node (mutationObservers (vars s)).
Proof. unfold disconnectAndDelete. by case_match. Qed.

Lemma forgetDocument_map env s (d : Document) :
  mutationObservers (vars (forgetDocument env s d)) =
  delete (body env d) (mutationObservers (vars s)).
Proof. unfold forgetDocument. by rewrite disconnectAndDelete_map. Qed.

(** A loop that deletes an entry at each turn: no entry comes back, and
    the entries of the nodes it went through are gone. *)
Lemma foldl_delete_lookup {B} (f : State → B → State) (g : B → Node) (l : list B) s :
  (∀ a b, mutationObservers (vars (f a b)) = delete (g b) (mutationObservers (vars a))) →
  (∀ node, mutationObservers (vars s) !! node = None →
           mutationObservers (vars (foldl f s l)) !! node = None) ∧
  (∀ b, b ∈ l → mutationObservers (vars (foldl f s l)) !! g b = None).
Proof.
  intros Hf. revert s. induction l as [|b l IH]; intros s; simpl.
  - split; [done|]. by intros b ?%elem_of_nil.
  - destruct (IH (f s b)) as [Hkeep Hgone]. split.
    + intros node Hn. apply Hkeep. rewrite Hf.
      destruct (decide (g b = node)) as [->|Hne];
        [apply lookup_delete_eq|by rewrite lookup_delete_ne].
    + intros b' [->|Hb']%elem_of_cons; [|by apply Hgone].
      apply Hkeep. rewrite Hf. apply lookup_delete_eq.
Qed.

Lemma stopLogging_forgets_bodies env s (d : Document) :
  d ∈ documents (vars s) →
  mutationObservers (vars (stopLogging env s)) !! body env d = None.
Proof.
  intros Hd. unfold stopLogging.
  set (s1 := unregisterAllLoggables (upd_vars (set_logging false) s)).
  set (s2 := foldl (forgetDocument env) s1 (documents (vars s1))).
  set (s3 := foldl disconnectAndDelete s2 _).
  destruct (foldl_delete_lookup (forgetDocument env) (body env) (documents (vars s1)) s1
              (forgetDocument_map env)) as [_ Hgone].
  destruct (foldl_delete_lookup disconnectAndDelete id
              (shadowRoots (getDomState env (documents (vars s2)))) s2
              disconnectAndDelete_map) as [Hkeep _].
  simpl. apply Hkeep. by apply Hgone.
Qed.

(** C9, as amended. A call of [observeMutations] leaves the entry of every
    root that has one as it is, and leaves the observers there are as they
    are; it creates one observer, calling [scheduleProcessing], for each
    distinct root of the list that has no entry, and registers it for that
    root; entries of nodes outside the list stay. When every root of the
    list has an entry the call changes nothing, so a call repeated with the
    same list changes nothing. Along calls of [observeMutations] from the
    start, a node never has more than one observer. [stopLogging] deletes
    the entry of the body of every document, so that the next call for it
    creates an observer again. *)
Theorem observeMutations_per_root :
  (∀ (roots : list Node) s,
     let s' := observeMutations roots s in
     let created := firstSeenFrom id (observedNodes s) roots in
     (∀ root o, mutationObservers (vars s) !! root = Some o →
                mutationObservers (vars s') !! root = Some o) ∧
     observers (browser s') = observers (browser s) ++ (newObserver <$> created) ∧
     NoDup created ∧
     (∀ root, root ∈ created ↔
              root ∈ roots ∧ mutationObservers (vars s) !! root = None) ∧
     (∀ i root, created !! i = Some root →
        mutationObservers (vars s') !! root = Some (length (observers (browser s)) + i)) ∧
     (∀ root, root ∉ roots →
        mutationObservers (vars s') !! root = mutationObservers (vars s) !! root) ∧
     ((∀ root, root ∈ roots → is_Some (mutationObservers (vars s) !! root)) → s' = s) ∧
     observeMutations roots s' = s') ∧
  (∀ (calls : list (list Node)) node,
     (length (observersOf node
                (foldl (λ s roots, observeMutations roots s) initial calls)) ≤ 1)%nat) ∧
  (∀ env s (d : Document),
     d ∈ documents (vars s) →
     mutationObservers (vars (stopLogging env s)) !! body env d = None).
Proof.
  split_and!; [| |apply stopLogging_forgets_bodies].
  - intros roots s. cbv zeta.
    destruct (observeMutations_spec roots s (observedNodes s)
                (λ node, elem_of_observedNodes node s)) as (Hobs & Hnew & Hold).
    assert (Hmem : ∀ root, root ∈ firstSeenFrom id (observedNodes s) roots ↔
                           root ∈ roots ∧ mutationObservers (vars s) !! root = None).
    { intros root.
      rewrite <- (list_fmap_id (firstSeenFrom id (observedNodes s) roots)) at 1.
      rewrite firstSeenFrom_keys, list_fmap_id, elem_of_observedNodes.
      by rewrite eq_None_not_Some. }
    split_and!; try done.
    + intros root o Ho. rewrite Hold; [done|].
      rewrite Hmem. intros [_ Hn]. congruence.
    + rewrite <- (list_fmap_id (firstSeenFrom id (observedNodes s) roots)).
      apply firstSeenFrom_keys_NoDup.
    + intros root Hr. apply Hold. rewrite Hmem. tauto.
    + apply observeMutations_all_observed.
    + apply observeMutations_all_observed. intros root Hr.
      destruct (mutationObservers (vars s) !! root) as [o|] eqn:Ho.
      * exists o. rewrite Hold; [done|]. rewrite Hmem. intros [_ ?]. congruence.
      * assert (root ∈ firstSeenFrom id (observedNodes s) roots) as Hin
          by (by apply Hmem).
        apply list_elem_of_lookup in Hin as [i Hi]. rewrite (Hnew i root Hi). eauto.
  - intros calls node. apply observersRegistered_at_most_one.
    apply (foldl_invariant observersRegistered).
    + apply observersRegistered_initial.
    + intros s roots. apply observersRegistered_observeMutations.
Qed.

End DriverObservers.

Section DriverRuns.
Import LoggingDriver DriverNotions.
Implicit Types (s : State) (env : Env) (root node : Node).

Lemma scheduleProcessing_frame s :
  let s' := scheduleProcessing s in
  vars s' = vars s ∧ logs s' = logs s ∧
  observers (browser s') = observers (browser s) ∧
  scheduleCalls (browser s') =
    scheduleCalls (browser s) ++ [(processingThrottler (vars s), ProcessForLogging)].
Proof.
  cbv zeta. unfold scheduleProcessing.
  destruct (schedule_frame (processingThrottler (vars s)) ProcessForLogging s)
    as (? & ? & ? & _ & _ & ?).
  done.
Qed.

Lemma iter_scheduleProcessing_frame n s :
  let s' := Nat.iter n scheduleProcessing s in
  vars s' = vars s ∧ logs s' = logs s ∧
  observers (browser s') = observers (browser s).
Proof.
  cbv zeta. induction n as [|n (Hv & Hl & Ho)]; simpl; [done|].
  destruct (scheduleProcessing_frame (Nat.iter n scheduleProcessing s))
    as (-> & -> & -> & _).
  done.
Qed.

Lemma iter_shift {A} (f : A → A) n x : Nat.iter n f (f x) = f (Nat.iter n f x).
Proof. induction n as [|n IH]; simpl; [done|]. by rewrite IH. Qed.

(** Under observers that all call [scheduleProcessing], a report of
    mutations is as many calls of [scheduleProcessing] as the root has
    observers. *)
Lemma mutation_schedules env root s :
  observersSchedule s →
  mutation env root s =
  Nat.iter (length (observersOf root s)) scheduleProcessing s.
Proof.
  unfold observersSchedule, mutation, observersOf.
  generalize (observers (browser s)) as l. intros l Hl. revert s.
  induction Hl as [|o l Ho Hl IH]; intros s; simpl; [done|].
  rewrite filter_cons, IH. unfold notifyObserver.
  destruct (decide (root ∈ (targets o).*1)) as [Hin|Hin].
  - rewrite bool_decide_eq_true_2 by done. rewrite Ho. simpl.
    by rewrite iter_shift.
  - by rewrite bool_decide_eq_false_2.
Qed.

Lemma fire_frame env r s :
  let s' := fire env r s in
  keepsVars s s' ∧
  (observersSchedule s → observersSchedule s') ∧
  (processRuns (logs s) ≤ processRuns (logs s') ≤ S (processRuns (logs s)))%nat ∧
  scheduleCalls (browser s') = scheduleCalls (browser s) ∧
  pendingOn (ThrottlerObject r) s' = None ∧
  (pendingOn (ThrottlerObject r) s = None → s' = s) ∧
  (pendingOn (ThrottlerObject r) s = Some ProcessForLogging →
   processRuns (logs s') = S (processRuns (logs s))).
Proof.
  cbv zeta. unfold fire, pendingOn. simpl.
  destruct (throttlers (browser s) !! r) as [th|] eqn:Hth; simpl;
    [|split_and!; try done; try reflexivity; try lia; by rewrite ?Hth].
  destruct (pending th) as [task|] eqn:Hp; simpl;
    [|split_and!; try done; try reflexivity; try lia; by rewrite ?Hth].
  set (s1 := upd_browser _ s).
  assert (Hs1 : throttlers (browser s1) !! r ≫= pending = None).
  { simpl. rewrite list_lookup_insert_eq; [done|]. by apply lookup_lt_Some in Hth. }
  destruct task as [| |e]; cbn [runTask cancelLogging].
  - destruct (process_frame env s1) as (Hk & Ht & Hc & Hr & Ho).
    split_and!; try done; try (rewrite Hr; simpl; lia).
    by rewrite Ht.
  - unfold cancelLogging.
    split_and!; try done; try apply keepsVars_upd_browser; simpl; lia.
  - split_and!; try done; try (simpl; lia).
    etrans; [apply keepsVars_upd_browser|apply keepsVars_upd_logs].
Qed.

Lemma addDocument_frame env d s :
  let s' := addDocument env d s in
  sameButObservers (set_documents (documents (vars s')) (vars s)) (vars s') ∧
  throttlers (browser s') = throttlers (browser s) ∧
  scheduleCalls (browser s') = scheduleCalls (browser s) ∧
  (observersSchedule s → observersSchedule s') ∧
  (processRuns (logs s) ≤ processRuns (logs s') ≤ S (processRuns (logs s)))%nat.
Proof.
  cbv zeta. unfold addDocument.
  set (s1 := upd_vars _ s).
  set (s2 := match readyState env d with loading => s1 | _ => process env s1 end).
  assert (Hs2 : keepsVars s1 s2 ∧
                throttlers (browser s2) = throttlers (browser s1) ∧
                scheduleCalls (browser s2) = scheduleCalls (browser s1) ∧
                (observersSchedule s1 → observersSchedule s2) ∧
                (processRuns (logs s1) ≤ processRuns (logs s2) ≤ S (processRuns (logs s1)))%nat).
  { unfold s2. destruct (process_frame env s1) as (Hk & Ht & Hc & Hr & Ho).
    destruct (readyState env d); split_and!; try done; try reflexivity; lia. }
  destruct Hs2 as (Hk2 & Ht2 & Hc2 & Ho2 & Hr2).
  set (s3 := addDocumentListener _ (addDocumentListener _ s2)).
  assert (Hq3 : quiet s2 s3).
  { unfold s3. etrans; [|apply quiet_addDocumentListener].
    apply quiet_addDocumentListener. }
  destruct (observeMutations_frame [body env d] s3) as (Ht4 & Hc4 & _ & _ & Hl4).
  pose proof (keepsVars_observeMutations [body env d] s3) as Hk4.
  pose proof Hq3 as (Hv3 & Ht3 & Hc3 & Hob3 & Hr3).
  assert (Hk : keepsVars s1 (observeMutations [body env d] s3)).
  { etrans; [exact Hk2|]. etrans; [apply (quiet_keepsVars _ _ Hq3)|done]. }
  split_and!.
  - pose proof (keepsVars_fields _ _ Hk) as (_ & Hd & _).
    unfold keepsVars, sameButObservers in Hk |- *. rewrite Hd. exact Hk.
  - by rewrite Ht4, Ht3, Ht2.
  - by rewrite Hc4, Hc3, Hc2.
  - intros Hs. apply observeMutations_observersSchedule.
    apply (quiet_observersSchedule _ _ Hq3). by apply Ho2.
  - rewrite Hl4, Hr3. apply Hr2.
  - rewrite Hl4, Hr3. apply Hr2.
Qed.

Lemma startLogging_unfold options env s :
  ∃ p k h d c r s6,
    startLogging options env s =
      addDocument env (document env) (upd_vars (set_throttlerVars p k h d c r) s6) ∧
    vars s6 = set_processingThrottler p (set_logging true (vars s)) ∧
    logs s6 = logs s ∧
    observers (browser s6) = observers (browser s) ∧
    scheduleCalls (browser s6) = scheduleCalls (browser s) ∧
    (options ≫= opt_processingThrottler = None →
     p = ThrottlerObject (length (throttlers (browser s))) ∧
     throttlers (browser s6) !! length (throttlers (browser s)) =
       Some {| interval := PROCESS_DOM_INTERVAL; pending := None |}).
Proof.
  unfold startLogging.
  set (s0 := upd_vars (set_logging true) s).
  destruct (orNewThrottler (options ≫= opt_processingThrottler) PROCESS_DOM_INTERVAL s0)
    as [p s1] eqn:H1.
  set (s1' := upd_vars (set_processingThrottler p) s1).
  destruct (orNewThrottler (options ≫= opt_keyboardLogThrottler) KEYBOARD_LOG_INTERVAL s1')
    as [k s2] eqn:H2.
  destruct (orNewThrottler (options ≫= opt_hoverLogThrottler) HOVER_LOG_INTERVAL s2)
    as [h s3] eqn:H3.
  destruct (orNewThrottler (options ≫= opt_dragLogThrottler) DRAG_LOG_INTERVAL s3)
    as [d s4] eqn:H4.
  destruct (orNewThrottler (options ≫= opt_clickLogThrottler) CLICK_LOG_INTERVAL s4)
    as [c s5] eqn:H5.
  destruct (orNewThrottler (options ≫= opt_resizeLogThrottler) RESIZE_LOG_INTERVAL s5)
    as [r s6] eqn:H6.
  exists p, k, h, d, c, r, s6. split; [done|].
  pose proof (orNewThrottler_frame (options ≫= opt_processingThrottler)
    PROCESS_DOM_INTERVAL s0) as F1. rewrite H1 in F1.
  pose proof (orNewThrottler_frame (options ≫= opt_keyboardLogThrottler)
    KEYBOARD_LOG_INTERVAL s1') as F2. rewrite H2 in F2.
  pose proof (orNewThrottler_frame (options ≫= opt_hoverLogThrottler)
    HOVER_LOG_INTERVAL s2) as F3. rewrite H3 in F3.
  pose proof (orNewThrottler_frame (options ≫= opt_dragLogThrottler)
    DRAG_LOG_INTERVAL s3) as F4. rewrite H4 in F4.
  pose proof (orNewThrottler_frame (options ≫= opt_clickLogThrottler)
    CLICK_LOG_INTERVAL s4) as F5. rewrite H5 in F5.
  pose proof (orNewThrottler_frame (options ≫= opt_resizeLogThrottler)
    RESIZE_LOG_INTERVAL s5) as F6. rewrite H6 in F6.
  simpl in F1, F2, F3, F4, F5, F6.
  destruct F1 as (V1 & L1 & O1 & C1 & P1), F2 as (V2 & L2 & O2 & C2 & P2),
    F3 as (V3 & L3 & O3 & C3 & P3), F4 as (V4 & L4 & O4 & C4 & P4),
    F5 as (V5 & L5 & O5 & C5 & P5), F6 as (V6 & L6 & O6 & C6 & P6).
  split_and!.
  - rewrite V6, V5, V4, V3, V2. simpl. by rewrite V1.
  - by rewrite L6, L5, L4, L3, L2, L1.
  - by rewrite O6, O5, O4, O3, O2, O1.
  - by rewrite C6, C5, C4, C3, C2, C1.
  - intros Hnone. rewrite Hnone in H1. simpl in H1. unfold newThrottler in H1.
    injection H1 as <- <-. split; [done|].
    assert (Hpre : throttlers (browser s1') `prefix_of` throttlers (browser s6)).
    { etrans; [exact P2|]. etrans; [exact P3|]. etrans; [exact P4|]. by etrans. }
    eapply prefix_lookup_Some; [|exact Hpre].
    simpl. rewrite lookup_app_r by lia. by rewrite Nat.sub_diag.
Qed.

Lemma startLogging_frame options env s :
  let s' := startLogging options env s in
  (observersSchedule s → observersSchedule s') ∧
  scheduleCalls (browser s') = scheduleCalls (browser s).
Proof.
  cbv zeta.
  destruct (startLogging_unfold options env s)
    as (p & k & h & d & c & r & s6 & -> & Hv & Hl & Ho & Hc & _).
  set (s7 := upd_vars _ s6).
  destruct (addDocument_frame env (document env) s7) as (_ & _ & Hc' & Ho' & _).
  split.
  - intros Hs. apply Ho'. unfold observersSchedule. simpl. by rewrite Ho.
  - by rewrite Hc'.
Qed.

Lemma stopLogging_frame env s :
  let s' := stopLogging env s in
  (observersSchedule s → observersSchedule s') ∧
  throttlers (browser s') = throttlers (browser s) ∧
  scheduleCalls (browser s') = scheduleCalls (browser s) ∧
  processRuns (logs s') = processRuns (logs s).
Proof.
  cbv zeta. unfold stopLogging.
  set (s1 := unregisterAllLoggables (upd_vars (set_logging false) s)).
  set (R := λ a b : State,
         (observersSchedule a → observersSchedule b) ∧
         throttlers (browser b) = throttlers (browser a) ∧
         scheduleCalls (browser b) = scheduleCalls (browser a) ∧
         processRuns (logs b) = processRuns (logs a)).
  assert (HR : ∀ {B} (f : State → B → State) (l : list B) a,
             (∀ a b, R a (f a b)) → R a (foldl f a l)).
  { intros B f l a Hf. revert a. induction l as [|b l IH]; intros a; simpl.
    - by repeat split.
    - destruct (Hf a b) as (? & ? & ? & ?), (IH (f a b)) as (? & ? & ? & ?).
      repeat split; [auto|congruence..]. }
  set (s2 := foldl (forgetDocument env) s1 (documents (vars s1))).
  assert (H12 : R s1 s2).
  { apply HR. intros a d.
    destruct (forgetDocument_frame env a d) as (_ & Hl & Ht & Hc & Ho).
    repeat split; [done..|by rewrite Hl]. }
  set (s3 := foldl disconnectAndDelete s2 _).
  assert (H23 : R s2 s3).
  { apply HR. intros a d.
    destruct (disconnectAndDelete_frame a d) as (_ & Hl & Ht & Hc & Ho).
    repeat split; [done..|by rewrite Hl]. }
  destruct H12 as (Ho2 & Ht2 & Hc2 & Hr2), H23 as (Ho3 & Ht3 & Hc3 & Hr3).
  simpl. split_and!.
  - intros Hs. apply Ho3, Ho2. done.
  - by rewrite Ht3, Ht2.
  - by rewrite Hc3, Hc2.
  - by rewrite Hr3, Hr2.
Qed.

Lemma step_observersSchedule s a :
  observersSchedule s → observersSchedule (step s a).
Proof.
  intros Hs. destruct a as [env [root|r|e|e|element|options|d| |]]; simpl.
  - rewrite mutation_schedules by done. unfold observersSchedule.
    by destruct (iter_scheduleProcessing_frame (length (observersOf root s)) s)
      as (_ & _ & ->).
  - by apply fire_frame.
  - unfold onDragStart. destruct e; [|done]. unfold logDrag.
    unfold observersSchedule.
    by destruct (schedule_frame
      (dragLogThrottler (vars (upd_vars (set_dragStart screenX screenY) s)))
      (DragLog (MouseEvent screenX screenY))
      (upd_vars (set_dragStart screenX screenY) s)) as (_ & _ & -> & _).
  - unfold maybeCancelDrag. destruct e; [|done]. case_match; [done|].
    unfold observersSchedule.
    by destruct (schedule_frame (dragLogThrottler (vars s)) CancelLogging s)
      as (_ & _ & -> & _).
  - unfold onSelectOpen. repeat case_match; try done.
    unfold observersSchedule.
    by destruct (scheduleProcessing_frame
      (setLoggingState (DomElement element) (with_selectOpen l) s)) as (_ & _ & -> & _).
  - by apply startLogging_frame.
  - by apply addDocument_frame.
  - by apply stopLogging_frame.
  - unfold observersSchedule.
    by destruct (scheduleProcessing_frame s) as (_ & _ & -> & _).
Qed.

Lemma run_observersSchedule trace : observersSchedule (run initial trace).
Proof.
  apply (foldl_invariant observersSchedule); [constructor|].
  intros s a. apply step_observersSchedule.
Qed.

(** Reports of mutations, however many, run [process] not once. *)
Lemma mutations_only_schedule (ms : list (Env * Node)) s :
  observersSchedule s →
  let s' := run s ((λ m, (m.1, Mutation m.2)) <$> ms) in
  observersSchedule s' ∧ vars s' = vars s ∧ logs s' = logs s.
Proof.
  cbv zeta. unfold run. revert s.
  induction ms as [|[env root] ms IH]; intros s Hs; simpl; [done|].
  rewrite mutation_schedules by done.
  destruct (iter_scheduleProcessing_frame (length (observersOf root s)) s)
    as (Hv & Hl & Ho).
  destruct (IH (Nat.iter (length (observersOf root s)) scheduleProcessing s))
    as (Hs' & Hv' & Hl').
  { unfold observersSchedule. by rewrite Ho. }
  split_and!; [done|by etrans; [exact Hv'|]|by etrans; [exact Hl'|]].
Qed.

End DriverRuns.

Section DriverThrottling.
Import LoggingDriver DriverNotions.
Implicit Types (s : State) (env : Env) (root node : Node).

Lemma sameButObservers_processingThrottler v v' :
  sameButObservers v v' → processingThrottler v' = processingThrottler v.
Proof. unfold sameButObservers. by intros ->. Qed.

Lemma startLogging_default_throttler (options : option Options) env s :
  options ≫= opt_processingThrottler = None →
  let s' := startLogging options env s in
  processingThrottler (vars s') = ThrottlerObject (length (throttlers (browser s))) ∧
  throttlers (browser s') !! length (throttlers (browser s)) =
    Some {| interval := PROCESS_DOM_INTERVAL; pending := None |}.
Proof.
  intros Hopt. cbv zeta.
  destruct (startLogging_unfold options env s)
    as (p & k & h & d & c & r & s6 & -> & Hv & Hl & Ho & Hc & Hnone).
  destruct (Hnone Hopt) as (-> & Hth).
  set (s7 := upd_vars _ s6).
  destruct (addDocument_frame env (document env) s7) as (Hvars & Ht & _).
  split.
  - by rewrite (sameButObservers_processingThrottler _ _ Hvars).
  - by rewrite Ht.
Qed.

(** C2. The observers that [observeMutations] creates have
    [scheduleProcessing] for callback, and calling it is calling
    [scheduleProcessing], never [process]. [scheduleProcessing] is one call
    of [processingThrottler.schedule] with the work that runs [process]; it
    runs nothing itself. Without a throttler in the options, [startLogging]
    creates the processing throttler with [PROCESS_DOM_INTERVAL] = 500.
    From any state the module can be in, reports of mutations, however
    many, do not run [process]; the firing of a throttler that follows
    runs it at most once, and a second firing with no mutation in between
    runs nothing. *)
Theorem processing_is_throttled :
  PROCESS_DOM_INTERVAL = 500%Z ∧
  (∀ (roots : list Node) s,
     Forall (λ o, callback o = fn_scheduleProcessing ∧
                  ∀ env e s0, call env (callback o) e s0 = scheduleProcessing s0)
       (drop (length (observers (browser s)))
          (observers (browser (observeMutations roots s))))) ∧
  (∀ s, let s' := scheduleProcessing s in
     s' = schedule (processingThrottler (vars s)) ProcessForLogging s ∧
     scheduleCalls (browser s') =
       scheduleCalls (browser s) ++ [(processingThrottler (vars s), ProcessForLogging)] ∧
     vars s' = vars s ∧ logs s' = logs s) ∧
  (∀ (options : option Options) env s,
     options ≫= opt_processingThrottler = None →
     let s' := startLogging options env s in
     processingThrottler (vars s') = ThrottlerObject (length (throttlers (browser s))) ∧
     throttlers (browser s') !! length (throttlers (browser s)) =
       Some {| interval := 500; pending := None |}) ∧
  (∀ (history : list (Env * Action)) (ms : list (Env * Node)) env (r : nat),
     let s := run initial history in
     let s' := run s ((λ m, (m.1, Mutation m.2)) <$> ms) in
     processRuns (logs s') = processRuns (logs s) ∧
     (processRuns (logs (fire env r s')) ≤ S (processRuns (logs s)))%nat ∧
     ∀ env', fire env' r (fire env r s') = fire env r s').
Proof.
  split_and!.
  - done.
  - intros roots s.
    destruct (observeMutations_spec roots s (observedNodes s)
                (λ node, elem_of_observedNodes node s)) as (-> & _).
    rewrite drop_app_length. apply Forall_fmap, Forall_forall. by intros root _.
  - intros s. cbv zeta.
    by destruct (scheduleProcessing_frame s) as (? & ? & _ & ?).
  - apply startLogging_default_throttler.
  - intros history ms env r. cbv zeta.
    destruct (mutations_only_schedule ms (run initial history)
                (run_observersSchedule history)) as (Hs & Hv & Hl).
    set (s' := run (run initial history) _) in *.
    destruct (fire_frame env r s') as (_ & _ & Hruns & _ & Hpend & _).
    split_and!.
    + by rewrite Hl.
    + rewrite <- Hl. lia.
    + intros env'. by apply fire_frame.
Qed.

(** On the example page, after [startLogging] has run [process] once:
    three reports of mutations run nothing and leave one piece of work on
    the processing throttler; its firing runs [process] once, and a second
    firing runs nothing. *)
Example mutations_then_firings :
  let s := startLogging None Examples.page initial in
  let reports := [ (Examples.page, Mutation 1); (Examples.page, Mutation 4);
                   (Examples.page, Mutation 1) ] in
  processRuns (logs s) = 1 ∧
  processRuns (logs (run s reports)) = 1 ∧
  pendingOn (processingThrottler (vars s)) (run s reports) = Some ProcessForLogging ∧
  processRuns (logs (run s (reports ++ [(Examples.page, ThrottlerFires 0)]))) = 2 ∧
  processRuns (logs (run s (reports ++ [(Examples.page, ThrottlerFires 0);
                                        (Examples.page, ThrottlerFires 0)]))) = 2.
Proof. by vm_compute. Qed.

(** C9 as first stated does not hold. A call with the list [1; 2] when
    only node 1 has an entry changes the map; and stopping and starting
    again creates and registers a second observer for the body, node 1, of
    the document. *)
Lemma observeMutations_counterexample :
  (let s1 := observeMutations [1] initial in
   is_Some (mutationObservers (vars s1) !! 1) ∧
   mutationObservers (vars (observeMutations [1; 2] s1)) ≠ mutationObservers (vars s1)) ∧
  (let s1 := startLogging None Examples.page initial in
   let s3 := startLogging None Examples.page (stopLogging Examples.page s1) in
   body Examples.page (document Examples.page) = 1 ∧
   mutationObservers (vars s1) !! 1 = Some 1 ∧
   observers (browser s1) !! 1 = Some (newObserver 1) ∧
   mutationObservers (vars s3) !! 1 = Some 3 ∧
   observers (browser s3) !! 3 = Some (newObserver 1)).
Proof.
  split.
  - split; [by eexists|].
    intros Heq. apply (f_equal (λ m, m !! 2)) in Heq. vm_compute in Heq. discriminate.
  - by vm_compute.
Qed.

End DriverThrottling.

Section DriverStopped.
Import LoggingDriver DriverNotions.
Implicit Types (s : State) (env : Env).

Lemma call_processingThrottler env f e s :
  processingThrottler (vars (call env f e s)) = processingThrottler (vars s).
Proof.
  destruct f; simpl.
  - by destruct (scheduleProcessing_frame s) as (-> & _).
  - destruct (process_frame env s) as (Hk & _).
    by apply keepsVars_fields in Hk as (_ & _ & -> & _).
  - done.
  - unfold onDragStart. destruct e; [|done]. unfold logDrag.
    by destruct (schedule_frame
      (dragLogThrottler (vars (upd_vars (set_dragStart screenX screenY) s)))
      (DragLog (MouseEvent screenX screenY))
      (upd_vars (set_dragStart screenX screenY) s)) as (-> & _).
  - unfold maybeCancelDrag. destruct e; [|done]. case_match; [done|].
    by destruct (schedule_frame (dragLogThrottler (vars s)) CancelLogging s) as (-> & _).
Qed.

(** Only [startLogging] gives [processingThrottler] a throttler that runs
    something. *)
Lemma step_keeps_noOp s a :
  isStartLogging a = false →
  processingThrottler (vars s) = noOpThrottler →
  processingThrottler (vars (step s a)) = noOpThrottler.
Proof.
  intros Ha Hs. destruct a as [env [root|r|e|e|element|options|d| |]]; simpl;
    try discriminate.
  - unfold mutation. generalize (observers (browser s)). intros l. revert s Hs.
    induction l as [|o l IH]; intros s Hs; simpl; [done|].
    apply IH. unfold notifyObserver. case_match; [|done].
    by rewrite call_processingThrottler.
  - destruct (fire_frame env r s) as (Hk & _).
    apply keepsVars_fields in Hk as (_ & _ & -> & _). done.
  - by rewrite (call_processingThrottler env fn_onDragStart).
  - by rewrite (call_processingThrottler env fn_maybeCancelDrag).
  - unfold onSelectOpen. repeat case_match; try done.
    by destruct (scheduleProcessing_frame
      (setLoggingState (DomElement element) (with_selectOpen l) s)) as (-> & _).
  - destruct (addDocument_frame env d s) as (Hv & _).
    by rewrite (sameButObservers_processingThrottler _ _ Hv).
  - done.
  - by destruct (scheduleProcessing_frame s) as (-> & _).
Qed.

Lemma run_keeps_noOp trace s :
  Forall (λ a, isStartLogging a = false) trace →
  processingThrottler (vars s) = noOpThrottler →
  processingThrottler (vars (run s trace)) = noOpThrottler.
Proof.
  unfold run. intros Htrace. revert s.
  induction Htrace as [|a trace Ha _ IH]; intros s Hs; simpl; [done|].
  apply IH. by apply step_keeps_noOp.
Qed.

(** C8. Once [startLogging] has returned, [isLogging()] is true. After
    [stopLogging], [isLogging()] is false, [documents] is empty and
    [processingThrottler] is the no-op throttler. It stays so whatever
    happens next, short of a new [startLogging], and then a call of
    [scheduleProcessing], however often repeated, is a call of the no-op
    throttler's [schedule]: no throttler gets work to run, and nothing
    else of the state changes. *)
Theorem logging_lifecycle (options : option Options) env env' s :
  isLogging (startLogging options env s) = true ∧
  let s' := stopLogging env' s in
  isLogging s' = false ∧
  documents (vars s') = [] ∧
  processingThrottler (vars s') = noOpThrottler ∧
  ∀ (trace : list (Env * Action)) (n : nat),
    Forall (λ a, isStartLogging a = false) trace →
    let s1 := run s' trace in
    let s2 := Nat.iter n scheduleProcessing s1 in
    processingThrottler (vars s1) = noOpThrottler ∧
    vars s2 = vars s1 ∧ logs s2 = logs s1 ∧
    throttlers (browser s2) = throttlers (browser s1) ∧
    (∀ t, pendingOn t s2 = pendingOn t s1) ∧
    scheduleCalls (browser s2) =
      scheduleCalls (browser s1) ++ replicate n (noOpThrottler, ProcessForLogging).
Proof.
  split; [apply startLogging_logging|]. cbv zeta.
  destruct (stopLogging_vars env' s) as (Hl & Hd & Hp).
  split_and!; try done.
  intros trace n Htrace.
  pose proof (run_keeps_noOp trace (stopLogging env' s) Htrace Hp) as Hno.
  destruct (iter_scheduleProcessing_noOp n (run (stopLogging env' s) trace) Hno)
    as (Hv & Hlg & Ht & _ & Hc).
  split_and!; try done.
  intros [|r]; simpl; [done|]. by rewrite Ht.
Qed.

(** C8 on the example page: logging is started and stopped, the page then
    reports a mutation and a drag and [scheduleProcessing] is called; after
    that, two more calls of [scheduleProcessing] leave every throttler as
    it was, and none of them has processing to run. *)
Lemma logging_lifecycle_witness :
  let trace := [ (Examples.page, Mutation 1);
                 (Examples.page, PointerDown (MouseEvent 10 10));
                 (Examples.page, ScheduleProcessing) ] in
  Forall (λ a, isStartLogging a = false) trace ∧
  let s1 := run (stopLogging Examples.page
                   (startLogging None Examples.page initial)) trace in
  let s2 := Nat.iter 2 scheduleProcessing s1 in
  isLogging s1 = false ∧
  processingThrottler (vars s1) = noOpThrottler ∧
  throttlers (browser s2) = throttlers (browser s1) ∧
  Forall (λ th, pending th ≠ Some ProcessForLogging) (throttlers (browser s2)).
Proof.
  cbv zeta.
  set (trace := [ (Examples.page, Mutation 1);
                  (Examples.page, PointerDown (MouseEvent 10 10));
                  (Examples.page, ScheduleProcessing) ]).
  assert (Htrace : Forall (λ a, isStartLogging a = false) trace)
    by (by repeat constructor).
  split; [exact Htrace|].
  destruct (logging_lifecycle None Examples.page Examples.page
              (startLogging None Examples.page initial))
    as (_ & _ & _ & _ & Hrun).
  destruct (Hrun trace 2 Htrace) as (Hno & _ & _ & Hth & _).
  split_and!; [by vm_compute|exact Hno|exact Hth|].
  vm_compute. by repeat constructor.
Defined.

End DriverStopped.

Section DriverImpressions.
Import LoggingDriver DriverNotions.
Implicit Types (s : State) (env : Env) (l : Loggable) (vis : list Loggable).

Lemma flagged_setLoggingState l l' st s :
  flagged l (setLoggingState l' st s) =
  if decide (l' = l) then impressionLogged st else flagged l s.
Proof.
  unfold flagged, getLoggingState, setLoggingState. simpl.
  rewrite lookup_insert. by case_decide.
Qed.

Lemma getOrCreateLoggingState_spec l c p s :
  let '(st, s') := getOrCreateLoggingState l c p s in
  getLoggingState l s' = Some st ∧
  impressionLogged st = flagged l s ∧
  (∀ l', flagged l' s' = flagged l' s) ∧
  registry (logs s') = registry (logs s) ∧
  impressions (logs s') = impressions (logs s).
Proof.
  unfold getOrCreateLoggingState, flagged.
  destruct (getLoggingState l s) as [st|] eqn:Hst; [by rewrite Hst|].
  split_and!; try done.
  - unfold getLoggingState, setLoggingState. simpl. apply lookup_insert_eq.
  - intros l'. fold (flagged l' (setLoggingState l
      {| impressionLogged := false; processed := false; config := c; parent := p;
         size := None; selectOpen := false |} s)).
    rewrite flagged_setLoggingState. case_decide; [|done]. subst l'.
    unfold flagged. by rewrite Hst.
Qed.

Lemma flagged_unregisterLoggable l l' s :
  flagged l (unregisterLoggable l' s) = flagged l s.
Proof. done. Qed.

Lemma attachHandlers_logs env element c s :
  logs (attachHandlers env element c s) = logs s.
Proof.
  unfold attachHandlers, addDocumentListener. by repeat case_match.
Qed.

Lemma flagged_attachHandlers l env element c s :
  flagged l (attachHandlers env element c s) = flagged l s.
Proof. unfold flagged, getLoggingState. by rewrite attachHandlers_logs. Qed.

(** The end of a turn of the loop over the elements: the state is written
    back and, when the element was not processed yet, the handlers are
    attached. *)
Lemma processElement_tail env (element : Node) (st : LoggingState) s :
  let s' :=
    if negb (processed st) then
      setLoggingState (DomElement element) (with_processed st)
        (attachHandlers env element (config st)
           (setLoggingState (DomElement element) st s))
    else setLoggingState (DomElement element) st s in
  registry (logs s') = registry (logs s) ∧
  impressions (logs s') = impressions (logs s) ∧
  ∀ l, flagged l s' =
       if decide (DomElement element = l) then impressionLogged st else flagged l s.
Proof.
  cbv zeta. destruct (processed st); simpl.
  - split_and!; [done..|]. intros l. apply flagged_setLoggingState.
  - split_and!; [by rewrite attachHandlers_logs..|]. intros l.
    rewrite flagged_setLoggingState. case_decide; [done|].
    rewrite flagged_attachHandlers, flagged_setLoggingState. by rewrite decide_False.
Qed.

(** One turn of the loop over the elements: the element is appended only
    when its flag was not set, and then the flag is set; no other flag is
    cleared, and the registry and the impressions logged stay. *)
Lemma processElement_effect env s vis (element : Node) (parentElement : option Node) :
  let '(s', vis') := processElement env (s, vis) (element, parentElement) in
  registry (logs s') = registry (logs s) ∧
  impressions (logs s') = impressions (logs s) ∧
  (∀ l, flagged l s = true → flagged l s' = true) ∧
  (vis' = vis ∨
   vis' = vis ++ [DomElement element] ∧
   flagged (DomElement element) s = false ∧
   flagged (DomElement element) s' = true).
Proof.
  unfold processElement.
  pose proof (getOrCreateLoggingState_spec (DomElement element)
    (getLoggingConfig env element) (DomElement <$> parentElement) s) as Hg.
  destruct (getOrCreateLoggingState _ _ _ s) as [st s1].
  destruct Hg as (Hst & Hflag & Hsame & Hreg & Himp).
  set (vso := bool_decide (tagName env element = "OPTION") && parentFlag selectOpen st s1).
  set (overlap := visibleOverlap env element (viewportRectFor env element)).
  destruct (impressionLogged st) eqn:Hlogged; simpl.
  - (* the impression was logged before *)
    pose proof (processElement_tail env element st s1) as Ht. simpl in Ht.
    destruct Ht as (Hr & Hi & Hf).
    split_and!; [congruence..| |by left].
    intros l Hl. rewrite Hf. case_decide; [done|]. by rewrite Hsame.
  - destruct (bool_decide (is_Some overlap) || vso) eqn:Hvis; simpl.
    + (* visible: appended and flagged *)
      pose proof (processElement_tail env element (with_impression overlap st) s1)
        as Ht. simpl in Ht. destruct Ht as (Hr & Hi & Hf).
      split_and!; [congruence..| |right].
      * intros l Hl. rewrite Hf. case_decide; [done|]. by rewrite Hsame.
      * split_and!; [done|congruence|]. rewrite Hf. by rewrite decide_True.
    + (* not visible *)
      pose proof (processElement_tail env element st s1) as Ht. simpl in Ht.
      destruct Ht as (Hr & Hi & Hf).
      split_and!; [congruence..| |by left].
      intros l Hl. rewrite Hf. case_decide; [|by rewrite Hsame].
      subst l. congruence.
Qed.

(** One turn of the loop over the registered loggables: a loggable that is
    appended has its flag set and is taken out of the registry. *)
Lemma processNonDom_effect s vis (r : Registration) :
  let '(s', vis') := processNonDom (s, vis) r in
  impressions (logs s') = impressions (logs s) ∧
  (∀ l, flagged l s = true → flagged l s' = true) ∧
  (vis' = vis ∧ registry (logs s') = registry (logs s) ∨
   vis' = vis ++ [reg_loggable r] ∧
   flagged (reg_loggable r) s' = true ∧
   registry (logs s') = filter (λ r', reg_loggable r' ≠ reg_loggable r) (registry (logs s))).
Proof.
  unfold processNonDom.
  pose proof (getOrCreateLoggingState_spec (reg_loggable r) (reg_config r)
    (reg_parent r) s) as Hg.
  destruct (getOrCreateLoggingState _ _ _ s) as [st s1].
  destruct Hg as (Hst & Hflag & Hsame & Hreg & Himp).
  destruct (negb (bool_decide (is_Some (reg_parent r))) ||
            parentFlag impressionLogged st s1); simpl.
  2: { split_and!; [done| |by left]. intros l Hl. by rewrite Hsame. }
  - split_and!; [done| |right].
    + intros l Hl. rewrite flagged_unregisterLoggable, flagged_setLoggingState.
      case_decide; [done|]. by rewrite Hsame.
    + split_and!; [done| |by rewrite <- Hreg].
      rewrite flagged_unregisterLoggable, flagged_setLoggingState.
      by rewrite decide_True.
Qed.





Lemma elem_of_registered_filter l l0 (regs : list Registration) :
  l ∈ reg_loggable <$> filter (λ r', reg_loggable r' ≠ l0) regs ↔
  l ∈ reg_loggable <$> regs ∧ l ≠ l0.
Proof.
  rewrite !list_elem_of_fmap. split.
  - intros (r & -> & [Hne Hr]%list_elem_of_filter). split; [by exists r|done].
  - intros [(r & -> & Hr) Hne]. exists r. split; [done|].
    by apply list_elem_of_filter.
Qed.





(** What a run of [process] hands to [logImpressions]. *)
Lemma process_impressions env s :
  ∃ vis, impressions (logs (process env s)) =
         if hidden env then impressions (logs s) else impressions (logs s) ++ [vis].
Proof.
  unfold process. set (s0 := upd_logs _ s).
  destruct (hidden env); [by exists []|].
  set (dom := getDomState env (documents (vars s0))).
  set (s1 := observeMutations (shadowRoots dom) s0).
  assert (H1 : impressions (logs s1) = impressions (logs s)).
  { destruct (observeMutations_frame (shadowRoots dom) s0) as (_ & _ & _ & _ & Hl).
    fold s1 in Hl. by rewrite Hl. }
  assert (H2 : ∀ items s vis,
    impressions (logs (foldl (processElement env) (s, vis) items).1) = impressions (logs s)).
  { induction items as [|[e p] items IH]; intros a vis; [done|].
    change (foldl (processElement env) (a, vis) ((e, p) :: items))
      with (foldl (processElement env) (processElement env (a, vis) (e, p)) items).
    pose proof (processElement_effect env a vis e p) as He.
    destruct (processElement env (a, vis) (e, p)) as [a' vis'].
    destruct He as (_ & Hi & _). by rewrite IH. }
  assert (H3 : ∀ regs s vis,
    impressions (logs (foldl processNonDom (s, vis) regs).1) = impressions (logs s)).
  { induction regs as [|r regs IH]; intros a vis; [done|].
    change (foldl processNonDom (a, vis) (r :: regs))
      with (foldl processNonDom (processNonDom (a, vis) r) regs).
    pose proof (processNonDom_effect a vis r) as He.
    destruct (processNonDom (a, vis) r) as [a' vis'].
    destruct He as (Hi & _). by rewrite IH. }
  specialize (H2 (loggables dom) s1 []).
  destruct (foldl (processElement env) (s1, []) (loggables dom)) as [s2 vis2].
  specialize (H3 (getNonDomState s2) s2 vis2).
  destruct (foldl processNonDom (s2, vis2) (getNonDomState s2)) as [s3 vis3].
  exists vis3. simpl in *. by rewrite H3, H2, H1.
Qed.



Lemma admissibleTurns_Runs (envs : list Env) s : admissibleTurns (Runs <$> envs) s.
Proof. revert s. induction envs as [|env envs IH]; intros s; [done|]. split; [done|apply IH]. Qed.

Lemma turns_Runs (envs : list Env) s : turns (Runs <$> envs) s = processes envs s.
Proof. revert s. induction envs as [|env envs IH]; intros s; [done|]. apply IH. Qed.



(** On the example page: element 2 and object 0 are logged by the first
    run, nothing by the second; after the scroll element 3 and object 1,
    which hangs under it, are logged, and then nothing any more. *)
Example impressions_on_the_page :
  impressions (logs (processes
     [Examples.page; Examples.page; Examples.pageScrolled; Examples.pageScrolled]
     Examples.withRegistry)) =
  [ [DomElement 2; NonDomObject 0]; [];
    [DomElement 3; NonDomObject 1]; [] ].
Proof. by vm_compute. Qed.



End DriverImpressions.

Section DriverDragExample.
Import LoggingDriver DriverNotions.

(** After [startLogging] on the example page, a drag that starts at
    (100, 100): released at (149, 51) it is cancelled, released at
    (150, 100) its log stays pending. *)
Example drag_released_near_and_far :
  let s := onDragStart (MouseEvent 100 100) (startLogging None Examples.page initial) in
  pendingOn (dragLogThrottler (vars s)) s = Some (DragLog (MouseEvent 100 100)) ∧
  pendingOn (dragLogThrottler (vars s)) (maybeCancelDrag (MouseEvent 149 51) s)
    = Some CancelLogging ∧
  maybeCancelDrag (MouseEvent 150 100) s = s ∧
  maybeCancelDrag (MouseEvent 100 50) s = s ∧
  maybeCancelDrag OtherEvent s = s.
Proof. by vm_compute. Qed.

End DriverDragExample.

(** ** [LoggingDriver.ts]: observers along any history *)
Section DriverConnected.
Import LoggingDriver DriverNotions.
Implicit Types (s : State) (env : Env) (root node : Node).

(** A run of [process] is the observation of the shadow roots, when the
    document is not hidden, followed by steps that are quiet. *)
Lemma process_quiet env s :
  let s0 := upd_logs (λ lg, set_processRuns (S (processRuns lg)) lg) s in
  quiet (if hidden env then s0
         else observeMutations (shadowRoots (getDomState env (documents (vars s)))) s0)
        (process env s).
Proof.
  cbv zeta. unfold process. set (s0 := upd_logs _ s).
  destruct (hidden env); [reflexivity|].
  change (documents (vars s0)) with (documents (vars s)).
  set (dom := getDomState env (documents (vars s))).
  set (s1 := observeMutations (shadowRoots dom) s0).
  pose proof (quiet_foldl_pair (processElement env) (loggables dom) (s1, [])
    (quiet_processElement env)) as Hq2.
  destruct (foldl (processElement env) (s1, []) (loggables dom)) as [s2 vis2].
  pose proof (quiet_foldl_pair processNonDom (getNonDomState s2) (s2, vis2)
    quiet_processNonDom) as Hq3.
  destruct (foldl processNonDom (s2, vis2) (getNonDomState s2)) as [s3 vis3].
  simpl in Hq2, Hq3.
  etrans; [exact Hq2|]. etrans; [exact Hq3|]. by repeat split; apply Hq3.
Qed.

(** *** Properties of the observers and of their map

    A property of the observers and of the map of observers that
    [observeMutations] and the disconnections of [stopLogging] keep is kept
    by everything that happens to the module. *)
Section ObserverInvariant.
Variable P : State → Prop.
Hypothesis P_ext : ∀ s s',
  observers (browser s') = observers (browser s) →
  mutationObservers (vars s') = mutationObservers (vars s) → P s → P s'.
Hypothesis P_observeRoot : ∀ s root, P s → P (observeRoot s root).
Hypothesis P_disconnectAndDelete : ∀ s node, P s → P (disconnectAndDelete s node).

Lemma invariant_quiet s s' :
  quiet s s' → P s → P s'.
Proof.
  intros (Hv & _ & _ & Ho & _). apply P_ext; [done|by rewrite Hv].
Qed.

Lemma invariant_observeMutations roots s :
  P s → P (observeMutations roots s).
Proof.
  intros Hs. apply (foldl_invariant P); [done|].
  intros a root. apply P_observeRoot.
Qed.

Lemma invariant_process env s :
  P s → P (process env s).
Proof.
  intros Hs. apply (invariant_quiet _ _ (process_quiet env s)).
  destruct (hidden env); [|apply invariant_observeMutations]; by apply (P_ext s).
Qed.

Lemma invariant_schedule t task s :
  P s → P (schedule t task s).
Proof.
  destruct (schedule_frame t task s) as (Hv & _ & Ho & _).
  apply P_ext; [done|by rewrite Hv].
Qed.

Lemma invariant_call env f e s :
  P s → P (call env f e s).
Proof.
  intros Hs. destruct f; simpl.
  - by apply invariant_schedule.
  - by apply invariant_process.
  - done.
  - unfold onDragStart. destruct e; [|done]. unfold logDrag.
    apply invariant_schedule. by apply (P_ext s).
  - unfold maybeCancelDrag. destruct e; [|done]. case_match; [done|].
    by apply invariant_schedule.
Qed.

Lemma invariant_addDocument env d s :
  P s → P (addDocument env d s).
Proof.
  intros Hs. unfold addDocument.
  apply invariant_observeMutations.
  eapply invariant_quiet; [apply quiet_addDocumentListener|].
  eapply invariant_quiet; [apply quiet_addDocumentListener|].
  assert (P (upd_vars (λ v, set_documents (documents v ++ [d]) v) s))
    by (by apply (P_ext s)).
  destruct (readyState env d); [done|by apply invariant_process..].
Qed.

Lemma invariant_startLogging options env s :
  P s → P (startLogging options env s).
Proof.
  intros Hs.
  destruct (startLogging_unfold options env s)
    as (p & k & h & d & c & r & s6 & -> & Hv & _ & Ho & _).
  apply invariant_addDocument.
  apply (P_ext s); [done| |done]. simpl. by rewrite Hv.
Qed.

Lemma invariant_stopLogging env s :
  P s → P (stopLogging env s).
Proof.
  intros Hs. unfold stopLogging.
  apply (P_ext
    (foldl disconnectAndDelete
       (foldl (forgetDocument env)
          (unregisterAllLoggables (upd_vars (set_logging false) s))
          (documents (vars (unregisterAllLoggables (upd_vars (set_logging false) s)))))
       (shadowRoots (getDomState env (documents (vars
          (foldl (forgetDocument env)
             (unregisterAllLoggables (upd_vars (set_logging false) s))
             (documents (vars (unregisterAllLoggables
                (upd_vars (set_logging false) s)))))))))));
    [done..|].
  apply (foldl_invariant P);
    [|intros a node; apply P_disconnectAndDelete].
  apply (foldl_invariant P); [by apply (P_ext s)|].
  intros a d Ha. unfold forgetDocument. apply P_disconnectAndDelete.
  by apply (P_ext a).
Qed.

Lemma invariant_fire env r s :
  P s → P (fire env r s).
Proof.
  intros Hs. unfold fire.
  destruct (throttlers (browser s) !! r) as [th|]; [|done].
  destruct (pending th) as [[| |e]|]; simpl; try done;
    [apply invariant_process|unfold cancelLogging|]; by apply (P_ext s).
Qed.

Lemma invariant_step s a :
  P s → P (step s a).
Proof.
  intros Hs. destruct a as [env [root|r|e|e|element|options|d| |]]; simpl.
  - unfold mutation. apply (foldl_invariant P); [done|].
    intros a o Ha. unfold notifyObserver. case_match; [|done].
    by apply invariant_call.
  - by apply invariant_fire.
  - by apply (invariant_call env fn_onDragStart).
  - by apply (invariant_call env fn_maybeCancelDrag).
  - unfold onSelectOpen. repeat case_match; try done.
    apply invariant_schedule. by apply (P_ext s).
  - by apply invariant_startLogging.
  - by apply invariant_addDocument.
  - by apply invariant_stopLogging.
  - by apply invariant_schedule.
Qed.

Lemma invariant_run (trace : list (Env * Action)) : P initial → P (run initial trace).
Proof.
  intros Hi. apply (foldl_invariant P); [done|].
  intros s a. apply invariant_step.
Qed.

End ObserverInvariant.

Lemma connectedRegistered_ext s s' :
  observers (browser s') = observers (browser s) →
  mutationObservers (vars s') = mutationObservers (vars s) →
  connectedRegistered s → connectedRegistered s'.
Proof. unfold connectedRegistered. intros -> ->. done. Qed.

Lemma connectedRegistered_observeRoot s root :
  connectedRegistered s → connectedRegistered (observeRoot s root).
Proof.
  intros Hs. unfold observeRoot.
  destruct (mutationObservers (vars s) !! root) as [o|] eqn:Hroot; [done|].
  intros i o node Hi Hnode. simpl in *.
  apply lookup_app_Some in Hi as [Hi|[Hlen Hi]].
  - pose proof (Hs i o node Hi Hnode) as Hm.
    rewrite lookup_insert_ne; [done|]. intros <-. congruence.
  - destruct (i - length (observers (browser s))) as [|k] eqn:Hk; simpl in Hi; [|done].
    injection Hi as <-. simpl in Hnode. apply list_elem_of_singleton in Hnode as ->.
    rewrite lookup_insert_eq. f_equal. lia.
Qed.

Lemma connectedRegistered_disconnectAndDelete s node :
  connectedRegistered s → connectedRegistered (disconnectAndDelete s node).
Proof.
  intros Hs. unfold disconnectAndDelete.
  destruct (mutationObservers (vars s) !! node) as [o|] eqn:Hnode;
    intros i ob n Hi Hn; simpl in *.
  - rewrite list_lookup_alter in Hi. destruct (decide (o = i)) as [->|Hne].
    + destruct (observers (browser s) !! i); simpl in Hi; [|done].
      injection Hi as <-. simpl in Hn. by apply elem_of_nil in Hn.
    + pose proof (Hs i ob n Hi Hn) as Hm.
      rewrite lookup_delete_ne; [done|]. intros <-. congruence.
  - pose proof (Hs i ob n Hi Hn) as Hm.
    rewrite lookup_delete_ne; [done|]. intros <-. congruence.
Qed.

Lemma connectedRegistered_stopLogging env s :
  connectedRegistered s → connectedRegistered (stopLogging env s).
Proof.
  apply invariant_stopLogging.
  - apply connectedRegistered_ext.
  - apply connectedRegistered_observeRoot.
  - apply connectedRegistered_disconnectAndDelete.
Qed.

Lemma connectedRegistered_run trace : connectedRegistered (run initial trace).
Proof.
  apply invariant_run.
  - apply connectedRegistered_ext.
  - apply connectedRegistered_observeRoot.
  - apply connectedRegistered_disconnectAndDelete.
  - intros i o node Hi. simpl in Hi. by rewrite lookup_nil in Hi.
Qed.

Lemma entriesConnected_ext s s' :
  observers (browser s') = observers (browser s) →
  mutationObservers (vars s') = mutationObservers (vars s) →
  entriesConnected s → entriesConnected s'.
Proof. unfold entriesConnected. intros -> ->. done. Qed.

Lemma entriesConnected_observeRoot s root :
  entriesConnected s → entriesConnected (observeRoot s root).
Proof.
  intros Hs. unfold observeRoot.
  destruct (mutationObservers (vars s) !! root) as [o|] eqn:Hroot; [done|].
  intros root' i Hi. simpl in *.
  destruct (decide (root' = root)) as [->|Hne].
  - rewrite lookup_insert_eq in Hi. injection Hi as <-.
    exists {| callback := fn_scheduleProcessing; targets := [(root, observeOptions)] |}.
    split; [|done]. rewrite lookup_app_r by lia. by rewrite Nat.sub_diag.
  - rewrite lookup_insert_ne in Hi by done.
    destruct (Hs root' i Hi) as (o & Ho & Ht). exists o. split; [|done].
    by apply lookup_app_l_Some.
Qed.

Lemma entriesConnected_disconnectAndDelete s node :
  entriesConnected s → entriesConnected (disconnectAndDelete s node).
Proof.
  intros Hs. unfold disconnectAndDelete.
  destruct (mutationObservers (vars s) !! node) as [o|] eqn:Hnode;
    intros root i Hi; simpl in *.
  - destruct (decide (root = node)) as [->|Hne];
      [by rewrite lookup_delete_eq in Hi|].
    rewrite lookup_delete_ne in Hi by done.
    destruct (Hs root i Hi) as (ob & Hob & Ht), (Hs node o Hnode) as (ob' & Hob' & Ht').
    exists ob. split; [|done]. rewrite list_lookup_alter_ne; [done|].
    intros ->. rewrite Hob in Hob'. injection Hob' as <-. congruence.
  - destruct (decide (root = node)) as [->|Hne];
      [by rewrite lookup_delete_eq in Hi|].
    rewrite lookup_delete_ne in Hi by done. by apply Hs.
Qed.

Lemma entriesConnected_process env s :
  entriesConnected s → entriesConnected (process env s).
Proof.
  apply invariant_process.
  - apply entriesConnected_ext.
  - apply entriesConnected_observeRoot.
  - apply entriesConnected_disconnectAndDelete.
Qed.

Lemma entriesConnected_run trace : entriesConnected (run initial trace).
Proof.
  apply invariant_run.
  - apply entriesConnected_ext.
  - apply entriesConnected_observeRoot.
  - apply entriesConnected_disconnectAndDelete.
  - intros root i Hi. simpl in Hi. by rewrite lookup_empty in Hi.
Qed.

Lemma entriesConnected_observed node s :
  entriesConnected s → is_Some (mutationObservers (vars s) !! node) →
  observersOf node s ≠ [].
Proof.
  intros Hs [i Hi] Hnil. destruct (Hs node i Hi) as (o & Ho & Ht).
  unfold observersOf in Hnil.
  apply (filter_nil_not_elem_of _ (observers (browser s)) o Hnil).
  - rewrite Ht. simpl. left.
  - by eapply list_elem_of_lookup_2.
Qed.

Lemma connectedRegistered_at_most_one node s :
  connectedRegistered s → (length (observersOf node s) ≤ 1)%nat.
Proof.
  intros Hs. unfold observersOf. apply filter_length_le_1.
  intros i j x y Hi Hj Hx Hy.
  pose proof (Hs i x node Hi Hx). pose proof (Hs j y node Hj Hy). congruence.
Qed.

(** Reports of mutations under a node that no observer observes change
    nothing. *)
Lemma mutation_unobserved env node s :
  observersOf node s = [] → mutation env node s = s.
Proof.
  unfold observersOf, mutation. generalize (observers (browser s)) as l.
  intros l. revert s. induction l as [|o l IH]; intros s Hl; simpl; [done|].
  rewrite filter_cons in Hl. unfold notifyObserver.
  destruct (decide (node ∈ (targets o).*1)) as [Hin|Hin]; [done|].
  rewrite bool_decide_eq_false_2 by done. by apply IH.
Qed.

Lemma filter_none {A} (P : A → Prop) `{∀ x, Decision (P x)} (l : list A) :
  (∀ x, x ∈ l → ¬ P x) → filter P l = [].
Proof.
  intros Hn. destruct (filter P l) as [|x l'] eqn:Hf; [done|].
  assert (x ∈ filter P l) as [HP Hx]%list_elem_of_filter by (rewrite Hf; left).
  by destruct (Hn x Hx).
Qed.

Lemma connectedRegistered_unobserved node s :
  connectedRegistered s → mutationObservers (vars s) !! node = None →
  observersOf node s = [].
Proof.
  intros Hs Hnode. unfold observersOf.
  apply filter_none. intros o Ho Hin.
  apply list_elem_of_lookup in Ho as [i Hi].
  pose proof (Hs i o node Hi Hin). congruence.
Qed.

Lemma connectedRegistered_process env s :
  connectedRegistered s → connectedRegistered (process env s).
Proof.
  apply invariant_process.
  - apply connectedRegistered_ext.
  - apply connectedRegistered_observeRoot.
  - apply connectedRegistered_disconnectAndDelete.
Qed.

(** Under the properties that every history keeps, a report of mutations
    under a node that has an entry in the map is one call of
    [scheduleProcessing]. *)
Lemma mutation_observed env node s :
  connectedRegistered s → entriesConnected s → observersSchedule s →
  is_Some (mutationObservers (vars s) !! node) →
  mutation env node s = scheduleProcessing s.
Proof.
  intros Hc He Hs Hnode. rewrite mutation_schedules by done.
  pose proof (connectedRegistered_at_most_one node s Hc) as Hone.
  pose proof (entriesConnected_observed node s He Hnode) as Hsome.
  destruct (observersOf node s) as [|o [|o' l]]; [done|done|simpl in Hone; lia].
Qed.

Lemma observeMutations_observes (roots : list Node) s root :
  root ∈ roots → is_Some (mutationObservers (vars (observeMutations roots s)) !! root).
Proof.
  intros Hroot.
  destruct (observeMutations_spec roots s (observedNodes s)
              (λ node, elem_of_observedNodes node s)) as (_ & Hnew & Hold).
  destruct (decide (root ∈ firstSeenFrom id (observedNodes s) roots)) as [Hin|Hin].
  - apply list_elem_of_lookup in Hin as [i Hi]. rewrite (Hnew i root Hi). by eexists.
  - rewrite (Hold root Hin).
    destruct (mutationObservers (vars s) !! root) as [o|] eqn:Ho; [by eexists|].
    exfalso. apply Hin.
    rewrite <- (list_fmap_id (firstSeenFrom id (observedNodes s) roots)).
    apply firstSeenFrom_keys. rewrite list_fmap_id, elem_of_observedNodes.
    split; [done|]. rewrite Ho. by intros [? ?].
Qed.

(** Whatever has happened to the module since it was loaded (mutations,
    firings, pointer events, calls of [startLogging], [addDocument],
    [stopLogging] and [scheduleProcessing], in any order), a node has at
    most one observer that observes it, the one the map of observers has
    for it; and a report of mutations under a node is exactly one call of
    [scheduleProcessing] when the map has an entry for the node, and
    changes nothing when it has none. *)
Theorem one_observer_per_node (trace : list (Env * Action)) node :
  let s := run initial trace in
  (length (observersOf node s) ≤ 1)%nat ∧
  (∀ i o, observers (browser s) !! i = Some o → node ∈ (targets o).*1 →
          mutationObservers (vars s) !! node = Some i) ∧
  (∀ i, mutationObservers (vars s) !! node = Some i →
        observers (browser s) !! i = Some (newObserver node)) ∧
  (∀ env, mutation env node s =
          if bool_decide (is_Some (mutationObservers (vars s) !! node))
          then scheduleProcessing s else s).
Proof.
  cbv zeta. pose proof (connectedRegistered_run trace) as Hc.
  pose proof (entriesConnected_run trace) as He.
  pose proof (run_observersSchedule trace) as Hs.
  split_and!.
  - by apply connectedRegistered_at_most_one.
  - intros i o. apply Hc.
  - intros i Hi. destruct (He node i Hi) as (o & Ho & Ht). rewrite Ho. f_equal.
    unfold observersSchedule in Hs.
    assert (callback o = fn_scheduleProcessing) as Hcb.
    { eapply (proj1 (Forall_forall _ _) Hs). by eapply list_elem_of_lookup_2. }
    destruct o. simpl in *. by subst.
  - intros env. case_bool_decide as Hnode.
    + by apply mutation_observed.
    + apply mutation_unobserved. apply connectedRegistered_unobserved; [done|].
      by apply eq_None_not_Some.
Qed.

(** After a run of [process] on a page that is not hidden, at any point of
    any history, every shadow root that [getDomState] lists has an
    observer: a report of mutations under it is one call of
    [scheduleProcessing]. *)
Theorem shadow_roots_are_observed (trace : list (Env * Action)) env root :
  hidden env = false →
  root ∈ shadowRoots (getDomState env (documents (vars (run initial trace)))) →
  let s' := process env (run initial trace) in
  is_Some (mutationObservers (vars s') !! root) ∧
  ∀ env', mutation env' root s' = scheduleProcessing s'.
Proof.
  intros Hh Hroot. cbv zeta.
  set (s := run initial trace) in *.
  assert (Hentry : is_Some (mutationObservers (vars (process env s)) !! root)).
  { destruct (process_quiet env s) as (Hv & _). rewrite Hv, Hh.
    by apply observeMutations_observes. }
  split; [done|]. intros env'. apply mutation_observed; [| | |done].
  - apply connectedRegistered_process, connectedRegistered_run.
  - apply entriesConnected_process, entriesConnected_run.
  - apply process_frame, run_observersSchedule.
Qed.

(** On the example page: shadow root 4 is listed; after [startLogging],
    whose run of [process] observed it, and another run of [process], a
    report of mutations under it leaves processing pending on the
    processing throttler. *)
Lemma shadow_roots_are_observed_witness :
  let trace := [ (Examples.page, StartLogging None) ] in
  let s' := process Examples.page (run initial trace) in
  hidden Examples.page = false ∧
  4 ∈ shadowRoots (getDomState Examples.page (documents (vars (run initial trace)))) ∧
  mutation Examples.page 4 s' = scheduleProcessing s' ∧
  pendingOn (processingThrottler (vars s')) (mutation Examples.page 4 s')
    = Some ProcessForLogging.
Proof.
  cbv zeta. set (trace := [ (Examples.page, StartLogging None) ]).
  assert (Hroot : 4 ∈ shadowRoots (getDomState Examples.page
                        (documents (vars (run initial trace))))) by (vm_compute; left).
  destruct (shadow_roots_are_observed trace Examples.page 4 eq_refl Hroot) as (_ & Hmut).
  split_and!; [done|exact Hroot|exact (Hmut Examples.page)|by vm_compute].
Defined.

Lemma stopLogging_forgets_shadowRoots env s root :
  root ∈ shadowRoots (getDomState env (documents (vars s))) →
  mutationObservers (vars (stopLogging env s)) !! root = None.
Proof.
  intros Hroot. unfold stopLogging.
  set (s1 := unregisterAllLoggables (upd_vars (set_logging false) s)).
  set (s2 := foldl (forgetDocument env) s1 (documents (vars s1))).
  assert (H12 : keepsVars s1 s2).
  { apply (foldl_related keepsVars). intros a d. apply forgetDocument_frame. }
  apply keepsVars_fields in H12 as (_ & Hd & _).
  destruct (foldl_delete_lookup disconnectAndDelete id
              (shadowRoots (getDomState env (documents (vars s2)))) s2
              disconnectAndDelete_map) as [_ Hgone].
  simpl. apply (Hgone root). by rewrite Hd.
Qed.

(** After [stopLogging], at any point of any history, nothing observes the
    body of a document that was added or a shadow root of these documents:
    reports of mutations under them change nothing, and schedule no
    processing. *)
Theorem stopLogging_disconnects (trace : list (Env * Action)) env node :
  (∃ d, d ∈ documents (vars (run initial trace)) ∧ node = body env d) ∨
  node ∈ shadowRoots (getDomState env (documents (vars (run initial trace)))) →
  let s := stopLogging env (run initial trace) in
  mutationObservers (vars s) !! node = None ∧
  observersOf node s = [] ∧
  ∀ env', mutation env' node s = s.
Proof.
  intros Hnode. cbv zeta.
  assert (Hnone : mutationObservers (vars (stopLogging env (run initial trace))) !! node = None).
  { destruct Hnode as [(d & Hd & ->)|Hroot].
    - by apply stopLogging_forgets_bodies.
    - by apply stopLogging_forgets_shadowRoots. }
  assert (Hobs : observersOf node (stopLogging env (run initial trace)) = []).
  { apply connectedRegistered_unobserved; [|done].
    apply connectedRegistered_stopLogging, connectedRegistered_run. }
  split_and!; [done..|]. intros env'. by apply mutation_unobserved.
Qed.

(** On the example page: logging is started, mutations are reported, and
    logging is stopped; a report of mutations under the body, node 1, then
    leaves no work on the processing throttler beyond what was there. *)
Lemma stopLogging_disconnects_witness :
  let trace := [ (Examples.page, StartLogging None); (Examples.page, Mutation 1) ] in
  let s := stopLogging Examples.page (run initial trace) in
  ((∃ d, d ∈ documents (vars (run initial trace)) ∧ 1 = body Examples.page d) ∨
   1 ∈ shadowRoots (getDomState Examples.page (documents (vars (run initial trace))))) ∧
  length (observersOf 1 (run initial trace)) = 1 ∧
  observersOf 1 s = [] ∧
  mutation Examples.page 1 s = s.
Proof.
  cbv zeta.
  set (trace := [ (Examples.page, StartLogging None); (Examples.page, Mutation 1) ]).
  assert (Hnode :
    (∃ d, d ∈ documents (vars (run initial trace)) ∧ 1 = body Examples.page d) ∨
    1 ∈ shadowRoots (getDomState Examples.page (documents (vars (run initial trace))))).
  { left. exists 0. split; [|done]. vm_compute. left. }
  split; [exact Hnode|].
  destruct (stopLogging_disconnects trace Examples.page 1 Hnode) as (_ & Hobs & Hmut).
  split_and!; [by vm_compute|exact Hobs|exact (Hmut Examples.page)].
Defined.

End DriverConnected.

(** ** [LoggingDriver.ts]: documents, listeners and what [stopLogging] leaves *)
Section DriverDocuments.
Import LoggingDriver DriverNotions.
Implicit Types (s : State) (env : Env) (d : Document) (l : DocumentListener).

#[global] Instance listenersGrow_refl : Reflexive listenersGrow.
Proof. intros s. by split. Qed.

#[global] Instance listenersGrow_trans : Transitive listenersGrow.
Proof. intros s1 s2 s3 [? ?] [? ?]. split; [by etrans|auto]. Qed.

Lemma listenersGrow_same s s' :
  documentListeners (browser s') = documentListeners (browser s) → listenersGrow s s'.
Proof. intros Hl. unfold listenersGrow. by rewrite Hl. Qed.

Lemma listenersGrow_addDocumentListener l s : listenersGrow s (addDocumentListener l s).
Proof.
  unfold addDocumentListener. case_bool_decide as Hl; [reflexivity|].
  split; simpl; [by apply prefix_app_r|].
  intros Hnd. apply NoDup_app. split_and!; [done| |apply NoDup_singleton].
  by intros l' Hl' ->%list_elem_of_singleton.
Qed.

Lemma elem_of_addDocumentListener l s :
  l ∈ documentListeners (browser (addDocumentListener l s)).
Proof.
  unfold addDocumentListener. case_bool_decide as Hl; [done|]. simpl.
  apply elem_of_app. right. left.
Qed.

Lemma listenersGrow_elem_of l s s' :
  listenersGrow s s' → l ∈ documentListeners (browser s) →
  l ∈ documentListeners (browser s').
Proof. intros [[k ->] _] Hl. apply elem_of_app. by left. Qed.

Lemma listenersGrow_attachHandlers env element c s :
  listenersGrow s (attachHandlers env element c s).
Proof.
  unfold attachHandlers. case_match.
  - etrans; [|apply listenersGrow_addDocumentListener].
    etrans; [|apply listenersGrow_addDocumentListener]. by apply listenersGrow_same.
  - by apply listenersGrow_same.
Qed.

Lemma listenersGrow_getOrCreateLoggingState lg c p s :
  listenersGrow s (getOrCreateLoggingState lg c p s).2.
Proof.
  unfold getOrCreateLoggingState. case_match; [reflexivity|]. by apply listenersGrow_same.
Qed.

Lemma listenersGrow_processElement env acc item :
  listenersGrow acc.1 (processElement env acc item).1.
Proof.
  destruct acc as [s vis], item as [element parentElement].
  unfold processElement.
  pose proof (listenersGrow_getOrCreateLoggingState (DomElement element)
    (getLoggingConfig env element) (DomElement <$> parentElement) s) as Hg.
  destruct (getOrCreateLoggingState _ _ _ s) as [st s1]. simpl in Hg.
  repeat case_match; simplify_eq; simpl; (etrans; [exact Hg|]);
    try (by apply listenersGrow_same);
    (etrans; [|by apply listenersGrow_same]);
    (etrans; [|apply listenersGrow_attachHandlers]);
    by apply listenersGrow_same.
Qed.

Lemma listenersGrow_processNonDom acc r : listenersGrow acc.1 (processNonDom acc r).1.
Proof.
  destruct acc as [s vis]. unfold processNonDom.
  pose proof (listenersGrow_getOrCreateLoggingState (reg_loggable r) (reg_config r)
    (reg_parent r) s) as Hg.
  destruct (getOrCreateLoggingState _ _ _ s) as [st s1]. simpl in Hg.
  case_match; simpl; [done|]. etrans; [exact Hg|]. by apply listenersGrow_same.
Qed.

Lemma listenersGrow_foldl_pair {B C} (f : State * C → B → State * C) (l : list B) acc :
  (∀ acc b, listenersGrow acc.1 (f acc b).1) → listenersGrow acc.1 (foldl f acc l).1.
Proof.
  intros Hf. revert acc. induction l as [|b l IH]; intros acc; simpl.
  - reflexivity.
  - etrans; [apply (Hf acc b)|apply IH].
Qed.

Lemma listenersGrow_process env s : listenersGrow s (process env s).
Proof.
  unfold process. set (s0 := upd_logs _ s).
  destruct (hidden env); [by apply listenersGrow_same|].
  set (dom := getDomState env (documents (vars s0))).
  set (s1 := observeMutations (shadowRoots dom) s0).
  assert (H1 : listenersGrow s s1).
  { apply listenersGrow_same.
    destruct (observeMutations_frame (shadowRoots dom) s0) as (_ & _ & Hl & _).
    exact Hl. }
  pose proof (listenersGrow_foldl_pair (processElement env) (loggables dom) (s1, [])
    (listenersGrow_processElement env)) as H2.
  destruct (foldl (processElement env) (s1, []) (loggables dom)) as [s2 vis2].
  pose proof (listenersGrow_foldl_pair processNonDom (getNonDomState s2) (s2, vis2)
    listenersGrow_processNonDom) as H3.
  destruct (foldl processNonDom (s2, vis2) (getNonDomState s2)) as [s3 vis3].
  simpl in H2, H3.
  etrans; [exact H1|]. etrans; [exact H2|]. etrans; [exact H3|].
  by apply listenersGrow_same.
Qed.

Lemma observeMutations_keeps (roots : list Node) s (root : Node) (o : nat) :
  mutationObservers (vars s) !! root = Some o →
  mutationObservers (vars (observeMutations roots s)) !! root = Some o.
Proof.
  intros Ho.
  destruct (observeMutations_spec roots s (observedNodes s)
              (λ node, elem_of_observedNodes node s)) as (_ & _ & Hold).
  rewrite Hold; [done|]. intros Hin.
  assert (root ∈ id <$> firstSeenFrom id (observedNodes s) roots) as Hin'
    by (by rewrite list_fmap_id).
  apply firstSeenFrom_keys in Hin' as [_ Hn]. apply Hn.
  apply elem_of_observedNodes. by exists o.
Qed.

Lemma process_keeps_observer env s (root : Node) (o : nat) :
  mutationObservers (vars s) !! root = Some o →
  mutationObservers (vars (process env s)) !! root = Some o.
Proof.
  intros Ho. destruct (process_quiet env s) as (Hv & _). rewrite Hv.
  destruct (hidden env); [done|]. by apply observeMutations_keeps.
Qed.

(** What [addDocument] guarantees. The document is appended to
    [documents]; [process] runs, once, exactly when the document is
    [interactive] or [complete]; afterwards the two listeners that call
    [scheduleProcessing] are on the document, listeners that were there
    are still there and none is there twice; the body has an observer, the
    one it had when it had one; no throttler is asked for anything, and
    [isLogging()] is what it was. *)
Theorem addDocument_registers env d s :
  let s' := addDocument env d s in
  documents (vars s') = documents (vars s) ++ [d] ∧
  processRuns (logs s') =
    (match readyState env d with
     | loading => processRuns (logs s)
     | interactive | complete => S (processRuns (logs s))
     end) ∧
  (∀ l, l ∈ processingListeners d → l ∈ documentListeners (browser s')) ∧
  documentListeners (browser s) `prefix_of` documentListeners (browser s') ∧
  (NoDup (documentListeners (browser s)) → NoDup (documentListeners (browser s'))) ∧
  is_Some (mutationObservers (vars s') !! body env d) ∧
  (∀ o, mutationObservers (vars s) !! body env d = Some o →
        mutationObservers (vars s') !! body env d = Some o) ∧
  scheduleCalls (browser s') = scheduleCalls (browser s) ∧
  throttlers (browser s') = throttlers (browser s) ∧
  isLogging s' = isLogging s.
Proof.
  cbv zeta.
  destruct (addDocument_frame env d s) as (_ & Ht & Hc & _).
  pose proof (addDocument_logging env d s) as Hlog.
  unfold addDocument in *.
  set (s1 := upd_vars (λ v, set_documents (documents v ++ [d]) v) s) in *.
  set (s2 := match readyState env d with loading => s1 | _ => process env s1 end) in *.
  set (s3 := addDocumentListener (listener d "visibilitychange" fn_scheduleProcessing false) s2)
    in *.
  set (s4 := addDocumentListener (listener d "scroll" fn_scheduleProcessing false) s3) in *.
  assert (H12 : keepsVars s1 s2 ∧ listenersGrow s1 s2 ∧
                processRuns (logs s2) =
                  (match readyState env d with
                   | loading => processRuns (logs s)
                   | interactive | complete => S (processRuns (logs s))
                   end) ∧
                ∀ o, mutationObservers (vars s1) !! body env d = Some o →
                     mutationObservers (vars s2) !! body env d = Some o).
  { unfold s2. destruct (process_frame env s1) as (Hk & _ & _ & Hr & _).
    pose proof (listenersGrow_process env s1) as Hg.
    destruct (readyState env d); split_and!; try done; try reflexivity;
      intros o; apply process_keeps_observer. }
  destruct H12 as (Hk2 & Hg2 & Hr2 & Ho2).
  assert (Hq24 : quiet s2 s4).
  { etrans; apply quiet_addDocumentListener. }
  assert (Hg14 : listenersGrow s1 s4).
  { etrans; [exact Hg2|]. etrans; apply listenersGrow_addDocumentListener. }
  destruct (observeMutations_frame [body env d] s4) as (_ & _ & Hl5 & _ & Hlogs5).
  pose proof (keepsVars_observeMutations [body env d] s4) as Hk5.
  assert (Hk15 : keepsVars s1 (observeMutations [body env d] s4)).
  { etrans; [exact Hk2|]. etrans; [apply (quiet_keepsVars _ _ Hq24)|done]. }
  apply keepsVars_fields in Hk15 as (_ & Hdocs & _).
  destruct Hq24 as (Hv4 & _ & _ & _ & Hr4).
  split_and!; try done.
  - by rewrite Hlogs5, Hr4.
  - intros l Hl. rewrite Hl5. unfold processingListeners in Hl.
    apply elem_of_cons in Hl as [->|Hl].
    + apply (listenersGrow_elem_of _ s3 s4); [apply listenersGrow_addDocumentListener|].
      apply elem_of_addDocumentListener.
    + apply list_elem_of_singleton in Hl as ->. apply elem_of_addDocumentListener.
  - rewrite Hl5. apply Hg14.
  - rewrite Hl5. apply Hg14.
  - unfold observeMutations. simpl. unfold observeRoot.
    destruct (mutationObservers (vars s4) !! body env d) as [o|] eqn:Hb; [by rewrite Hb|].
    simpl. rewrite lookup_insert_eq. by eexists.
  - intros o Ho. apply observeMutations_keeps. rewrite Hv4. by apply Ho2.
Qed.

Lemma disconnectAndDelete_browser s (node : Node) :
  documentListeners (browser (disconnectAndDelete s node)) = documentListeners (browser s) ∧
  attachments (browser (disconnectAndDelete s node)) = attachments (browser s).
Proof. unfold disconnectAndDelete. by case_match. Qed.

Lemma forgetDocument_listeners env s d :
  documentListeners (browser (forgetDocument env s d)) =
    filter (λ l, l ∉ processingListeners d) (documentListeners (browser s)) ∧
  attachments (browser (forgetDocument env s d)) = attachments (browser s).
Proof.
  unfold forgetDocument.
  destruct (disconnectAndDelete_browser
    (removeDocumentListener (listener d "scroll" fn_scheduleProcessing false)
       (removeDocumentListener (listener d "visibilitychange" fn_scheduleProcessing false) s))
    (body env d)) as [-> ->].
  split; [|done]. simpl. rewrite list_filter_filter. apply list_filter_iff.
  intros l. unfold processingListeners.
  rewrite !not_elem_of_cons. split; [|tauto]. intros [? ?].
  split_and!; [done..|apply not_elem_of_nil].
Qed.

Lemma filter_all {A} (P : A → Prop) `{∀ x, Decision (P x)} (l : list A) :
  (∀ x, x ∈ l → P x) → filter P l = l.
Proof.
  induction l as [|x l IH]; intros Hall; [done|].
  rewrite filter_cons, decide_True by (apply Hall; left).
  f_equal. apply IH. intros y Hy. apply Hall. by right.
Qed.

Lemma foldl_forgetDocument_listeners env (ds : list Document) s :
  documentListeners (browser (foldl (forgetDocument env) s ds)) =
    filter (λ l, l ∉ ds ≫= processingListeners) (documentListeners (browser s)) ∧
  attachments (browser (foldl (forgetDocument env) s ds)) = attachments (browser s).
Proof.
  revert s. induction ds as [|d ds IH]; intros s; simpl.
  - split; [|done]. symmetry. apply filter_all. intros l _. apply not_elem_of_nil.
  - destruct (IH (forgetDocument env s d)) as [-> ->].
    destruct (forgetDocument_listeners env s d) as [-> ->]. split; [|done].
    rewrite list_filter_filter. apply list_filter_iff. intros l.
    change (list_bind _ _ processingListeners ds) with (ds ≫= processingListeners).
    unfold processingListeners at 2. rewrite !not_elem_of_cons.
    split; [intros (? & ? & ? & _); by split_and!|].
    intros (? & ? & ?). split_and!; [done..|apply not_elem_of_nil].
Qed.

Lemma foldl_disconnectAndDelete_browser (nodes : list Node) s :
  documentListeners (browser (foldl disconnectAndDelete s nodes)) =
    documentListeners (browser s) ∧
  attachments (browser (foldl disconnectAndDelete s nodes)) = attachments (browser s).
Proof.
  revert s. induction nodes as [|n nodes IH]; intros s; simpl; [done|].
  destruct (IH (disconnectAndDelete s n)) as [-> ->]. apply disconnectAndDelete_browser.
Qed.

Lemma stopLogging_logs env s : logs (stopLogging env s) = set_registry [] (logs s).
Proof.
  unfold stopLogging.
  set (s1 := unregisterAllLoggables (upd_vars (set_logging false) s)).
  assert (Hfold : ∀ {B} (f : State → B → State) (l : list B) a,
            (∀ a b, logs (f a b) = logs a) → logs (foldl f a l) = logs a).
  { intros B f l. induction l as [|b l IH]; intros a Hf; simpl; [done|].
    by rewrite IH, Hf. }
  simpl. rewrite Hfold by (intros a b; apply disconnectAndDelete_frame).
  rewrite Hfold by (intros a b; apply forgetDocument_frame). done.
Qed.

(** What [stopLogging] removes and what it leaves. Of the listeners on
    documents, exactly the [visibilitychange] and [scroll] listeners of the
    documents that were added go; every other listener, the [pointerup]
    and [dragend] listeners that call [maybeCancelDrag] among them, stays.
    Nothing that [process] attached to an element is taken off; no
    throttler is touched, so work that is pending stays pending; the
    registry of loggables is emptied, and what was logged stays. *)
Theorem stopLogging_removes_listeners env s :
  let s' := stopLogging env s in
  documentListeners (browser s') =
    filter (λ l, l ∉ documents (vars s) ≫= processingListeners)
      (documentListeners (browser s)) ∧
  (∀ d l, d ∈ documents (vars s) → l ∈ processingListeners d →
          l ∉ documentListeners (browser s')) ∧
  (∀ l, l ∈ documentListeners (browser s) → dl_callback l = fn_maybeCancelDrag →
        l ∈ documentListeners (browser s')) ∧
  attachments (browser s') = attachments (browser s) ∧
  throttlers (browser s') = throttlers (browser s) ∧
  (∀ t, pendingOn t s' = pendingOn t s) ∧
  registry (logs s') = [] ∧
  impressions (logs s') = impressions (logs s) ∧
  drags (logs s') = drags (logs s).
Proof.
  cbv zeta.
  destruct (stopLogging_frame env s) as (_ & Ht & _).
  pose proof (stopLogging_logs env s) as Hlogs.
  assert (Hl : documentListeners (browser (stopLogging env s)) =
                 filter (λ l, l ∉ documents (vars s) ≫= processingListeners)
                   (documentListeners (browser s)) ∧
               attachments (browser (stopLogging env s)) = attachments (browser s)).
  { unfold stopLogging. simpl.
    destruct (foldl_disconnectAndDelete_browser
      (shadowRoots (getDomState env (documents (vars
         (foldl (forgetDocument env)
            (unregisterAllLoggables (upd_vars (set_logging false) s))
            (documents (vars s)))))))
      (foldl (forgetDocument env)
         (unregisterAllLoggables (upd_vars (set_logging false) s))
         (documents (vars s)))) as [-> ->].
    exact (foldl_forgetDocument_listeners env (documents (vars s))
             (unregisterAllLoggables (upd_vars (set_logging false) s))). }
  destruct Hl as [Hl Ha]. rewrite Hl, Hlogs.
  split_and!; try done.
  - intros d l Hd Hin [Hn _]%list_elem_of_filter. apply Hn.
    apply list_elem_of_bind. by exists d.
  - intros l Hin Hcb. apply list_elem_of_filter. split; [|done].
    intros (d & Hl' & _)%list_elem_of_bind. unfold processingListeners in Hl'.
    repeat (apply elem_of_cons in Hl' as [->|Hl']; [done|]). by apply elem_of_nil in Hl'.
  - intros [|r]; [done|]. unfold pendingOn. by rewrite Ht.
Qed.

(** [stopLogging] cancels nothing: processing that was scheduled before it
    is still pending after it, and when the throttler fires [process] runs,
    with logging stopped; and on a page that is not hidden it calls
    [logImpressions]. *)
Theorem stopLogging_leaves_pending_work env env' (r : nat) s :
  pendingOn (ThrottlerObject r) s = Some ProcessForLogging →
  let s1 := stopLogging env s in
  let s2 := fire env' r s1 in
  pendingOn (ThrottlerObject r) s1 = Some ProcessForLogging ∧
  isLogging s2 = false ∧
  processRuns (logs s2) = S (processRuns (logs s)) ∧
  length (impressions (logs s2)) =
    (if hidden env' then length (impressions (logs s))
     else S (length (impressions (logs s)))).
Proof.
  intros Hpending. cbv zeta.
  destruct (stopLogging_frame env s) as (_ & Ht & _ & Hr).
  destruct (stopLogging_vars env s) as (Hlog & _).
  pose proof (stopLogging_logs env s) as Hlogs.
  assert (Hp1 : pendingOn (ThrottlerObject r) (stopLogging env s) = Some ProcessForLogging)
    by (unfold pendingOn in *; by rewrite Ht).
  destruct (fire_frame env' r (stopLogging env s)) as (Hk & _ & _ & _ & _ & _ & Hrun).
  apply keepsVars_fields in Hk as (Hlog2 & _).
  split_and!; [done|by unfold isLogging; rewrite Hlog2|by rewrite (Hrun Hp1), Hr|].
  unfold fire. unfold pendingOn in Hp1.
  destruct (throttlers (browser (stopLogging env s)) !! r) as [th|]; [|done].
  change (pending th = Some ProcessForLogging) in Hp1. rewrite Hp1. cbn [runTask].
  set (s1' := upd_browser _ (stopLogging env s)).
  destruct (process_impressions env' s1') as (vis & ->).
  assert (impressions (logs s1') = impressions (logs s)) as ->
    by (change (logs s1') with (logs (stopLogging env s)); by rewrite Hlogs).
  destruct (hidden env'); [done|]. rewrite length_app. simpl. lia.
Qed.

(** On the example page: processing is scheduled by a report of
    mutations, logging is stopped, and then the processing throttler
    fires. *)
Lemma stopLogging_leaves_pending_work_witness :
  let s := run initial [ (Examples.page, StartLogging None); (Examples.page, Mutation 1) ] in
  let s2 := fire Examples.page 0 (stopLogging Examples.page s) in
  pendingOn (ThrottlerObject 0) s = Some ProcessForLogging ∧
  isLogging s2 = false ∧
  processRuns (logs s) = 1 ∧
  processRuns (logs s2) = 2.
Proof.
  cbv zeta.
  set (s := run initial [ (Examples.page, StartLogging None); (Examples.page, Mutation 1) ]).
  assert (Hp : pendingOn (ThrottlerObject 0) s = Some ProcessForLogging) by (by vm_compute).
  destruct (stopLogging_leaves_pending_work Examples.page Examples.page 0 s Hp)
    as (_ & Hlog & Hruns & _).
  split_and!; [exact Hp|exact Hlog|by vm_compute|].
  rewrite Hruns. by vm_compute.
Defined.

End DriverDocuments.

(** ** [LoggingDriver.ts]: a drag from its start to the firing of the throttler *)
Section DriverDragEnd.
Import LoggingDriver DriverNotions.
Implicit Types (s : State) (env : Env).
Local Open Scope Z_scope.

Lemma fire_pending env (r : nat) task s :
  pendingOn (ThrottlerObject r) s = Some task →
  ∃ s1, fire env r s = runTask env task s1 ∧ vars s1 = vars s ∧ logs s1 = logs s.
Proof.
  unfold fire, pendingOn. intros Hp.
  destruct (throttlers (browser s) !! r) as [th|]; [|done].
  change (pending th = Some task) in Hp. rewrite Hp. by eexists.
Qed.

Lemma onDragStart_logs e s : logs (onDragStart e s) = logs s.
Proof.
  unfold onDragStart, logDrag. destruct e; [|done].
  by destruct (schedule_frame
    (dragLogThrottler (vars (upd_vars (set_dragStart screenX screenY) s)))
    (DragLog (MouseEvent screenX screenY))
    (upd_vars (set_dragStart screenX screenY) s)) as (_ & -> & _).
Qed.

Lemma maybeCancelDrag_logs e s : logs (maybeCancelDrag e s) = logs s.
Proof.
  unfold maybeCancelDrag. destruct e; [|done]. case_match; [done|].
  by destruct (schedule_frame (dragLogThrottler (vars s)) CancelLogging s) as (_ & -> & _).
Qed.

(** A drag, from [pointerdown] to the firing of the drag throttler. The
    drag is logged, once, exactly when the pointer was released 50 or more
    away from where it went down, on the x axis or on the y axis; a
    release nearer than that on both axes replaces the log with
    [cancelLogging], and nothing is logged. After the firing nothing is
    pending on the throttler, and a second firing changes nothing. Events
    that are not mouse events are ignored by both handlers. *)
Theorem drag_is_logged_iff_moved env s (x0 y0 x y : Z) (r : nat) :
  dragLogThrottler (vars s) = ThrottlerObject r →
  (r < length (throttlers (browser s)))%nat →
  let released := maybeCancelDrag (MouseEvent x y) (onDragStart (MouseEvent x0 y0) s) in
  let s' := fire env r released in
  drags (logs s') =
    (if bool_decide (Z.abs (x - x0) < DRAG_REPORT_THRESHOLD ∧
                     Z.abs (y - y0) < DRAG_REPORT_THRESHOLD)
     then drags (logs s)
     else drags (logs s) ++ [MouseEvent x0 y0]) ∧
  impressions (logs s') = impressions (logs s) ∧
  pendingOn (ThrottlerObject r) s' = None ∧
  (∀ env', fire env' r s' = s') ∧
  onDragStart OtherEvent s = s ∧ maybeCancelDrag OtherEvent s = s.
Proof.
  intros Hr Hlen. cbv zeta.
  pose proof (maybeCancelDrag_after_onDragStart s x0 y0 x y r Hr Hlen) as Hp.
  cbv zeta in Hp.
  set (released := maybeCancelDrag (MouseEvent x y) (onDragStart (MouseEvent x0 y0) s)) in *.
  assert (Hlogs : logs released = logs s).
  { unfold released. rewrite maybeCancelDrag_logs. apply onDragStart_logs. }
  destruct (fire_frame env r released) as (_ & _ & _ & _ & Hnone & Hidle & _).
  split_and!; [| |done|intros env'; by apply fire_frame|done..].
  - unfold DRAG_REPORT_THRESHOLD.
    case_bool_decide.
    + destruct (fire_pending env r CancelLogging released Hp) as (s1 & -> & _ & Hl).
      simpl. unfold cancelLogging. by rewrite Hl, Hlogs.
    + destruct (fire_pending env r _ released Hp) as (s1 & -> & _ & Hl).
      simpl. by rewrite Hl, Hlogs.
  - case_bool_decide.
    + destruct (fire_pending env r CancelLogging released Hp) as (s1 & -> & _ & Hl).
      simpl. unfold cancelLogging. by rewrite Hl, Hlogs.
    + destruct (fire_pending env r _ released Hp) as (s1 & -> & _ & Hl).
      simpl. by rewrite Hl, Hlogs.
Qed.

(** On the example page, after [startLogging]: a drag from (100, 100)
    released at (150, 100) is logged when the throttler fires, one released
    at (149, 51) is not. *)
Lemma drag_is_logged_iff_moved_witness :
  let s := startLogging None Examples.page initial in
  dragLogThrottler (vars s) = ThrottlerObject 3 ∧
  (3 < length (throttlers (browser s)))%nat ∧
  drags (logs (fire Examples.page 3
    (maybeCancelDrag (MouseEvent 150 100) (onDragStart (MouseEvent 100 100) s))))
  = [MouseEvent 100 100] ∧
  drags (logs (fire Examples.page 3
    (maybeCancelDrag (MouseEvent 149 51) (onDragStart (MouseEvent 100 100) s))))
  = [].
Proof.
  cbv zeta. set (s := startLogging None Examples.page initial).
  assert (Hr : dragLogThrottler (vars s) = ThrottlerObject 3) by (by vm_compute).
  assert (Hlen : (3 < length (throttlers (browser s)))%nat) by (vm_compute; lia).
  split_and!; [exact Hr|exact Hlen|..].
  - destruct (drag_is_logged_iff_moved Examples.page s 100 100 150 100 3 Hr Hlen)
      as (-> & _). by vm_compute.
  - destruct (drag_is_logged_iff_moved Examples.page s 100 100 149 51 3 Hr Hlen)
      as (-> & _). by vm_compute.
Defined.

End DriverDragEnd.

(** ** [LoggingDriver.ts]: the throttlers of [startLogging] *)
Section DriverStart.
Import LoggingDriver DriverNotions.
Implicit Types (s : State) (env : Env) (given : option ThrottlerHandle).

Lemma sameButObservers_throttlerVars v v' :
  sameButObservers v v' →
  processingThrottler v' = processingThrottler v ∧
  keyboardLogThrottler v' = keyboardLogThrottler v ∧
  hoverLogThrottler v' = hoverLogThrottler v ∧
  dragLogThrottler v' = dragLogThrottler v ∧
  clickLogThrottler v' = clickLogThrottler v ∧
  resizeLogThrottler v' = resizeLogThrottler v.
Proof. unfold sameButObservers. intros ->. by repeat split. Qed.

(** One [given || new Common.Throttler.Throttler(interval)]. *)
Lemma orNewThrottler_startedWith given (i : Z) s :
  let t := (orNewThrottler given i s).1 in
  let s' := (orNewThrottler given i s).2 in
  vars s' = vars s ∧
  throttlers (browser s) `prefix_of` throttlers (browser s') ∧
  length (throttlers (browser s')) = length (throttlers (browser s)) + absent given ∧
  ∀ s0 s1,
    throttlers (browser s0) `prefix_of` throttlers (browser s) →
    throttlers (browser s') `prefix_of` throttlers (browser s1) →
    startedWith given i t s0 s1.
Proof.
  cbv zeta. unfold orNewThrottler, newThrottler, startedWith.
  destruct given as [g|]; simpl.
  - split_and!; [done|done|lia|done].
  - split_and!; [done|by apply prefix_app_r|rewrite length_app; simpl; lia|].
    intros s0 s1 H0 H1. eexists. split_and!; [done|by apply prefix_length|].
    eapply prefix_lookup_Some; [|exact H1].
    rewrite lookup_app_r by lia. by rewrite Nat.sub_diag.
Qed.

(** [startLogging] and the options. Each of the six throttler variables
    ends with the throttler that the options give for it, when they give
    one, and otherwise with a new throttler that has the interval of the
    variable (500, 3000, 1000, 1250, 500 and 1000) and nothing pending. As
    many throttlers are created as the options leave out, and the
    throttlers there were stay as they are. *)
Theorem startLogging_throttlers (options : option Options) env s :
  let s' := startLogging options env s in
  startedWith (options ≫= opt_processingThrottler) PROCESS_DOM_INTERVAL
    (processingThrottler (vars s')) s s' ∧
  startedWith (options ≫= opt_keyboardLogThrottler) KEYBOARD_LOG_INTERVAL
    (keyboardLogThrottler (vars s')) s s' ∧
  startedWith (options ≫= opt_hoverLogThrottler) HOVER_LOG_INTERVAL
    (hoverLogThrottler (vars s')) s s' ∧
  startedWith (options ≫= opt_dragLogThrottler) DRAG_LOG_INTERVAL
    (dragLogThrottler (vars s')) s s' ∧
  startedWith (options ≫= opt_clickLogThrottler) CLICK_LOG_INTERVAL
    (clickLogThrottler (vars s')) s s' ∧
  startedWith (options ≫= opt_resizeLogThrottler) RESIZE_LOG_INTERVAL
    (resizeLogThrottler (vars s')) s s' ∧
  length (throttlers (browser s')) = length (throttlers (browser s)) + absentOptions options ∧
  throttlers (browser s) `prefix_of` throttlers (browser s') ∧
  [PROCESS_DOM_INTERVAL; KEYBOARD_LOG_INTERVAL; HOVER_LOG_INTERVAL; DRAG_LOG_INTERVAL;
   CLICK_LOG_INTERVAL; RESIZE_LOG_INTERVAL] = [500; 3000; 1000; 1250; 500; 1000]%Z.
Proof.
  cbv zeta. unfold startLogging.
  set (s0 := upd_vars (set_logging true) s).
  pose proof (orNewThrottler_startedWith (options ≫= opt_processingThrottler)
    PROCESS_DOM_INTERVAL s0) as (V1 & P1 & L1 & S1).
  destruct (orNewThrottler _ PROCESS_DOM_INTERVAL s0) as [p s1]. simpl in V1, P1, L1, S1.
  set (s1' := upd_vars (set_processingThrottler p) s1).
  pose proof (orNewThrottler_startedWith (options ≫= opt_keyboardLogThrottler)
    KEYBOARD_LOG_INTERVAL s1') as (V2 & P2 & L2 & S2).
  destruct (orNewThrottler _ KEYBOARD_LOG_INTERVAL s1') as [k s2]. simpl in V2, P2, L2, S2.
  pose proof (orNewThrottler_startedWith (options ≫= opt_hoverLogThrottler)
    HOVER_LOG_INTERVAL s2) as (V3 & P3 & L3 & S3).
  destruct (orNewThrottler _ HOVER_LOG_INTERVAL s2) as [h s3]. simpl in V3, P3, L3, S3.
  pose proof (orNewThrottler_startedWith (options ≫= opt_dragLogThrottler)
    DRAG_LOG_INTERVAL s3) as (V4 & P4 & L4 & S4).
  destruct (orNewThrottler _ DRAG_LOG_INTERVAL s3) as [d s4]. simpl in V4, P4, L4, S4.
  pose proof (orNewThrottler_startedWith (options ≫= opt_clickLogThrottler)
    CLICK_LOG_INTERVAL s4) as (V5 & P5 & L5 & S5).
  destruct (orNewThrottler _ CLICK_LOG_INTERVAL s4) as [c s5]. simpl in V5, P5, L5, S5.
  pose proof (orNewThrottler_startedWith (options ≫= opt_resizeLogThrottler)
    RESIZE_LOG_INTERVAL s5) as (V6 & P6 & L6 & S6).
  destruct (orNewThrottler _ RESIZE_LOG_INTERVAL s5) as [r s6]. simpl in V6, P6, L6, S6.
  set (s7 := upd_vars (set_throttlerVars p k h d c r) s6).
  destruct (addDocument_frame env (document env) s7) as (Hvars & Ht & _).
  apply sameButObservers_throttlerVars in Hvars as (-> & -> & -> & -> & -> & ->).
  set (sF := addDocument env (document env) s7) in *.
  assert (HF : throttlers (browser s6) `prefix_of` throttlers (browser sF))
    by (rewrite Ht; done).
  assert (Q1 : throttlers (browser s) `prefix_of` throttlers (browser s1')) by exact P1.
  assert (Q2 : throttlers (browser s) `prefix_of` throttlers (browser s2)) by (by etrans).
  assert (Q3 : throttlers (browser s) `prefix_of` throttlers (browser s3)) by (by etrans).
  assert (Q4 : throttlers (browser s) `prefix_of` throttlers (browser s4)) by (by etrans).
  assert (Q5 : throttlers (browser s) `prefix_of` throttlers (browser s5)) by (by etrans).
  assert (R5 : throttlers (browser s5) `prefix_of` throttlers (browser sF)) by (by etrans).
  assert (R4 : throttlers (browser s4) `prefix_of` throttlers (browser sF)) by (by etrans).
  assert (R3 : throttlers (browser s3) `prefix_of` throttlers (browser sF)) by (by etrans).
  assert (R2 : throttlers (browser s2) `prefix_of` throttlers (browser sF)) by (by etrans).
  assert (R1 : throttlers (browser s1) `prefix_of` throttlers (browser sF))
    by (etrans; [exact P2|done]).
  split_and!.
  - by apply S1.
  - by apply S2.
  - by apply S3.
  - by apply S4.
  - by apply S5.
  - by apply S6.
  - rewrite Ht. unfold absentOptions. simpl.
    change (throttlers (browser s1')) with (throttlers (browser s1)) in L2.
    change (throttlers (browser s0)) with (throttlers (browser s)) in L1. lia.
  - by etrans.
  - done.
Qed.

End DriverStart.

(** ** [LoggingDriver.ts]: what a run of [process] does to a loggable *)
Section DriverProcess.
Import LoggingDriver DriverNotions.
Implicit Types (s : State) (env : Env) (l : Loggable) (vis : list Loggable)
  (element e : Node).

Lemma attachHandlers_attachments env element c s :
  attachments (browser (attachHandlers env element c s)) =
  attachments (browser s) ++ ((λ a, (element, a)) <$> elementAttachments (tagName env element) c).
Proof. unfold attachHandlers, addDocumentListener. by repeat case_match. Qed.

(** One turn of the loop over the elements, as equations: what the turn
    does to the state of the element, to [visibleLoggables] and to what is
    attached. *)
Lemma processElement_eq env s vis element (parentElement : option Node) :
  let created := getOrCreateLoggingState (DomElement element)
                   (getLoggingConfig env element) (DomElement <$> parentElement) s in
  let st0 := created.1 in
  let overlap := visibleOverlap env element (viewportRectFor env element) in
  let visible :=
    negb (impressionLogged st0) &&
    (bool_decide (is_Some overlap) ||
     bool_decide (tagName env element = "OPTION") && parentFlag selectOpen st0 created.2) in
  let st1 := if visible then with_impression overlap st0 else st0 in
  let st2 := if processed st0 then st1 else with_processed st1 in
  let s' := (processElement env (s, vis) (element, parentElement)).1 in
  (processElement env (s, vis) (element, parentElement)).2 =
    (if visible then vis ++ [DomElement element] else vis) ∧
  logs s' = set_loggingStates (<[DomElement element := st2]> (loggingStates (logs s))) (logs s) ∧
  attachments (browser s') =
    attachments (browser s) ++
    (if processed st0 then []
     else (λ a, (element, a)) <$> elementAttachments (tagName env element) (config st0)) ∧
  st0 = default {| impressionLogged := false; processed := false;
                   config := getLoggingConfig env element;
                   parent := DomElement <$> parentElement;
                   size := None; selectOpen := false |}
          (getLoggingState (DomElement element) s).
Proof.
  cbv zeta. unfold processElement.
  assert (Hcreated :
    logs (getOrCreateLoggingState (DomElement element) (getLoggingConfig env element)
            (DomElement <$> parentElement) s).2 =
    set_loggingStates
      (<[DomElement element :=
           (getOrCreateLoggingState (DomElement element) (getLoggingConfig env element)
              (DomElement <$> parentElement) s).1]> (loggingStates (logs s))) (logs s) ∧
    browser (getOrCreateLoggingState (DomElement element) (getLoggingConfig env element)
               (DomElement <$> parentElement) s).2 = browser s ∧
    (getOrCreateLoggingState (DomElement element) (getLoggingConfig env element)
       (DomElement <$> parentElement) s).1 =
    default {| impressionLogged := false; processed := false;
               config := getLoggingConfig env element;
               parent := DomElement <$> parentElement;
               size := None; selectOpen := false |}
      (getLoggingState (DomElement element) s)).
  { unfold getOrCreateLoggingState.
    destruct (getLoggingState (DomElement element) s) as [st|] eqn:Hst; simpl; [|done].
    split_and!; [|done..]. unfold getLoggingState in Hst.
    rewrite insert_id by done. by destruct (logs s). }
  destruct (getOrCreateLoggingState (DomElement element) (getLoggingConfig env element)
              (DomElement <$> parentElement) s) as [st0 s1].
  simpl in Hcreated |- *. destruct Hcreated as (Hlogs & Hbrowser & Hst0).
  set (visible := negb (impressionLogged st0) && _).
  assert (Hbranch :
    (if negb (impressionLogged st0)
     then if bool_decide (is_Some (visibleOverlap env element (viewportRectFor env element)))
             || bool_decide (tagName env element = "OPTION") && parentFlag selectOpen st0 s1
          then (with_impression (visibleOverlap env element (viewportRectFor env element)) st0,
                vis ++ [DomElement element])
          else (st0, vis)
     else (st0, vis)) =
    (if visible
     then with_impression (visibleOverlap env element (viewportRectFor env element)) st0
     else st0,
     if visible then vis ++ [DomElement element] else vis)).
  { unfold visible. destruct (impressionLogged st0); simpl; [done|]. by case_match. }
  rewrite Hbranch. clear Hbranch.
  set (st1 := if visible then _ else st0).
  assert (Hp : processed st1 = processed st0) by (unfold st1; by destruct visible).
  assert (Hc : config st1 = config st0) by (unfold st1; by destruct visible).
  rewrite Hp, Hc.
  destruct (processed st0) eqn:Hproc; simpl.
  - split_and!; [done| |by rewrite Hbrowser, app_nil_r|done].
    rewrite Hlogs. simpl. by rewrite insert_insert_eq.
  - split_and!; [done| |by rewrite attachHandlers_attachments; simpl; rewrite Hbrowser|done].
    rewrite attachHandlers_logs. simpl. rewrite Hlogs. simpl.
    by rewrite !insert_insert_eq.
Qed.

(** One turn of the loop over the registered loggables, as equations. *)
Lemma processNonDom_eq s vis (r : Registration) :
  let created := getOrCreateLoggingState (reg_loggable r) (reg_config r) (reg_parent r) s in
  let st0 := created.1 in
  let visible :=
    negb (bool_decide (is_Some (reg_parent r))) ||
    parentFlag impressionLogged st0 created.2 in
  let s' := (processNonDom (s, vis) r).1 in
  (processNonDom (s, vis) r).2 = (if visible then vis ++ [reg_loggable r] else vis) ∧
  loggingStates (logs s') =
    <[reg_loggable r := if visible then with_impression None st0 else st0]>
      (loggingStates (logs s)) ∧
  registry (logs s') =
    (if visible then filter (λ r', reg_loggable r' ≠ reg_loggable r) (registry (logs s))
     else registry (logs s)) ∧
  impressions (logs s') = impressions (logs s) ∧
  browser s' = browser s ∧
  (∀ st, getLoggingState (reg_loggable r) s = Some st → st0 = st) ∧
  (getLoggingState (reg_loggable r) s = None →
   impressionLogged st0 = false ∧ processed st0 = false ∧ selectOpen st0 = false ∧
   size st0 = None).
Proof.
  cbv zeta. unfold processNonDom.
  assert (Hcreated :
    loggingStates (logs (getOrCreateLoggingState (reg_loggable r) (reg_config r)
                           (reg_parent r) s).2) =
      <[reg_loggable r :=
          (getOrCreateLoggingState (reg_loggable r) (reg_config r) (reg_parent r) s).1]>
        (loggingStates (logs s)) ∧
    registry (logs (getOrCreateLoggingState (reg_loggable r) (reg_config r)
                      (reg_parent r) s).2) = registry (logs s) ∧
    impressions (logs (getOrCreateLoggingState (reg_loggable r) (reg_config r)
                         (reg_parent r) s).2) = impressions (logs s) ∧
    browser (getOrCreateLoggingState (reg_loggable r) (reg_config r) (reg_parent r) s).2 =
      browser s ∧
    (∀ st, getLoggingState (reg_loggable r) s = Some st →
       (getOrCreateLoggingState (reg_loggable r) (reg_config r) (reg_parent r) s).1 = st) ∧
    (getLoggingState (reg_loggable r) s = None →
       (getOrCreateLoggingState (reg_loggable r) (reg_config r) (reg_parent r) s).1 =
       {| impressionLogged := false; processed := false; config := reg_config r;
          parent := reg_parent r; size := None; selectOpen := false |})).
  { unfold getOrCreateLoggingState.
    destruct (getLoggingState (reg_loggable r) s) as [st|] eqn:Hst; simpl.
    - split_and!; try done; [|by intros ? [= ->]]. unfold getLoggingState in Hst.
      by rewrite insert_id.
    - by split_and!. }
  destruct (getOrCreateLoggingState (reg_loggable r) (reg_config r) (reg_parent r) s)
    as [st0 s1].
  simpl in Hcreated |- *. destruct Hcreated as (Hstates & Hreg & Himp & Hbrowser & Hsome & Hnone).
  destruct (negb (bool_decide (is_Some (reg_parent r))) || parentFlag impressionLogged st0 s1);
    simpl.
  - split_and!; try done.
    + by rewrite Hstates, insert_insert_eq.
    + by rewrite Hreg.
    + intros Hn. by rewrite (Hnone Hn).
  - split_and!; try done. intros Hn. by rewrite (Hnone Hn).
Qed.

(** A run of [process] on a page that is not hidden, as an equation. *)
Lemma process_unfold env s :
  hidden env = false →
  let dom := getDomState env (documents (vars s)) in
  let s1 := observeMutations (shadowRoots dom)
              (upd_logs (λ lg, set_processRuns (S (processRuns lg)) lg) s) in
  let a2 := foldl (processElement env) (s1, []) (loggables dom) in
  let a3 := foldl processNonDom a2 (getNonDomState a2.1) in
  process env s =
    upd_logs (λ lg, set_processingDone (S (processingDone lg)) lg)
      (logImpressions a3.2 a3.1) ∧
  logs s1 = set_processRuns (S (processRuns (logs s))) (logs s) ∧
  attachments (browser s1) = attachments (browser s) ∧
  lastBatch (process env s) = a3.2.
Proof.
  intros Hh. cbv zeta. unfold process. rewrite Hh.
  change (documents (vars (upd_logs _ s))) with (documents (vars s)).
  set (dom := getDomState env (documents (vars s))).
  destruct (observeMutations_frame (shadowRoots dom)
    (upd_logs (λ lg, set_processRuns (S (processRuns lg)) lg) s)) as (_ & _ & _ & Ha & Hl).
  set (s1 := observeMutations _ _) in *.
  destruct (foldl (processElement env) (s1, []) (loggables dom)) as [s2 vis2]. simpl.
  destruct (foldl processNonDom (s2, vis2) (getNonDomState s2)) as [s3 vis3]. simpl.
  split_and!; [done..|]. unfold lastBatch. simpl. by rewrite last_snoc.
Qed.

(** What one turn of the loop over the elements does, seen from outside. *)
Lemma processElement_step env s vis element (parentElement : option Node) :
  let acc' := processElement env (s, vis) (element, parentElement) in
  let overlap := visibleOverlap env element (viewportRectFor env element) in
  let st0 := stateOr (getLoggingConfig env element) (DomElement <$> parentElement)
               (DomElement element) s in
  (∀ l, l ≠ DomElement element → getLoggingState l acc'.1 = getLoggingState l s) ∧
  registry (logs acc'.1) = registry (logs s) ∧
  attachments (browser acc'.1) =
    attachments (browser s) ++
    (if processed st0 then []
     else (λ a, (element, a)) <$> elementAttachments (tagName env element) (config st0)) ∧
  ∃ st2,
    getLoggingState (DomElement element) acc'.1 = Some st2 ∧
    processed st2 = true ∧ config st2 = config st0 ∧ selectOpen st2 = selectOpen st0 ∧
    (acc'.2 = vis ∧ impressionLogged st2 = impressionLogged st0 ∧ size st2 = size st0 ∧
     (impressionLogged st0 = false → overlap = None)
     ∨
     acc'.2 = vis ++ [DomElement element] ∧
     impressionLogged st0 = false ∧ impressionLogged st2 = true ∧
     (is_Some overlap ∨ tagName env element = "OPTION") ∧
     (∀ rect, overlap = Some rect → size st2 = Some rect)).
Proof.
  cbv zeta.
  pose proof (processElement_eq env s vis element parentElement) as Heq.
  cbv zeta in Heq. destruct Heq as (Hvis & Hlogs & Hatt & Hst0).
  unfold stateOr, createdState. rewrite <- Hst0.
  set (st0 := (getOrCreateLoggingState _ _ _ s).1) in *.
  set (created := (getOrCreateLoggingState _ _ _ s).2) in *.
  set (overlap := visibleOverlap env element (viewportRectFor env element)) in *.
  set (visible := negb (impressionLogged st0) && _) in *.
  set (acc' := processElement env (s, vis) (element, parentElement)) in *.
  split_and!.
  - intros l Hl. unfold getLoggingState. rewrite Hlogs. simpl.
    by rewrite lookup_insert_ne.
  - by rewrite Hlogs.
  - done.
  - eexists. split; [unfold getLoggingState; rewrite Hlogs; simpl; apply lookup_insert_eq|].
    split_and!.
    + destruct (processed st0) eqn:Hp; destruct visible; simpl; done.
    + destruct (processed st0); destruct visible; done.
    + destruct (processed st0); destruct visible; done.
    + rewrite Hvis. destruct visible eqn:Hv.
      * right. unfold visible in Hv.
        apply andb_true_iff in Hv as [Hfl Hv]. apply negb_true_iff in Hfl.
        split_and!; [done|done| | |].
        -- by destruct (processed st0).
        -- apply orb_true_iff in Hv as [Hv|Hv].
           ++ left. by apply bool_decide_eq_true in Hv.
           ++ right. apply andb_true_iff in Hv as [Hv _].
              by apply bool_decide_eq_true in Hv.
        -- intros rect Hrect. rewrite Hrect. by destruct (processed st0).
      * left. split_and!; [done|by destruct (processed st0)..|].
        intros Hfl. unfold visible in Hv. rewrite Hfl in Hv. simpl in Hv.
        apply orb_false_iff in Hv as [Hv _]. apply bool_decide_eq_false in Hv.
        destruct overlap; [|done]. exfalso. apply Hv. by eexists.
Qed.

(** What one turn of the loop over the registered loggables does, seen
    from outside. *)
Lemma processNonDom_step s vis (r : Registration) :
  let acc' := processNonDom (s, vis) r in
  let st0 := stateOr (reg_config r) (reg_parent r) (reg_loggable r) s in
  (∀ l, l ≠ reg_loggable r → getLoggingState l acc'.1 = getLoggingState l s) ∧
  browser acc'.1 = browser s ∧
  impressions (logs acc'.1) = impressions (logs s) ∧
  (∃ st2,
     getLoggingState (reg_loggable r) acc'.1 = Some st2 ∧
     processed st2 = processed st0 ∧ selectOpen st2 = selectOpen st0 ∧
     size st2 = size st0 ∧
     (impressionLogged st0 = true → impressionLogged st2 = true)) ∧
  (acc'.2 = vis ∧ registry (logs acc'.1) = registry (logs s) ∧
   is_Some (reg_parent r)
   ∨
   acc'.2 = vis ++ [reg_loggable r] ∧
   registry (logs acc'.1) =
     filter (λ r', reg_loggable r' ≠ reg_loggable r) (registry (logs s)) ∧
   flagged (reg_loggable r) acc'.1 = true) ∧
  (reg_parent r = None → acc'.2 = vis ++ [reg_loggable r]).
Proof.
  cbv zeta.
  pose proof (processNonDom_eq s vis r) as Heq. cbv zeta in Heq.
  destruct Heq as (Hvis & Hstates & Hreg & Himp & Hbrowser & Hsome & Hnone).
  set (st0 := (getOrCreateLoggingState _ _ _ s).1) in *.
  set (created := (getOrCreateLoggingState _ _ _ s).2) in *.
  set (visible := negb (bool_decide (is_Some (reg_parent r))) || _) in *.
  assert (Hst0 : processed st0 = processed (stateOr (reg_config r) (reg_parent r)
                   (reg_loggable r) s) ∧
                 selectOpen st0 = selectOpen (stateOr (reg_config r) (reg_parent r)
                   (reg_loggable r) s) ∧
                 size st0 = size (stateOr (reg_config r) (reg_parent r) (reg_loggable r) s) ∧
                 impressionLogged st0 =
                   impressionLogged (stateOr (reg_config r) (reg_parent r)
                     (reg_loggable r) s)).
  { unfold stateOr. destruct (getLoggingState (reg_loggable r) s) as [st|] eqn:Hst; simpl.
    - by rewrite (Hsome st eq_refl).
    - by destruct (Hnone eq_refl) as (-> & -> & -> & ->). }
  destruct Hst0 as (Hp & Ho & Hs & Hi). rewrite <- Hp, <- Ho, <- Hs, <- Hi.
  split_and!; try done.
  - intros l Hl. unfold getLoggingState. rewrite Hstates. by rewrite lookup_insert_ne.
  - eexists. split; [unfold getLoggingState; rewrite Hstates; apply lookup_insert_eq|].
    by destruct visible.
  - rewrite Hvis, Hreg. destruct visible eqn:Hv.
    + right. split_and!; [done..|].
      unfold flagged, getLoggingState. rewrite Hstates. by rewrite lookup_insert_eq.
    + left. split_and!; [done..|]. unfold visible in Hv.
      apply orb_false_iff in Hv as [Hv _]. apply negb_false_iff in Hv.
      by apply bool_decide_eq_true in Hv.
  - intros Hnoparent. rewrite Hvis. unfold visible. rewrite Hnoparent.
    rewrite bool_decide_eq_false_2 by (by intros [? ?]). done.
Qed.

Lemma stateOr_fields c (p : option Loggable) l s :
  impressionLogged (stateOr c p l s) = flagged l s ∧
  processed (stateOr c p l s) = isProcessed l s ∧
  selectOpen (stateOr c p l s) = isOpen l s.
Proof.
  unfold stateOr, flagged, isProcessed, isOpen. by destruct (getLoggingState l s).
Qed.

Lemma stateOr_config env element (p : option Loggable) s :
  config (stateOr (getLoggingConfig env element) p (DomElement element) s) =
  configFor env element s.
Proof. unfold stateOr, configFor. by destruct (getLoggingState _ s). Qed.

Lemma filter_attached (e element : Node) (xs : list Attachment) :
  (filter (λ a : Node * Attachment, a.1 = e) ((λ a, (element, a)) <$> xs)).*2 =
  if decide (e = element) then xs else [].
Proof.
  destruct (decide (e = element)) as [->|Hne].
  - induction xs as [|x xs IH]; [done|].
    rewrite fmap_cons, filter_cons, decide_True by done.
    rewrite fmap_cons. simpl. by f_equal.
  - induction xs as [|x xs IH]; [done|].
    rewrite fmap_cons, filter_cons, decide_False by (simpl; congruence). done.
Qed.

Lemma attachedTo_app (e : Node) s s' (xs : list (Node * Attachment)) :
  attachments (browser s') = attachments (browser s) ++ xs →
  attachedTo e s' = attachedTo e s ++ (filter (λ a, a.1 = e) xs).*2.
Proof. unfold attachedTo. intros ->. by rewrite filter_app, fmap_app. Qed.

(** *** What is attached to an element *)

Lemma processElement_attached env s vis element (parentElement : option Node) e :
  let acc' := processElement env (s, vis) (element, parentElement) in
  attachedTo e acc'.1 =
    attachedTo e s ++
    (if decide (e = element)
     then if isProcessed (DomElement e) s then []
          else elementAttachments (tagName env e) (configFor env e s)
     else []) ∧
  isProcessed (DomElement e) acc'.1 =
    (if decide (e = element) then true else isProcessed (DomElement e) s) ∧
  configFor env e acc'.1 = configFor env e s.
Proof.
  cbv zeta.
  destruct (processElement_step env s vis element parentElement)
    as (Hother & _ & Hatt & st2 & Hst2 & Hp & Hc & _).
  destruct (stateOr_fields (getLoggingConfig env element) (DomElement <$> parentElement)
              (DomElement element) s) as (_ & Hproc & _).
  rewrite Hproc, stateOr_config in Hatt. rewrite stateOr_config in Hc.
  rewrite (attachedTo_app e _ _ _ Hatt).
  destruct (decide (e = element)) as [->|Hne].
  - split_and!.
    + f_equal. destruct (isProcessed (DomElement element) s); [done|].
      by rewrite filter_attached, decide_True.
    + unfold isProcessed. by rewrite Hst2.
    + unfold configFor at 1. by rewrite Hst2.
  - assert (Hsame : getLoggingState (DomElement e)
                      (processElement env (s, vis) (element, parentElement)).1 =
                    getLoggingState (DomElement e) s)
      by (apply Hother; congruence).
    split_and!.
    + f_equal. destruct (isProcessed (DomElement element) s); [done|].
      by rewrite filter_attached, decide_False.
    + unfold isProcessed. by rewrite Hsame.
    + unfold configFor. by rewrite Hsame.
Qed.

Lemma domLoop_attached env (items : list (Node * option Node)) s vis e :
  let acc' := foldl (processElement env) (s, vis) items in
  attachedTo e acc'.1 =
    attachedTo e s ++
    (if bool_decide (e ∈ items.*1) && negb (isProcessed (DomElement e) s)
     then elementAttachments (tagName env e) (configFor env e s) else []) ∧
  isProcessed (DomElement e) acc'.1 =
    bool_decide (e ∈ items.*1) || isProcessed (DomElement e) s ∧
  configFor env e acc'.1 = configFor env e s.
Proof.
  cbv zeta. revert s vis. induction items as [|[element p] items IH]; intros s vis.
  - simpl. by rewrite app_nil_r.
  - change (foldl (processElement env) (s, vis) ((element, p) :: items))
      with (foldl (processElement env) (processElement env (s, vis) (element, p)) items).
    destruct (processElement_attached env s vis element p e) as (Ha & Hp & Hc).
    destruct (processElement env (s, vis) (element, p)) as [s1 vis1]. simpl in Ha, Hp, Hc.
    destruct (IH s1 vis1) as (-> & -> & ->). rewrite Ha, Hp, Hc.
    rewrite fmap_cons. simpl.
    destruct (decide (e = element)) as [->|Hne].
    + rewrite (bool_decide_eq_true_2 (element ∈ element :: items.*1)) by left.
      rewrite andb_false_r, app_nil_r, orb_true_r. simpl.
      split_and!; [|done..]. by destruct (isProcessed (DomElement element) s).
    + rewrite (bool_decide_ext (e ∈ element :: items.*1) (e ∈ items.*1))
        by (rewrite elem_of_cons; tauto).
      by rewrite app_nil_r.
Qed.

Lemma processNonDom_isProcessed s vis (r : Registration) l :
  isProcessed l (processNonDom (s, vis) r).1 = isProcessed l s ∧
  isOpen l (processNonDom (s, vis) r).1 = isOpen l s.
Proof.
  destruct (processNonDom_step s vis r) as (Hother & _ & _ & (st2 & Hst2 & Hp & Ho & _) & _).
  destruct (stateOr_fields (reg_config r) (reg_parent r) (reg_loggable r) s)
    as (_ & Hproc & Hopen).
  unfold isProcessed, isOpen in *.
  destruct (decide (l = reg_loggable r)) as [->|Hne].
  - rewrite Hst2. by rewrite Hp, Ho.
  - by rewrite (Hother l Hne).
Qed.

Lemma nonDomLoop_attached (regs : list Registration) s vis :
  let acc' := foldl processNonDom (s, vis) regs in
  browser acc'.1 = browser s ∧
  ∀ l, isProcessed l acc'.1 = isProcessed l s ∧ isOpen l acc'.1 = isOpen l s.
Proof.
  cbv zeta. revert s vis. induction regs as [|r regs IH]; intros s vis; [done|].
  change (foldl processNonDom (s, vis) (r :: regs))
    with (foldl processNonDom (processNonDom (s, vis) r) regs).
  destruct (processNonDom_step s vis r) as (_ & Hb & _).
  pose proof (processNonDom_isProcessed s vis r) as Hp.
  destruct (processNonDom (s, vis) r) as [s1 vis1]. simpl in Hb, Hp.
  destruct (IH s1 vis1) as (-> & Hl). split; [done|].
  intros l. destruct (Hl l) as [-> ->]. apply Hp.
Qed.

Lemma process_attached env s e :
  attachedTo e (process env s) =
    attachedTo e s ++
    (if negb (hidden env) && bool_decide (e ∈ listed env s) &&
        negb (isProcessed (DomElement e) s)
     then elementAttachments (tagName env e) (configFor env e s) else []) ∧
  isProcessed (DomElement e) (process env s) =
    negb (hidden env) && bool_decide (e ∈ listed env s) || isProcessed (DomElement e) s.
Proof.
  destruct (hidden env) eqn:Hh.
  - unfold process. rewrite Hh. simpl. by rewrite app_nil_r.
  - destruct (process_unfold env s Hh) as (-> & Hlogs & Hatt & _). simpl.
    set (dom := getDomState env (documents (vars s))) in *.
    set (s1 := observeMutations _ _) in *.
    destruct (domLoop_attached env (loggables dom) s1 [] e) as (Ha & Hp & _).
    set (a2 := foldl (processElement env) (s1, []) (loggables dom)) in *.
    destruct (nonDomLoop_attached (getNonDomState a2.1) a2.1 a2.2) as (Hb & Hl).
    rewrite <- surjective_pairing in Hb, Hl.
    set (a3 := foldl processNonDom a2 (getNonDomState a2.1)) in *.
    assert (Hs1 : isProcessed (DomElement e) s1 = isProcessed (DomElement e) s ∧
                  configFor env e s1 = configFor env e s ∧
                  attachedTo e s1 = attachedTo e s).
    { unfold isProcessed, configFor, attachedTo, getLoggingState. by rewrite Hlogs, Hatt. }
    destruct Hs1 as (Hp1 & Hc1 & Ha1). rewrite Hp1, Hc1, Ha1 in *.
    split.
    + transitivity (attachedTo e a3.1); [done|].
      transitivity (attachedTo e a2.1); [unfold attachedTo; by rewrite Hb|exact Ha].
    + transitivity (isProcessed (DomElement e) a3.1); [done|].
      destruct (Hl (DomElement e)) as [-> _]. exact Hp.
Qed.

(** The listeners and observers of an element are attached once. A run
    of [process] attaches them to an element exactly when the page is not
    hidden, the element is listed and its state is not marked as
    processed; it then marks it. Once an element is marked, no run of
    [process] attaches anything to it; so what is attached to an element
    that had nothing is, at any later point, nothing or what one turn of the
    loop attaches. *)
Theorem handlers_attached_once :
  (∀ env s e,
     attachedTo e (process env s) =
       attachedTo e s ++
       (if negb (hidden env) && bool_decide (e ∈ listed env s) &&
           negb (isProcessed (DomElement e) s)
        then elementAttachments (tagName env e) (configFor env e s) else []) ∧
     isProcessed (DomElement e) (process env s) =
       negb (hidden env) && bool_decide (e ∈ listed env s) ||
       isProcessed (DomElement e) s) ∧
  (∀ (envs : list Env) s e,
     isProcessed (DomElement e) s = true →
     attachedTo e (processes envs s) = attachedTo e s ∧
     isProcessed (DomElement e) (processes envs s) = true) ∧
  (∀ (envs : list Env) s e,
     isProcessed (DomElement e) s = false → attachedTo e s = [] →
     attachedTo e (processes envs s) = [] ∨
     ∃ env c, env ∈ envs ∧
       attachedTo e (processes envs s) = elementAttachments (tagName env e) c).
Proof.
  assert (Hkeep : ∀ (envs : list Env) s e,
     isProcessed (DomElement e) s = true →
     attachedTo e (processes envs s) = attachedTo e s ∧
     isProcessed (DomElement e) (processes envs s) = true).
  { unfold processes. induction envs as [|env envs IH]; intros s e Hp; simpl; [done|].
    destruct (process_attached env s e) as [Ha Hp'].
    rewrite Hp in Ha, Hp'. rewrite andb_false_r, app_nil_r in Ha.
    rewrite orb_true_r in Hp'.
    destruct (IH (process env s) e Hp') as [-> ->]. by rewrite Ha. }
  split_and!; [apply process_attached|exact Hkeep|].
  unfold processes. induction envs as [|env envs IH]; intros s e Hp Ha; simpl; [by left|].
  destruct (process_attached env s e) as [Ha' Hp']. rewrite Hp, Ha in Ha'. rewrite Hp in Hp'.
  rewrite andb_true_r in Ha'. rewrite orb_false_r in Hp'. simpl in Ha'.
  destruct (negb (hidden env) && bool_decide (e ∈ listed env s)) eqn:Hturn.
  - right. exists env, (configFor env e s). split; [left|].
    destruct (Hkeep envs (process env s) e Hp') as [Hsame _].
    unfold processes in Hsame. by rewrite Hsame.
  - destruct (IH (process env s) e Hp' Ha') as [Hnil|(env' & c & Hin & Hatt)]; [by left|].
    right. exists env', c. split; [by right|done].
Qed.

(** *** Selects that were opened *)

Lemma processElement_isOpen env s vis element (parentElement : option Node) l :
  isOpen l (processElement env (s, vis) (element, parentElement)).1 = isOpen l s.
Proof.
  destruct (processElement_step env s vis element parentElement)
    as (Hother & _ & _ & st2 & Hst2 & _ & _ & Ho & _).
  destruct (stateOr_fields (getLoggingConfig env element) (DomElement <$> parentElement)
              (DomElement element) s) as (_ & _ & Hopen).
  unfold isOpen in *. destruct (decide (l = DomElement element)) as [->|Hne].
  - rewrite Hst2. by rewrite Ho.
  - by rewrite (Hother l Hne).
Qed.

Lemma process_isOpen env s l : isOpen l (process env s) = isOpen l s.
Proof.
  destruct (hidden env) eqn:Hh.
  - unfold process. by rewrite Hh.
  - destruct (process_unfold env s Hh) as (-> & Hlogs & _).
    set (dom := getDomState env (documents (vars s))) in *.
    set (s1 := observeMutations _ _) in *.
    assert (H2 : ∀ items a vis,
      isOpen l (foldl (processElement env) (a, vis) items).1 = isOpen l a).
    { induction items as [|[e p] items IH]; intros a vis; [done|].
      change (foldl (processElement env) (a, vis) ((e, p) :: items))
        with (foldl (processElement env) (processElement env (a, vis) (e, p)) items).
      pose proof (processElement_isOpen env a vis e p l) as He.
      destruct (processElement env (a, vis) (e, p)) as [a' vis']. by rewrite IH. }
    specialize (H2 (loggables dom) s1 []).
    set (a2 := foldl (processElement env) (s1, []) (loggables dom)) in *.
    destruct (nonDomLoop_attached (getNonDomState a2.1) a2.1 a2.2) as (_ & Hl).
    rewrite <- surjective_pairing in Hl. destruct (Hl l) as [_ H3].
    transitivity (isOpen l (foldl processNonDom a2 (getNonDomState a2.1)).1); [done|].
    rewrite H3, H2. unfold isOpen, getLoggingState. by rewrite Hlogs.
Qed.

Lemma processes_isOpen (envs : list Env) s l : isOpen l (processes envs s) = isOpen l s.
Proof.
  unfold processes. revert s. induction envs as [|env envs IH]; intros s; simpl; [done|].
  rewrite IH. apply process_isOpen.
Qed.

(** [onSelectOpen], the handler that [process] puts on a [SELECT]. The
    first call for a select marks it as open and schedules processing,
    once; a call for a select that is marked, or that has no state, changes
    nothing, so that a second call is without effect. No run of [process]
    takes the mark off, and none sets it. *)
Theorem onSelectOpen_once element s :
  let s1 := onSelectOpen element s in
  onSelectOpen element s1 = s1 ∧
  (isOpen (DomElement element) s = true ∨ getLoggingState (DomElement element) s = None →
   s1 = s) ∧
  (isOpen (DomElement element) s = false →
   is_Some (getLoggingState (DomElement element) s) →
   isOpen (DomElement element) s1 = true ∧
   scheduleCalls (browser s1) =
     scheduleCalls (browser s) ++ [(processingThrottler (vars s), ProcessForLogging)] ∧
   vars s1 = vars s ∧ impressions (logs s1) = impressions (logs s)) ∧
  (∀ (envs : list Env) l, isOpen l (processes envs s) = isOpen l s).
Proof.
  cbv zeta. split_and!; [| | |intros envs l; apply processes_isOpen];
    unfold onSelectOpen, isOpen;
    destruct (getLoggingState (DomElement element) s) as [st|] eqn:Hst;
    try (rewrite ?Hst; done); try (by intros _ [? ?]);
    destruct (selectOpen st) eqn:Hopen; try (rewrite ?Hst, ?Hopen; done).
  - set (s0 := setLoggingState (DomElement element) (with_selectOpen st) s).
    destruct (scheduleProcessing_frame s0) as (_ & Hl & _).
    assert (Hst1 : getLoggingState (DomElement element) (scheduleProcessing s0) =
                   Some (with_selectOpen st)).
    { unfold getLoggingState. rewrite Hl. simpl. apply lookup_insert_eq. }
    by rewrite Hst1.
  - by intros [?|?].
  - intros _ _.
    set (s0 := setLoggingState (DomElement element) (with_selectOpen st) s).
    destruct (scheduleProcessing_frame s0) as (Hv & Hl & _ & Hc).
    assert (Hst1 : getLoggingState (DomElement element) (scheduleProcessing s0) =
                   Some (with_selectOpen st)).
    { unfold getLoggingState. rewrite Hl. simpl. apply lookup_insert_eq. }
    rewrite Hst1. split_and!; [done|done|by rewrite Hv|by rewrite Hl].
Qed.

(** *** What a run of [process] hands to [logImpressions] *)

Lemma processElement_flagged env s vis element (parentElement : option Node) l :
  let acc' := processElement env (s, vis) (element, parentElement) in
  (flagged l s = true → flagged l acc'.1 = true) ∧
  (l ≠ DomElement element → flagged l acc'.1 = flagged l s).
Proof.
  cbv zeta.
  destruct (processElement_step env s vis element parentElement)
    as (Hother & _ & _ & st2 & Hst2 & _ & _ & _ & Hcase).
  destruct (stateOr_fields (getLoggingConfig env element) (DomElement <$> parentElement)
              (DomElement element) s) as (Hfl & _).
  assert (Hne : l ≠ DomElement element →
    flagged l (processElement env (s, vis) (element, parentElement)).1 = flagged l s).
  { intros Hl. unfold flagged. by rewrite (Hother l Hl). }
  split; [|done]. intros Hl. destruct (decide (l = DomElement element)) as [->|Hl'].
  - unfold flagged at 1. rewrite Hst2.
    destruct Hcase as [(_ & -> & _)|(_ & _ & -> & _)]; [|done]. by rewrite Hfl.
  - by rewrite Hne.
Qed.

Lemma processNonDom_flagged s vis (r : Registration) l :
  flagged l s = true → flagged l (processNonDom (s, vis) r).1 = true.
Proof.
  intros Hl.
  destruct (processNonDom_step s vis r) as (Hother & _ & _ & (st2 & Hst2 & _ & _ & _ & Hi) & _).
  destruct (stateOr_fields (reg_config r) (reg_parent r) (reg_loggable r) s) as (Hfl & _).
  unfold flagged at 1. destruct (decide (l = reg_loggable r)) as [->|Hne].
  - rewrite Hst2. apply Hi. by rewrite Hfl.
  - by rewrite (Hother l Hne).
Qed.

(** Both loops only add to [visibleLoggables], keep the impressions
    logged with their size, and the second only takes out of the registry. *)
Lemma domLoop_keeps env (items : list (Node * option Node)) s vis :
  let acc' := foldl (processElement env) (s, vis) items in
  vis `prefix_of` acc'.2 ∧
  registry (logs acc'.1) = registry (logs s) ∧
  (∀ l, flagged l s = true → flagged l acc'.1 = true) ∧
  (∀ rect l, impressionWith rect l s → impressionWith rect l acc'.1).
Proof.
  cbv zeta. revert s vis. induction items as [|[element p] items IH]; intros s vis; [done|].
  change (foldl (processElement env) (s, vis) ((element, p) :: items))
    with (foldl (processElement env) (processElement env (s, vis) (element, p)) items).
  destruct (processElement_step env s vis element p)
    as (Hother & Hreg & _ & st2 & Hst2 & _ & _ & _ & Hcase).
  pose proof (λ l, proj1 (processElement_flagged env s vis element p l)) as Hmono.
  destruct (stateOr_fields (getLoggingConfig env element) (DomElement <$> p)
              (DomElement element) s) as (Hfl & _).
  unfold stateOr in Hcase.
  destruct (processElement env (s, vis) (element, p)) as [s1 vis1]. simpl in *.
  destruct (IH s1 vis1) as (Hpre & -> & Hmono' & Himp).
  split_and!; [|done|by auto|].
  - etrans; [|exact Hpre].
    destruct Hcase as [(-> & _)|(-> & _)]; [done|by apply prefix_app_r].
  - intros rect l (st & Hst & Hlogged & Hsize). apply Himp.
    destruct (decide (l = DomElement element)) as [->|Hne].
    + rewrite Hst in Hcase. simpl in Hcase. exists st2.
      destruct Hcase as [(_ & Hi & Hs & _)|(_ & Hi & _)]; [|congruence].
      split_and!; [done|congruence..].
    + exists st. by rewrite (Hother l Hne).
Qed.

Lemma nonDomLoop_keeps (regs : list Registration) s vis :
  let acc' := foldl processNonDom (s, vis) regs in
  vis `prefix_of` acc'.2 ∧
  (∀ l, l ∉ registered s → l ∉ registered acc'.1) ∧
  (∀ l, flagged l s = true → flagged l acc'.1 = true) ∧
  (∀ rect l, impressionWith rect l s → impressionWith rect l acc'.1).
Proof.
  cbv zeta. revert s vis. induction regs as [|r regs IH]; intros s vis; [done|].
  change (foldl processNonDom (s, vis) (r :: regs))
    with (foldl processNonDom (processNonDom (s, vis) r) regs).
  destruct (processNonDom_step s vis r)
    as (Hother & _ & _ & (st2 & Hst2 & _ & _ & Hsize & Hi) & Hcase & _).
  pose proof (λ l, processNonDom_flagged s vis r l) as Hmono.
  unfold stateOr in Hsize, Hi.
  destruct (processNonDom (s, vis) r) as [s1 vis1]. simpl in *.
  destruct (IH s1 vis1) as (Hpre & Hreg & Hmono' & Himp).
  split_and!; [| |by auto|].
  - etrans; [|exact Hpre].
    destruct Hcase as [(-> & _)|(-> & _)]; [done|by apply prefix_app_r].
  - intros l Hl. apply Hreg. unfold registered in *.
    destruct Hcase as [(_ & -> & _)|(_ & -> & _)]; [done|].
    rewrite elem_of_registered_filter. tauto.
  - intros rect l (st & Hst & Hlogged & Hsz). apply Himp.
    destruct (decide (l = reg_loggable r)) as [->|Hne].
    + rewrite Hst in Hsize, Hi. simpl in Hsize, Hi. exists st2.
      split_and!; [done|by apply Hi|congruence].
    + exists st. by rewrite (Hother l Hne).
Qed.

(** An element that is listed, has no impression logged and overlaps the
    viewport is put in [visibleLoggables] by the loop over the elements. *)
Lemma domLoop_logs_visible env (e : Node) (rect : DOMRect)
    (items : list (Node * option Node)) s vis :
  visibleOverlap env e (viewportRectFor env e) = Some rect →
  e ∈ items.*1 → flagged (DomElement e) s = false →
  let acc' := foldl (processElement env) (s, vis) items in
  DomElement e ∈ acc'.2 ∧ impressionWith rect (DomElement e) acc'.1.
Proof.
  intros Hrect. cbv zeta. revert s vis.
  induction items as [|[element p] items IH]; intros s vis Hin Hfl.
  { by apply elem_of_nil in Hin. }
  change (foldl (processElement env) (s, vis) ((element, p) :: items))
    with (foldl (processElement env) (processElement env (s, vis) (element, p)) items).
  destruct (processElement_step env s vis element p)
    as (_ & _ & _ & st2 & Hst2 & _ & _ & _ & Hcase).
  pose proof (proj2 (processElement_flagged env s vis element p (DomElement e))) as Hsame.
  destruct (stateOr_fields (getLoggingConfig env element) (DomElement <$> p)
              (DomElement element) s) as (Hfl0 & _).
  destruct (processElement env (s, vis) (element, p)) as [s1 vis1]. simpl in *.
  destruct (decide (e = element)) as [->|Hne].
  - rewrite Hfl0, Hfl, Hrect in Hcase.
    destruct Hcase as [(_ & _ & _ & Hno)|(-> & _ & Hi & _ & Hsz)]; [by specialize (Hno eq_refl)|].
    destruct (domLoop_keeps env items s1 (vis ++ [DomElement element]))
      as (Hpre & _ & _ & Himp).
    split.
    + eapply elem_of_prefix; [|exact Hpre]. apply elem_of_app. right. left.
    + apply Himp. exists st2. split_and!; [done..|by apply Hsz].
  - apply IH.
    + apply elem_of_cons in Hin as [?|?]; [done|done].
    + rewrite Hsame by congruence. done.
Qed.

(** What the loop over the elements puts in [visibleLoggables]: listed
    elements that had no impression logged and overlap the viewport or
    are an [OPTION]. *)
Lemma domLoop_sound env (items : list (Node * option Node)) s vis l :
  let acc' := foldl (processElement env) (s, vis) items in
  l ∈ acc'.2 →
  l ∈ vis ∨
  ∃ e, l = DomElement e ∧ e ∈ items.*1 ∧ flagged l s = false ∧
       (is_Some (visibleOverlap env e (viewportRectFor env e)) ∨ tagName env e = "OPTION").
Proof.
  cbv zeta. revert s vis. induction items as [|[element p] items IH]; intros s vis Hl.
  { by left. }
  change (foldl (processElement env) (s, vis) ((element, p) :: items))
    with (foldl (processElement env) (processElement env (s, vis) (element, p)) items) in Hl.
  destruct (processElement_step env s vis element p)
    as (_ & _ & _ & st2 & Hst2 & _ & _ & _ & Hcase).
  pose proof (proj1 (processElement_flagged env s vis element p l)) as Hmono.
  destruct (stateOr_fields (getLoggingConfig env element) (DomElement <$> p)
              (DomElement element) s) as (Hfl0 & _).
  destruct (processElement env (s, vis) (element, p)) as [s1 vis1]. simpl in *.
  destruct (IH s1 vis1 Hl) as [Hin|(e & -> & He & Hfl & Hv)].
  - destruct Hcase as [(-> & _)|(-> & Hi & _ & Hv & _)]; [by left|].
    apply elem_of_app in Hin as [Hin|Hin]; [by left|]. right.
    apply list_elem_of_singleton in Hin as ->.
    exists element. split_and!; [done|left|congruence|done].
  - right. exists e. split_and!; [done|by right| |done].
    destruct (flagged (DomElement e) s) eqn:Hs; [|done].
    by rewrite Hmono in Hfl.
Qed.

Lemma nonDomLoop_sound (regs : list Registration) s vis l :
  l ∈ (foldl processNonDom (s, vis) regs).2 → l ∈ vis ∨ l ∈ reg_loggable <$> regs.
Proof.
  revert s vis. induction regs as [|r regs IH]; intros s vis Hl; [by left|].
  change (foldl processNonDom (s, vis) (r :: regs))
    with (foldl processNonDom (processNonDom (s, vis) r) regs) in Hl.
  destruct (processNonDom_step s vis r) as (_ & _ & _ & _ & Hcase & _).
  rewrite fmap_cons, elem_of_cons.
  destruct (processNonDom (s, vis) r) as [s1 vis1]. simpl in Hcase.
  destruct (IH s1 vis1 Hl) as [Hin|Hin]; [|by auto].
  destruct Hcase as [(-> & _)|(-> & _)]; [by left|].
  apply elem_of_app in Hin as [Hin|Hin]; [by left|].
  apply list_elem_of_singleton in Hin as ->. auto.
Qed.

(** A registered loggable without a parent is put in [visibleLoggables]
    by the loop over the registry, and taken out of the registry. *)
Lemma nonDomLoop_logs_parentless (regs : list Registration) s vis (r : Registration) :
  r ∈ regs → reg_parent r = None →
  let acc' := foldl processNonDom (s, vis) regs in
  reg_loggable r ∈ acc'.2 ∧ (reg_loggable r ∉ registered acc'.1) ∧
  flagged (reg_loggable r) acc'.1 = true.
Proof.
  intros Hin Hparent. cbv zeta. revert s vis Hin.
  induction regs as [|r0 regs IH]; intros s vis Hin.
  { by apply elem_of_nil in Hin. }
  change (foldl processNonDom (s, vis) (r0 :: regs))
    with (foldl processNonDom (processNonDom (s, vis) r0) regs).
  apply elem_of_cons in Hin as [<-|Hin].
  - destruct (processNonDom_step s vis r) as (_ & _ & _ & _ & Hcase & Hnoparent).
    specialize (Hnoparent Hparent).
    destruct (processNonDom (s, vis) r) as [s1 vis1]. simpl in *.
    destruct Hcase as [(_ & _ & [? Hp])|(_ & Hreg & Hfl)]; [congruence|].
    destruct (nonDomLoop_keeps regs s1 vis1) as (Hpre & Hgone & Hmono & _).
    split_and!.
    + eapply elem_of_prefix; [|exact Hpre]. rewrite Hnoparent.
      apply elem_of_app. right. left.
    + apply Hgone. unfold registered. rewrite Hreg, elem_of_registered_filter. tauto.
    + by apply Hmono.
  - destruct (processNonDom (s, vis) r0) as [s1 vis1]. by apply IH.
Qed.

(** No visible element is missed. On a page that is not hidden, an
    element that [getDomState] lists, whose impression is not logged yet
    and that overlaps the viewport is handed to [logImpressions] by the
    run of [process]; its impression is then marked as logged, and the
    overlap is kept as its size. *)
Theorem visible_elements_are_logged env s (e : Node) (rect : DOMRect) :
  hidden env = false →
  e ∈ listed env s →
  flagged (DomElement e) s = false →
  visibleOverlap env e (viewportRectFor env e) = Some rect →
  let s' := process env s in
  DomElement e ∈ lastBatch s' ∧
  DomElement e ∈ logged s' ∧
  flagged (DomElement e) s' = true ∧
  impressionWith rect (DomElement e) s'.
Proof.
  intros Hh Hlisted Hfl Hrect. cbv zeta.
  destruct (process_unfold env s Hh) as (Hrun & Hlogs & _ & Hbatch).
  set (dom := getDomState env (documents (vars s))) in *.
  set (s1 := observeMutations _ _) in *.
  destruct (domLoop_logs_visible env e rect (loggables dom) s1 [] Hrect Hlisted)
    as (Hin & Himp).
  { unfold flagged, getLoggingState in *. by rewrite Hlogs. }
  set (a2 := foldl (processElement env) (s1, []) (loggables dom)) in *.
  destruct (nonDomLoop_keeps (getNonDomState a2.1) a2.1 a2.2) as (Hpre & _ & _ & Hkeep).
  rewrite <- surjective_pairing in Hpre, Hkeep.
  set (a3 := foldl processNonDom a2 (getNonDomState a2.1)) in *.
  assert (Hbatch' : DomElement e ∈ lastBatch (process env s))
    by (rewrite Hbatch; by eapply elem_of_prefix).
  assert (Himp' : impressionWith rect (DomElement e) (process env s)).
  { rewrite Hrun. destruct (Hkeep rect (DomElement e) Himp) as (st & Hst & ?).
    by exists st. }
  split_and!; [done| | |done].
  - rewrite Hrun. unfold logged. simpl. rewrite concat_app, elem_of_app. right.
    change (concat [a3.2]) with (a3.2 ++ []). rewrite app_nil_r.
    exact (elem_of_prefix _ _ _ Hin Hpre).
  - destruct Himp' as (st & Hst & Hi & _). unfold flagged. by rewrite Hst.
Qed.

(** On the example page: element 2 is listed and overlaps the viewport. *)
Lemma visible_elements_are_logged_witness :
  hidden Examples.page = false ∧
  2 ∈ listed Examples.page initial ∧
  flagged (DomElement 2) initial = false ∧
  is_Some (visibleOverlap Examples.page 2 (viewportRectFor Examples.page 2)) ∧
  DomElement 2 ∈ lastBatch (process Examples.page initial) ∧
  flagged (DomElement 2) (process Examples.page initial) = true.
Proof.
  assert (Hl : 2 ∈ listed Examples.page initial) by (vm_compute; left).
  destruct (visible_elements_are_logged Examples.page initial 2
              {| rect_x := 0; rect_y := 0; rect_width := 10; rect_height := 10 |}
              eq_refl Hl eq_refl eq_refl) as (Hb & _ & Hf & _).
  split_and!; [done|exact Hl|done|by eexists|exact Hb|exact Hf].
Defined.

(** A registered loggable that has no parent is handed to [logImpressions]
    by the next run of [process] on a page that is not hidden, whatever
    its state, and is then no longer registered. *)
Theorem registered_without_parent_are_logged env s (r : Registration) :
  hidden env = false →
  r ∈ registry (logs s) →
  reg_parent r = None →
  let s' := process env s in
  reg_loggable r ∈ lastBatch s' ∧
  (reg_loggable r ∉ registered s') ∧
  flagged (reg_loggable r) s' = true.
Proof.
  intros Hh Hr Hparent. cbv zeta.
  destruct (process_unfold env s Hh) as (Hrun & Hlogs & _ & Hbatch).
  set (dom := getDomState env (documents (vars s))) in *.
  set (s1 := observeMutations _ _) in *.
  destruct (domLoop_keeps env (loggables dom) s1 []) as (_ & Hreg & _).
  set (a2 := foldl (processElement env) (s1, []) (loggables dom)) in *.
  destruct (nonDomLoop_logs_parentless (getNonDomState a2.1) a2.1 a2.2 r) as (Hin & Hgone & Hfl).
  { unfold getNonDomState. by rewrite Hreg, Hlogs. }
  { done. }
  rewrite <- surjective_pairing in Hin, Hgone, Hfl.
  rewrite Hbatch. split_and!; [done|by rewrite Hrun|by rewrite Hrun].
Qed.

(** On the example page, with the two registered objects: object 0 has no
    parent. *)
Lemma registered_without_parent_are_logged_witness :
  let r := {| reg_loggable := NonDomObject 0; reg_config := {| track := None |};
              reg_parent := None |} in
  hidden Examples.page = false ∧
  r ∈ registry (logs Examples.withRegistry) ∧
  NonDomObject 0 ∈ lastBatch (process Examples.page Examples.withRegistry) ∧
  registered (process Examples.page Examples.withRegistry) = [NonDomObject 1].
Proof.
  cbv zeta.
  assert (Hr : {| reg_loggable := NonDomObject 0; reg_config := {| track := None |};
                  reg_parent := None |} ∈ registry (logs Examples.withRegistry))
    by (vm_compute; left).
  destruct (registered_without_parent_are_logged Examples.page Examples.withRegistry _
              eq_refl Hr eq_refl) as (Hb & _).
  split_and!; [done|exact Hr|exact Hb|by vm_compute].
Defined.

(** Nothing else is logged. What a run of [process] on a page that is not
    hidden hands to [logImpressions] is: elements that [getDomState]
    lists, whose impression was not logged before the run and that
    overlap the viewport or are an [OPTION]; and loggables that were
    registered. *)
Theorem logged_only_when_visible env s l :
  hidden env = false →
  l ∈ lastBatch (process env s) →
  (∃ e, l = DomElement e ∧ e ∈ listed env s ∧ flagged l s = false ∧
        (is_Some (visibleOverlap env e (viewportRectFor env e)) ∨
         tagName env e = "OPTION")) ∨
  l ∈ registered s.
Proof.
  intros Hh Hl.
  destruct (process_unfold env s Hh) as (_ & Hlogs & _ & Hbatch).
  set (dom := getDomState env (documents (vars s))) in *.
  set (s1 := observeMutations _ _) in *.
  destruct (domLoop_keeps env (loggables dom) s1 []) as (_ & Hreg & _).
  pose proof (domLoop_sound env (loggables dom) s1 [] l) as Hdom.
  set (a2 := foldl (processElement env) (s1, []) (loggables dom)) in *.
  pose proof (nonDomLoop_sound (getNonDomState a2.1) a2.1 a2.2 l) as Hnon.
  rewrite <- surjective_pairing in Hnon. rewrite Hbatch in Hl.
  destruct (Hnon Hl) as [Hin|Hin].
  - destruct (Hdom Hin) as [?%elem_of_nil|(e & -> & He & Hfl & Hv)]; [done|].
    left. exists e. split_and!; [done..| |done].
    unfold flagged, getLoggingState in *. by rewrite Hlogs in Hfl.
  - right. unfold registered. unfold getNonDomState in Hin. by rewrite Hreg, Hlogs in Hin.
Qed.

(** On the example page: the first run of [process] logs element 2,
    which overlaps the viewport, and not element 3, which does not. *)
Lemma logged_only_when_visible_witness :
  hidden Examples.page = false ∧
  lastBatch (process Examples.page initial) = [DomElement 2] ∧
  DomElement 2 ∈ lastBatch (process Examples.page initial) ∧
  ((∃ e, DomElement 2 = DomElement e ∧ e ∈ listed Examples.page initial ∧
         flagged (DomElement 2) initial = false ∧
         (is_Some (visibleOverlap Examples.page e (viewportRectFor Examples.page e)) ∨
          tagName Examples.page e = "OPTION")) ∨
   DomElement 2 ∈ registered initial).
Proof.
  assert (Hl : DomElement 2 ∈ lastBatch (process Examples.page initial))
    by (vm_compute; left).
  split_and!; [done|by vm_compute|exact Hl|].
  exact (logged_only_when_visible Examples.page initial (DomElement 2) eq_refl Hl).
Defined.

End DriverProcess.
